(** * WantedCategories: removal of red categories from wiki pages

    A shallow embedding of [remove_red_categories.py]: the two text
    functions of [RedCategoryRemover] ([check_category_in_text] and
    [remove_category_from_text]), the fragment of Python's [re] module they
    are written in, the per-category loop [process_category], and the
    connection, the two listings and the driver [run] around it. *)

From Stdlib Require Import String Ascii List NArith ZArith Bool Lia.
Import ListNotations.

Set Implicit Arguments.

(** ** Python strings

    A Python [str] is a sequence of Unicode code points. *)

Definition char := N.
Definition str := list char.

(** Code points of an ASCII literal of the source. *)
Definition py (s : string) : str := map N_of_ascii (list_ascii_of_string s).

Definition ch (a : ascii) : char := N_of_ascii a.

Fixpoint str_eqb (a b : str) : bool :=
  match a, b with
  | [], [] => true
  | x :: a', y :: b' => N.eqb x y && str_eqb a' b'
  | _, _ => false
  end.

Definition mem (c : char) (l : list char) : bool := existsb (N.eqb c) l.

(** ** Exceptions and results *)

Inductive exn :=
| ReError                      (* re.error *)
| Exception (msg : string).    (* any other subclass of Exception *)

Inductive result (A : Type) :=
| Ok (a : A)
| Raised (e : exn).
Arguments Ok {A} a.
Arguments Raised {A} e.

(** ** Unicode case data

    With [re.IGNORECASE] a [str] pattern is matched through the Unicode case
    tables of the interpreter.  Their ASCII part is fixed below; the part
    above U+007F and the table of extra case equivalences
    ([re._casefix._EXTRA_CASES]) are not in the repository and stay
    parameters. *)

Class UnicodeCase := {
  wide_tolower : char -> char;
  wide_iscased : char -> bool;
  ignorecase_fixes : char -> list char
}.

(** The tables restricted to what matters for pages and names made of
    ASCII characters and of letters without case. *)
Definition ascii_case : UnicodeCase :=
  {| wide_tolower := fun c => c;
     wide_iscased := fun _ => false;
     ignorecase_fixes := fun _ => [] |}.

Module Re.
Local Open Scope N_scope.

(** [re.escape] (Python 3.7 and later): a backslash before each special
    character, every other character unchanged. *)
Definition special_chars : list char :=
  py "()[]{}?*+-|^$\.&~# " ++ [9; 10; 13; 11; 12].

Definition escape (pattern : str) : str :=
  flat_map (fun c => if mem c special_chars then [ch "\"; c] else [c]) pattern.

(** *** Parsed patterns

    The fragment of the pattern syntax the program uses: literals, the
    class [\s], one-character sets, greedy [*] on a single character,
    greedy [?], and non-capturing groups. *)

Inductive charset :=
| LITERAL (c : char)
| NOT_LITERAL (c : char)
| CATEGORY_SPACE.

Inductive pattern :=
| EMPTY
| CHAR (cs : charset)
| MAX_REPEAT (cs : charset)      (* cs*, greedy *)
| MAYBE (p : pattern)            (* p?, greedy *)
| SUBPATTERN (p : pattern)       (* (?:p) *)
| SEQ (p q : pattern).

Fixpoint seq_of (items : list pattern) : pattern :=
  match items with
  | [] => EMPTY
  | p :: ps => SEQ p (seq_of ps)
  end.

Inductive mode :=
| Normal
| Escape
| Paren
| ParenQ
| SetOpen
| SetBody (negate : bool) (members : list char)
| SetEscape (negate : bool) (members : list char).

(** Parser state: the enclosing groups, the items of the current group
    (last one first) and the lexical mode. *)
Record pstate := {
  stack : list (list pattern);
  items : list pattern;
  md : mode
}.

Definition push (st : pstate) (p : pattern) : option pstate :=
  Some {| stack := stack st; items := p :: items st; md := Normal |}.

Definition is_ascii_alnum (c : char) : bool :=
  ((48 <=? c) && (c <=? 57) || (65 <=? c) && (c <=? 90)
   || (97 <=? c) && (c <=? 122))%N.

(** Escapes outside a set: [\s], the control-character escapes, and a
    backslash before anything that is not an ASCII letter or digit. *)
Definition escaped (c : char) : option pattern :=
  if N.eqb c (ch "s") then Some (CHAR CATEGORY_SPACE)
  else if N.eqb c (ch "n") then Some (CHAR (LITERAL 10))
  else if N.eqb c (ch "t") then Some (CHAR (LITERAL 9))
  else if N.eqb c (ch "r") then Some (CHAR (LITERAL 13))
  else if N.eqb c (ch "f") then Some (CHAR (LITERAL 12))
  else if N.eqb c (ch "v") then Some (CHAR (LITERAL 11))
  else if is_ascii_alnum c then None
  else Some (CHAR (LITERAL c)).

Definition set_escaped (c : char) : option char :=
  if N.eqb c (ch "n") then Some 10%N
  else if N.eqb c (ch "t") then Some 9%N
  else if N.eqb c (ch "r") then Some 13%N
  else if N.eqb c (ch "f") then Some 12%N
  else if N.eqb c (ch "v") then Some 11%N
  else if is_ascii_alnum c then None
  else Some c.

(** A set of one literal is a [LITERAL] or, negated, a [NOT_LITERAL]. *)
Definition close_set (negate : bool) (members : list char) : option pattern :=
  match members with
  | [c] => Some (CHAR (if negate then NOT_LITERAL c else LITERAL c))
  | _ => None
  end.

Definition feed (st : pstate) (c : char) : option pstate :=
  let at_mode m := Some {| stack := stack st; items := items st; md := m |} in
  match md st with
  | Normal =>
      if N.eqb c (ch "\") then at_mode Escape
      else if N.eqb c (ch "[") then at_mode SetOpen
      else if N.eqb c (ch "(") then at_mode Paren
      else if N.eqb c (ch ")") then
        match stack st with
        | outer :: rest =>
            Some {| stack := rest;
                    items := SUBPATTERN (seq_of (rev (items st))) :: outer;
                    md := Normal |}
        | [] => None
        end
      else if N.eqb c (ch "*") then
        match items st with
        | CHAR cs :: before =>
            Some {| stack := stack st; items := MAX_REPEAT cs :: before;
                    md := Normal |}
        | _ => None
        end
      else if N.eqb c (ch "?") then
        match items st with
        | CHAR cs :: before =>
            Some {| stack := stack st; items := MAYBE (CHAR cs) :: before;
                    md := Normal |}
        | SUBPATTERN p :: before =>
            Some {| stack := stack st; items := MAYBE (SUBPATTERN p) :: before;
                    md := Normal |}
        | _ => None
        end
      else if mem c (py ".^$+{|") then None
      else push st (CHAR (LITERAL c))
  | Escape =>
      match escaped c with
      | Some p => push st p
      | None => None
      end
  | Paren => if N.eqb c (ch "?") then at_mode ParenQ else None
  | ParenQ =>
      if N.eqb c (ch ":") then
        Some {| stack := items st :: stack st; items := []; md := Normal |}
      else None
  | SetOpen =>
      if N.eqb c (ch "^") then at_mode (SetBody true [])
      else if N.eqb c (ch "\") then at_mode (SetEscape false [])
      else if N.eqb c (ch "-") then None
      else at_mode (SetBody false [c])
  | SetBody negate members =>
      if N.eqb c (ch "]") then
        match members with
        | [] => at_mode (SetBody negate [c])
        | _ => match close_set negate members with
               | Some p => push st p
               | None => None
               end
        end
      else if N.eqb c (ch "\") then at_mode (SetEscape negate members)
      else if N.eqb c (ch "-") then None
      else at_mode (SetBody negate (members ++ [c]))
  | SetEscape negate members =>
      match set_escaped c with
      | Some x => at_mode (SetBody negate (members ++ [x]))
      | None => None
      end
  end.

Fixpoint feed_all (st : pstate) (s : str) : option pstate :=
  match s with
  | [] => Some st
  | c :: s' =>
      match feed st c with
      | Some st' => feed_all st' s'
      | None => None
      end
  end.

Definition start : pstate := {| stack := []; items := []; md := Normal |}.

(** [None] stands for [re.error] (or a construct outside the fragment). *)
Definition parse (source : str) : option pattern :=
  match feed_all start source with
  | Some {| stack := []; items := its; md := Normal |} => Some (seq_of (rev its))
  | _ => None
  end.

Inductive flag := NOFLAG | IGNORECASE.

Section Matching.
Context {UC : UnicodeCase}.

Definition unicode_tolower (c : char) : char :=
  if (c <? 128)%N then
    if ((65 <=? c) && (c <=? 90))%N then (c + 32)%N else c
  else wide_tolower c.

Definition unicode_iscased (c : char) : bool :=
  if (c <? 128)%N then
    ((65 <=? c) && (c <=? 90) || (97 <=? c) && (c <=? 122))%N
  else wide_iscased c.

(** [str.isspace] on one code point, which is what [\s] tests. *)
Definition unicode_isspace (c : char) : bool :=
  ((9 <=? c) && (c <=? 13) || (28 <=? c) && (c <=? 32)
   || (c =? 133) || (c =? 160) || (c =? 5760)
   || (8192 <=? c) && (c <=? 8202)
   || (c =? 8232) || (c =? 8233) || (c =? 8239) || (c =? 8287)
   || (c =? 12288))%N.

(** A literal [p] of the pattern against a character [t] of the text, as
    Python 3.7 and later compile it.  A literal without case is compared as
    it is; a cased one through the lower-case table and the extra
    equivalences of its lower case. *)
Definition lit_match (fl : flag) (p t : char) : bool :=
  match fl with
  | NOFLAG => N.eqb t p
  | IGNORECASE =>
      if unicode_iscased p then
        let lo := unicode_tolower p in
        let lt := unicode_tolower t in
        N.eqb lt lo || mem lt (ignorecase_fixes lo)
      else N.eqb t p
  end.

Definition cs_match (fl : flag) (cs : charset) (t : char) : bool :=
  match cs with
  | LITERAL p => lit_match fl p t
  | NOT_LITERAL p => negb (lit_match fl p t)
  | CATEGORY_SPACE => unicode_isspace t
  end.

(** Greedy repetition of a one-character test, with backtracking: the
    longest run first, then shorter ones, until the continuation [k]
    accepts. *)
Fixpoint repeat_one (test : char -> bool) (s : str)
    (k : str -> option str) : option str :=
  match s with
  | c :: s' =>
      if test c then
        match repeat_one test s' k with
        | Some r => Some r
        | None => k s
        end
      else k s
  | [] => k []
  end.

(** The backtracking matcher: [run fl p s k] matches [p] at the start
    of [s] and hands the rest of the text to [k]; the first alternative
    that [k] accepts wins. *)
Fixpoint run (fl : flag) (p : pattern) (s : str)
    (k : str -> option str) : option str :=
  match p with
  | EMPTY => k s
  | CHAR cs =>
      match s with
      | c :: s' => if cs_match fl cs c then k s' else None
      | [] => None
      end
  | MAX_REPEAT cs => repeat_one (cs_match fl cs) s k
  | MAYBE q =>
      match run fl q s k with
      | Some r => Some r
      | None => k s
      end
  | SUBPATTERN q => run fl q s k
  | SEQ q1 q2 => run fl q1 s (fun s' => run fl q2 s' k)
  end.

(** A match starting exactly at the head of [s]: the text left after it. *)
Definition match_here (fl : flag) (p : pattern) (s : str) : option str :=
  run fl p s (fun rest => Some rest).

(** Scan for the leftmost position where the pattern matches. *)
Fixpoint scan (fl : flag) (p : pattern) (s : str) : bool :=
  match match_here fl p s with
  | Some _ => true
  | None =>
      match s with
      | [] => false
      | _ :: s' => scan fl p s'
      end
  end.

(** Replace the leftmost non-overlapping matches by [repl].  [skip] counts
    the characters of the current match still to be dropped.  An empty match
    replaces nothing of the text. *)
Fixpoint replace (fl : flag) (p : pattern) (repl : str) (s : str)
    (skip : nat) : str :=
  match s with
  | [] =>
      match skip, match_here fl p [] with
      | O, Some _ => repl
      | _, _ => []
      end
  | c :: s' =>
      match skip with
      | S n => replace fl p repl s' n
      | O =>
          match match_here fl p s with
          | Some rest =>
              match (length s - length rest)%nat with
              | O => repl ++ c :: replace fl p repl s' 0
              | S n => repl ++ replace fl p repl s' n
              end
          | None => c :: replace fl p repl s' 0
          end
      end
  end.

(** [re.search(pattern, string, flags)], as the truth value of its result. *)
Definition search (source : str) (text : str) (fl : flag) : result bool :=
  match parse source with
  | Some p => Ok (scan fl p text)
  | None => Raised ReError
  end.

(** [re.sub(pattern, repl, string, flags=flags)] for a replacement without
    group references. *)
Definition sub (source : str) (repl : str) (text : str) (fl : flag)
  : result str :=
  match parse source with
  | Some p => Ok (replace fl p repl text 0)
  | None => Raised ReError
  end.

End Matching.
End Re.

(** ** The text functions of [RedCategoryRemover] *)

Section TextFunctions.
Context {UC : UnicodeCase}.

(** The Arabic namespace keyword, U+062A U+0635 U+0646 U+064A U+0641. *)
Definition tasnif : str := [1578; 1589; 1606; 1610; 1601]%N.

(** The four detection patterns, as the source spells them. *)
Definition check_patterns (escaped_name : str) : list str :=
  [ py "\[\[Category:" ++ escaped_name ++ py "\s*(?:\|[^\]]*)?\]\]";
    py "\[\[category:" ++ escaped_name ++ py "\s*(?:\|[^\]]*)?\]\]";
    py "\[\[" ++ tasnif ++ py ":" ++ escaped_name ++ py "\s*(?:\|[^\]]*)?\]\]";
    py "\[\[CATEGORY:" ++ escaped_name ++ py "\s*(?:\|[^\]]*)?\]\]" ].

(** [for pattern in patterns: if re.search(...): return True] and
    [return False] after the loop. *)
Fixpoint search_any (patterns : list str) (text : str) : result bool :=
  match patterns with
  | [] => Ok false
  | pattern :: more =>
      match Re.search pattern text Re.IGNORECASE with
      | Ok true => Ok true
      | Ok false => search_any more text
      | Raised e => Raised e
      end
  end.

Definition check_category_in_text (text category_name : str) : result bool :=
  let escaped_name := Re.escape category_name in
  search_any (check_patterns escaped_name) text.

(** The four removal patterns: the detection patterns followed by [\n?]. *)
Definition remove_patterns (escaped_name : str) : list str :=
  [ py "\[\[Category:" ++ escaped_name ++ py "\s*(?:\|[^\]]*)?\]\]\n?";
    py "\[\[category:" ++ escaped_name ++ py "\s*(?:\|[^\]]*)?\]\]\n?";
    py "\[\[" ++ tasnif ++ py ":" ++ escaped_name
       ++ py "\s*(?:\|[^\]]*)?\]\]\n?";
    py "\[\[CATEGORY:" ++ escaped_name ++ py "\s*(?:\|[^\]]*)?\]\]\n?" ].

(** [for pattern in patterns: modified_text = re.sub(pattern, '', ...)]. *)
Fixpoint sub_each (patterns : list str) (modified_text : str) : result str :=
  match patterns with
  | [] => Ok modified_text
  | pattern :: more =>
      match Re.sub pattern [] modified_text Re.IGNORECASE with
      | Ok t => sub_each more t
      | Raised e => Raised e
      end
  end.

Definition remove_category_from_text (text category_name : str) : result str :=
  let escaped_name := Re.escape category_name in
  sub_each (remove_patterns escaped_name) text.

End TextFunctions.

(** ** Pages, the log and the wiki calls *)

(** What [process_category] uses of an [mwclient] page: two attributes and
    two calls, either of which may raise. *)
Record Page := {
  page_namespace : Z;
  page_name : str;
  page_text : result str;                              (* page.text() *)
  page_save : str -> str -> bool -> result unit        (* page.save(...) *)
}.

Inductive level := DEBUG | INFO | WARNING | ERROR.

(** The messages of the logger calls of [process_category], one constructor
    per call, with the values its f-string interpolates. *)
Inductive message :=
| MsgRule
| MsgProcessing (category_name : str)
| MsgNoMembers (category_name : str)
| MsgFoundMembers (n : Z)
| MsgSkippingNonArticle (page : str)
| MsgChecking (i n : Z) (page : str)
| MsgFoundInText
| MsgDryRun (page : str)
| MsgRemoved
| MsgUnchanged
| MsgNotFoundInText
| MsgNotFoundIn (max_check : Z)
| MsgLikelyTemplate
| MsgError (page : str) (e : exn).

Inductive event :=
| Log (lv : level) (m : message)
| CallText (page : str)
| CallSave (page : str) (new_text summary : str) (minor : bool).

(** The remover object: the two configuration attributes the loop reads and
    the two bound methods it calls through [self] (which a subclass or a
    test double may replace).  The connection attributes play no part in
    [process_category]. *)
Record RedCategoryRemover := {
  max_check : Z;
  dry_run : bool;
  method_check : str -> str -> result bool;
  method_remove : str -> str -> result str
}.

(** [RedCategoryRemover(site_url, username, password, max_check, dry_run)]. *)
Definition new_remover {UC : UnicodeCase} (max_check : Z) (dry_run : bool)
  : RedCategoryRemover :=
  {| max_check := max_check;
     dry_run := dry_run;
     method_check := check_category_in_text;
     method_remove := remove_category_from_text |}.

(** ** Statements of the loop

    The locals [edits_made] and [not_found_count] and the events so far are
    threaded through the statements; a statement ends normally, or with
    [continue], [return] or a raised exception.  State changes made before a
    [raise] stay. *)

Record frame := {
  edits_made : Z;
  not_found_count : Z;
  trace : list event
}.

Inductive signal (A : Type) :=
| Next (a : A)
| Continue
| Return (v : Z * bool)
| Raise (e : exn).
Arguments Next {A} a.
Arguments Continue {A}.
Arguments Return {A} v.
Arguments Raise {A} e.

Definition M (A : Type) := frame -> signal A * frame.

Definition ret {A} (a : A) : M A := fun f => (Next a, f).

Definition bind {A B} (m : M A) (k : A -> M B) : M B :=
  fun f =>
    match m f with
    | (Next a, f') => k a f'
    | (Continue, f') => (Continue, f')
    | (Return v, f') => (Return v, f')
    | (Raise e, f') => (Raise e, f')
    end.

Notation "x <- c1 ;; c2" := (bind c1 (fun x => c2))
  (at level 61, c1 at next level, right associativity).
Notation "c1 ;; c2" := (bind c1 (fun _ => c2))
  (at level 61, right associativity).

Definition emit (e : event) : M unit :=
  fun f => (Next tt, {| edits_made := edits_made f;
                        not_found_count := not_found_count f;
                        trace := trace f ++ [e] |}).

Definition logger (lv : level) (m : message) : M unit := emit (Log lv m).

Definition of_result {A} (r : result A) : M A :=
  fun f => match r with
           | Ok a => (Next a, f)
           | Raised e => (Raise e, f)
           end.

Definition continue_ {A} : M A := fun f => (Continue, f).
Definition return_ {A} (v : Z * bool) : M A := fun f => (Return v, f).

Definition get_edits_made : M Z := fun f => (Next (edits_made f), f).
Definition get_not_found_count : M Z := fun f => (Next (not_found_count f), f).

Definition set_edits_made (v : Z) : M unit :=
  fun f => (Next tt, {| edits_made := v;
                        not_found_count := not_found_count f;
                        trace := trace f |}).

Definition set_not_found_count (v : Z) : M unit :=
  fun f => (Next tt, {| edits_made := edits_made f;
                        not_found_count := v;
                        trace := trace f |}).

(** [try: body except Exception as e: handler e]. *)
Definition try_except {A} (body : M A) (handler : exn -> M A) : M A :=
  fun f =>
    match body f with
    | (Raise e, f') => handler e f'
    | r => r
    end.

(** [page.text()] and [page.save(new_text, summary=..., minor=True)]. *)
Definition call_text (page : Page) : M str :=
  emit (CallText (page_name page)) ;; of_result (page_text page).

Definition call_save (page : Page) (new_text summary : str) (minor : bool)
  : M unit :=
  emit (CallSave (page_name page) new_text summary minor) ;;
  of_result (page_save page new_text summary minor).

(** ** [process_category] *)

Section ProcessCategory.
Variable self : RedCategoryRemover.
Variable category_name : str.

(** [f"Removing non-existent category: [[Category:{category_name}]]"]. *)
Definition edit_summary : str :=
  py "Removing non-existent category: [[Category:" ++ category_name ++ py "]]".

(** The [try] block of the loop body, lines 222-260. *)
Definition try_block (i n : Z) (page : Page) : M unit :=
  if negb (page_namespace page =? 0)%Z then
    logger DEBUG (MsgSkippingNonArticle (page_name page)) ;;
    continue_
  else
    logger INFO (MsgChecking i n (page_name page)) ;;
    text <- call_text page ;;
    found <- of_result (method_check self text category_name) ;;
    if found then
      logger INFO MsgFoundInText ;;
      new_text <- of_result (method_remove self text category_name) ;;
      if negb (str_eqb new_text text) then
        (if dry_run self then
           logger INFO (MsgDryRun (page_name page))
         else
           call_save page new_text edit_summary true ;;
           logger INFO MsgRemoved) ;;
        e <- get_edits_made ;;
        set_edits_made (e + 1)%Z ;;
        set_not_found_count 0%Z
      else
        logger WARNING MsgUnchanged
    else
      logger INFO MsgNotFoundInText ;;
      c <- get_not_found_count ;;
      set_not_found_count (c + 1)%Z ;;
      c' <- get_not_found_count ;;
      if (c' >=? max_check self)%Z then
        logger INFO (MsgNotFoundIn (max_check self)) ;;
        logger INFO MsgLikelyTemplate ;;
        e <- get_edits_made ;;
        return_ (e, true)
      else ret tt.

(** The body of the [for] loop: the [try] block and its handler,
    lines 221-264. *)
Definition loop_body (i n : Z) (page : Page) : M unit :=
  try_except
    (try_block i n page)
    (fun e =>
       logger ERROR (MsgError (page_name page) e) ;;
       continue_).

(** [for i, page in enumerate(members, 1)], with [n = len(members)]. *)
Fixpoint for_members (i n : Z) (members : list Page) : M unit :=
  match members with
  | [] => ret tt
  | page :: more =>
      fun f =>
        match loop_body i n page f with
        | (Next _, f') => for_members (i + 1)%Z n more f'
        | (Continue, f') => for_members (i + 1)%Z n more f'
        | (Return v, f') => (Return v, f')
        | (Raise e, f') => (Raise e, f')
        end
  end.

(** The whole method, on the list that [get_category_members] returned. *)
Definition process_category_body (members : list Page) : M (Z * bool) :=
  logger INFO MsgRule ;;
  logger INFO (MsgProcessing category_name) ;;
  logger INFO MsgRule ;;
  match members with
  | [] =>
      logger INFO (MsgNoMembers category_name) ;;
      return_ (0%Z, false)
  | _ =>
      let n := Z.of_nat (List.length members) in
      logger INFO (MsgFoundMembers n) ;;
      set_edits_made 0%Z ;;
      set_not_found_count 0%Z ;;
      for_members 1%Z n members ;;
      e <- get_edits_made ;;
      return_ (e, false)
  end.

Definition entry : frame :=
  {| edits_made := 0; not_found_count := 0; trace := [] |}.

(** The returned pair (or the exception that escaped) and the events. *)
Definition process_category (members : list Page)
  : result (Z * bool) * list event :=
  match process_category_body members entry with
  | (Next v, f) => (Ok v, trace f)
  | (Return v, f) => (Ok v, trace f)
  | (Raise e, f) => (Raised e, trace f)
  | (Continue, f) => (Raised (Exception "continue outside a loop"), trace f)
  end.

End ProcessCategory.

(** ** Vocabulary of the statements *)

Module ReSpec.
Import Re.

Section Declarative.
Context {UC : UnicodeCase}.

(** [Matches fl p s r]: a prefix of [s] is in the language of [p] and [r]
    is the text after it (no preference among alternatives). *)
Inductive Matches (fl : flag) : pattern -> str -> str -> Prop :=
| M_empty s : Matches fl EMPTY s s
| M_char cs c s :
    cs_match fl cs c = true -> Matches fl (CHAR cs) (c :: s) s
| M_repeat_stop cs s : Matches fl (MAX_REPEAT cs) s s
| M_repeat_more cs c s r :
    cs_match fl cs c = true ->
    Matches fl (MAX_REPEAT cs) s r ->
    Matches fl (MAX_REPEAT cs) (c :: s) r
| M_maybe_take q s r : Matches fl q s r -> Matches fl (MAYBE q) s r
| M_maybe_skip q s : Matches fl (MAYBE q) s s
| M_sub q s r : Matches fl q s r -> Matches fl (SUBPATTERN q) s r
| M_seq q1 q2 s m r :
    Matches fl q1 s m -> Matches fl q2 m r -> Matches fl (SEQ q1 q2) s r.

End Declarative.

(** The parsed form of the patterns of the program. *)
Definition lits (s : str) : list pattern := map (fun c => CHAR (LITERAL c)) s.

Definition tail_items : list pattern :=
  [ MAX_REPEAT CATEGORY_SPACE;
    MAYBE (SUBPATTERN (seq_of [CHAR (LITERAL (ch "|"));
                               MAX_REPEAT (NOT_LITERAL (ch "]"))]));
    CHAR (LITERAL (ch "]"));
    CHAR (LITERAL (ch "]")) ].

Definition newline_item : pattern := MAYBE (CHAR (LITERAL 10%N)).

Definition link_pattern (opening name : str) : pattern :=
  seq_of (lits opening ++ lits name ++ tail_items).

Definition link_newline_pattern (opening name : str) : pattern :=
  seq_of (lits opening ++ lits name ++ tail_items ++ [newline_item]).

End ReSpec.

(** The openings of the four patterns: brackets, namespace keyword, colon. *)
Definition openings : list str :=
  [ py "[[Category:"; py "[[category:";
    py "[[" ++ tasnif ++ py ":"; py "[[CATEGORY:" ].

Section Constructs.
Context {UC : UnicodeCase}.

(** [same_text p t]: the text [t] spells the pattern literals [p], cased
    characters up to letter case. *)
Definition same_text (p t : str) : Prop :=
  Forall2 (fun a b => Re.lit_match Re.IGNORECASE a b = true) p t.

(** A sort-key suffix: nothing, or a pipe and characters other than [']']. *)
Definition sort_key (sk : str) : Prop :=
  sk = [] \/ exists body, sk = ch "|" :: body /\ Forall (fun c => c <> ch "]") body.

(** [is_link opening name span]: [span] is a bracketed category link for
    [name]: opening, name, white space, sort key, closing brackets. *)
Definition is_link (opening name span : str) : Prop :=
  exists o n ws sk,
    span = o ++ n ++ ws ++ sk ++ py "]]"
    /\ same_text opening o /\ same_text name n
    /\ Forall (fun c => Re.unicode_isspace c = true) ws
    /\ sort_key sk.

(** A link for [name] starts at the head of [s]. *)
Definition link_starts (opening name s : str) : Prop :=
  exists span rest, s = span ++ rest /\ is_link opening name span.

(** The text contains a link for [name], under one of the four openings. *)
Definition occurs (name text : str) : Prop :=
  exists opening before s,
    In opening openings /\ text = before ++ s /\ link_starts opening name s.

(** The newline right after a deleted link goes with it. *)
Definition strip_newline (s : str) : str :=
  match s with
  | c :: s' => if N.eqb c 10 then s' else s
  | [] => []
  end.

(** One pass over the text for one opening: where a link for [name]
    starts, a link span and one following newline are dropped; elsewhere
    the character is kept. *)
Inductive pass (opening name : str) : str -> str -> Prop :=
| pass_end : pass opening name [] []
| pass_keep c s out :
    ~ link_starts opening name (c :: s) ->
    pass opening name s out ->
    pass opening name (c :: s) (c :: out)
| pass_drop span rest out :
    is_link opening name span ->
    pass opening name (strip_newline rest) out ->
    pass opening name (span ++ rest) out.

End Constructs.

(** The passes for a list of openings, one after the other. *)
Fixpoint passes {UC : UnicodeCase} (os : list str) (name s out : str) : Prop :=
  match os with
  | [] => out = s
  | o :: os' => exists t, pass o name s t /\ passes os' name t out
  end.


(** ** Vocabulary of the loop statements *)

Definition is_save (ev : event) : bool :=
  match ev with
  | CallSave _ _ _ _ => true
  | _ => false
  end.

Section LoopSpec.
Variable self : RedCategoryRemover.
Variable category_name : str.

Definition with_events (f : frame) (evs : list event) : frame :=
  {| edits_made := edits_made f;
     not_found_count := not_found_count f;
     trace := trace f ++ evs |}.

(** The two events that open the examination of an article. *)
Definition checking (i n : Z) (page : Page) : list event :=
  [Log INFO (MsgChecking i n (page_name page)); CallText (page_name page)].

(** An article whose text does not contain the category. *)
Definition is_miss (page : Page) : Prop :=
  page_namespace page = 0%Z
  /\ exists text,
       page_text page = Ok text
       /\ method_check self text category_name = Ok false.

(** An article where the category is found and its removal changes the
    text from [text] to [new_text]. *)
Definition is_hit (page : Page) (text new_text : str) : Prop :=
  page_namespace page = 0%Z
  /\ page_text page = Ok text
  /\ method_check self text category_name = Ok true
  /\ method_remove self text category_name = Ok new_text
  /\ new_text <> text.

(** An article where the category is found and its removal returns the
    text as it was. *)
Definition is_unchanged (page : Page) (text : str) : Prop :=
  page_namespace page = 0%Z
  /\ page_text page = Ok text
  /\ method_check self text category_name = Ok true
  /\ method_remove self text category_name = Ok text.

(** [raises i n page e evs]: the [try] block on an article raises [e] after
    the events [evs]: in [page.text()], in one of the two methods, or in
    [page.save(...)]. *)
Inductive raises (i n : Z) (page : Page) : exn -> list event -> Prop :=
| raises_text e :
    page_namespace page = 0%Z ->
    page_text page = Raised e ->
    raises i n page e (checking i n page)
| raises_check text e :
    page_namespace page = 0%Z ->
    page_text page = Ok text ->
    method_check self text category_name = Raised e ->
    raises i n page e (checking i n page)
| raises_remove text e :
    page_namespace page = 0%Z ->
    page_text page = Ok text ->
    method_check self text category_name = Ok true ->
    method_remove self text category_name = Raised e ->
    raises i n page e (checking i n page ++ [Log INFO MsgFoundInText])
| raises_save text new_text e :
    is_hit page text new_text ->
    dry_run self = false ->
    page_save page new_text (edit_summary category_name) true = Raised e ->
    raises i n page e
      (checking i n page
       ++ [Log INFO MsgFoundInText;
           CallSave (page_name page) new_text (edit_summary category_name) true]).

(** One iteration of the loop, case by case. *)
Inductive iteration (i n : Z) (page : Page) (f : frame)
  : signal unit * frame -> Prop :=
| it_non_main :
    page_namespace page <> 0%Z ->
    iteration i n page f
      (Continue,
       with_events f [Log DEBUG (MsgSkippingNonArticle (page_name page))])
| it_raises e evs :
    raises i n page e evs ->
    iteration i n page f
      (Continue,
       with_events f (evs ++ [Log ERROR (MsgError (page_name page) e)]))
| it_miss :
    is_miss page ->
    (not_found_count f + 1 < max_check self)%Z ->
    iteration i n page f
      (Next tt,
       {| edits_made := edits_made f;
          not_found_count := not_found_count f + 1;
          trace := trace f ++ checking i n page
                     ++ [Log INFO MsgNotFoundInText] |})
| it_cutover :
    is_miss page ->
    (not_found_count f + 1 >= max_check self)%Z ->
    iteration i n page f
      (Return (edits_made f, true),
       {| edits_made := edits_made f;
          not_found_count := not_found_count f + 1;
          trace := trace f ++ checking i n page
                     ++ [Log INFO MsgNotFoundInText;
                         Log INFO (MsgNotFoundIn (max_check self));
                         Log INFO MsgLikelyTemplate] |})
| it_unchanged text :
    is_unchanged page text ->
    iteration i n page f
      (Next tt,
       with_events f (checking i n page
                      ++ [Log INFO MsgFoundInText; Log WARNING MsgUnchanged]))
| it_hit_dry_run text new_text :
    is_hit page text new_text ->
    dry_run self = true ->
    iteration i n page f
      (Next tt,
       {| edits_made := edits_made f + 1;
          not_found_count := 0;
          trace := trace f ++ checking i n page
                     ++ [Log INFO MsgFoundInText;
                         Log INFO (MsgDryRun (page_name page))] |})
| it_hit_saved text new_text :
    is_hit page text new_text ->
    dry_run self = false ->
    page_save page new_text (edit_summary category_name) true = Ok tt ->
    iteration i n page f
      (Next tt,
       {| edits_made := edits_made f + 1;
          not_found_count := 0;
          trace := trace f ++ checking i n page
                     ++ [Log INFO MsgFoundInText;
                         CallSave (page_name page) new_text (edit_summary category_name) true;
                         Log INFO MsgRemoved] |}).

(** The frame at the head of the loop, after the opening log lines and the
    two initialisations. *)
Definition loop_entry (n : Z) : frame :=
  {| edits_made := 0;
     not_found_count := 0;
     trace := [Log INFO MsgRule; Log INFO (MsgProcessing category_name);
               Log INFO MsgRule; Log INFO (MsgFoundMembers n)] |}.

(** The frames the loop goes through: one at the head of each iteration
    and the one it ends with. *)
Fixpoint loop_frames (i n : Z) (members : list Page) (f : frame)
  : list frame :=
  f :: match members with
       | [] => []
       | page :: more =>
           match loop_body self category_name i n page f with
           | (Next _, f') => loop_frames (i + 1) n more f'
           | (Continue, f') => loop_frames (i + 1) n more f'
           | (_, f') => [f']
           end
       end.

(** The save of a hit: the new text, the edit summary and the minor flag. *)
Definition save_of (page : Page) (ev : event) : Prop :=
  exists text new_text,
    is_hit page text new_text
    /\ ev = CallSave (page_name page) new_text (edit_summary category_name) true.

(** A save in the trace is the save of a hit, made by a live remover. *)
Definition justified (members : list Page) (ev : event) : Prop :=
  is_save ev = true ->
  dry_run self = false /\ exists page, In page members /\ save_of page ev.

End LoopSpec.

(** The edits a trace reports: one per would-be removal of a dry run and
    one per completed save. *)
Definition is_edit_event (ev : event) : bool :=
  match ev with
  | Log INFO (MsgDryRun _) => true
  | Log INFO MsgRemoved => true
  | _ => false
  end.

Definition edit_count (tr : list event) : Z :=
  Z.of_nat (List.length (filter is_edit_event tr)).

(** The names of the pages whose text was fetched, in order. *)
Fixpoint fetched (tr : list event) : list str :=
  match tr with
  | [] => []
  | CallText page :: tr' => page :: fetched tr'
  | _ :: tr' => fetched tr'
  end.

(** The same remover, writing to the wiki. *)
Definition live (self : RedCategoryRemover) : RedCategoryRemover :=
  {| max_check := max_check self;
     dry_run := false;
     method_check := method_check self;
     method_remove := method_remove self |}.


Section StreakSpec.
Variable self : RedCategoryRemover.
Variable category_name : str.

(** [streak k run]: the pages of [run] that are in the main namespace are
    [k] articles without the category, one after the other; pages of other
    namespaces may lie between them. *)
Inductive streak : nat -> list Page -> Prop :=
| streak_end : streak 0 []
| streak_miss k page run :
    is_miss self category_name page ->
    streak k run -> streak (S k) (page :: run)
| streak_other k page run :
    page_namespace page <> 0%Z ->
    streak k run -> streak k (page :: run).

End StreakSpec.

(** The pages of the main namespace. *)
Definition articles (pages : list Page) : list Page :=
  filter (fun p => (page_namespace p =? 0)%Z) pages.

Section LoopInvariant.
Variable self : RedCategoryRemover.
Local Open Scope Z_scope.

(** At the head of an iteration the counter is below the threshold and
    [edits_made] is the number of edits the trace reports. *)
Definition steady (f : frame) : Prop :=
  0 <= not_found_count f < max_check self
  /\ edits_made f = edit_count (trace f).

(** When the loop returns, the counter has just reached the threshold. *)
Definition at_cutover (v : Z * bool) (f : frame) : Prop :=
  v = (edits_made f, true)
  /\ not_found_count f = max_check self
  /\ edits_made f = edit_count (trace f).

End LoopInvariant.

(** ** Sample pages and removers, after the unit tests *)

Definition article (name text : str) : Page :=
  {| page_namespace := 0;
     page_name := name;
     page_text := Ok text;
     page_save := fun _ _ _ => Ok tt |}.

Definition MOCK_TEXT_NO_CATEGORY : str := py "No category here".

Definition mock_pages (k : nat) : list Page :=
  repeat (article (py "Article") MOCK_TEXT_NO_CATEGORY) k.

Definition page_with_cat : Page :=
  article (py "Article with category")
          (py "Text [[Category:Test Category]] more").

(** An article that cannot be saved. *)
Definition protected_page : Page :=
  {| page_namespace := 0;
     page_name := py "Protected article";
     page_text := Ok (py "Text [[Category:Test Category]] more");
     page_save := fun _ _ _ => Raised (Exception "protected page") |}.

(** An article whose text cannot be fetched. *)
Definition unreadable_page : Page :=
  {| page_namespace := 0;
     page_name := py "Unreadable article";
     page_text := Raised (Exception "connection lost");
     page_save := fun _ _ _ => Ok tt |}.

(** A page outside the main namespace, with the category in its text. *)
Definition talk_page : Page :=
  {| page_namespace := 1;
     page_name := py "Talk:Article";
     page_text := Ok (py "[[Category:Test Category]]");
     page_save := fun _ _ _ => Ok tt |}.

(** The remover of the tests: threshold 10, dry run. *)
Definition test_remover : RedCategoryRemover :=
  new_remover (UC := ascii_case) 10 true.

(** The same remover writing to the wiki. *)
Definition live_remover : RedCategoryRemover :=
  new_remover (UC := ascii_case) 10 false.

(** A test double whose detection always succeeds and whose removal
    returns the text as it is. *)
Definition stub_remover : RedCategoryRemover :=
  {| max_check := 10;
     dry_run := false;
     method_check := fun _ _ => Ok true;
     method_remove := fun text _ => Ok text |}.

(** ** Spellings of a link in a page *)

(** ASCII lower case, the ASCII part of the case table. *)
Definition ascii_tolower (c : char) : char :=
  if ((65 <=? c) && (c <=? 90))%N then (c + 32)%N else c.

(** A spelling of the keyword [Category] in any letter case, or the Arabic
    keyword. *)
Definition keyword_spelling (kw : str) : Prop :=
  map ascii_tolower kw = py "category" \/ kw = tasnif.

(** No opening bracket in the text. *)
Definition bracket_free (s : str) : Prop := Forall (fun c => c <> ch "[") s.

(** The extra case equivalents of ASCII letters lie beyond ASCII (as the
    dotless i and the long s of Python's table do). *)
Definition fixes_beyond_ascii {UC : UnicodeCase} : Prop :=
  forall lo c,
    (lo <? 128)%N = true -> In c (ignorecase_fixes lo) -> (c <? 128)%N = false.

(** ** Counting over pages and traces *)

(** The article test of [is_miss], as the loop computes it. *)
Definition is_missb (self : RedCategoryRemover) (category_name : str)
    (page : Page) : bool :=
  (page_namespace page =? 0)%Z
  && match page_text page with
     | Ok text =>
         match method_check self text category_name with
         | Ok false => true
         | _ => false
         end
     | Raised _ => false
     end.

Definition save_count (tr : list event) : Z :=
  Z.of_nat (List.length (filter is_save tr)).

(** The calls on pages in order: [io_run last tr] follows the trace from
    the page whose text was fetched last and not saved since ([None] at the
    start and after a save), and fails on a save of another page or of a
    page already saved. *)
Fixpoint io_run (last : option str) (tr : list event) : option (option str) :=
  match tr with
  | [] => Some last
  | CallText page :: tr' => io_run (Some page) tr'
  | CallSave page _ _ _ :: tr' =>
      match last with
      | Some fetched_page =>
          if str_eqb page fetched_page then io_run None tr' else None
      | None => None
      end
  | Log _ _ :: tr' => io_run last tr'
  end.

(** No colon in the text. *)
Definition colon_free (s : str) : Prop := Forall (fun c => c <> ch ":") s.

(** A title as the wiki returns it: a name behind a namespace prefix and a
    colon, or a bare name. *)
Definition title_of (t : option str * str) : str :=
  match fst t with
  | Some prefix => prefix ++ py ":" ++ snd t
  | None => snd t
  end.

(** The part of a title that must hold no colon for the name to be what
    the method returns: the prefix, or the whole of a bare title. *)
Definition title_head (t : option str * str) : str :=
  match fst t with
  | Some prefix => prefix
  | None => snd t
  end.

(** A remover that gives up at the first article without the category. *)
Definition hasty_remover : RedCategoryRemover :=
  new_remover (UC := ascii_case) 1 true.

(** * The connection, the listings and the run *)

Module Driver.

(** The answer of [site.api('query', list='querycachedspecial', ...)]: the
    value under ['query'], if the key is there; under it the list under
    ['querycachedspecial'], if that key is there; each item with the value
    under ['title'], if it has one. *)
Definition api_result := option (option (list (option str))).

(** What the remover uses of an [mwclient.Site]. *)
Record Site := {
  site_login : str -> str -> result unit;          (* site.login(u, p) *)
  site_api_wanted : result api_result;             (* site.api('query', ...) *)
  site_members : str -> result (list Page)
    (* list(site.categories[title].members()) *)
}.

(** [mwclient.Site(site_url)]. *)
Definition Mwclient := str -> result Site.

(** The connection attributes of the remover. *)
Record Account := {
  site_url : str;
  username : str;
  password : str
}.

Inductive run_message :=
| MsgConnecting (site_url : str)
| MsgLoggingIn (username : str)
| MsgLoginSuccessful
| MsgNoCredentials
| MsgFailedToConnect (e : exn)
| MsgFetchingWanted
| MsgFoundWanted (n : Z)
| MsgFailedWanted (e : exn)
| MsgFailedMembers (category_name : str) (e : exn)
| MsgBanner
| MsgStarted
| MsgDryRunMode
| MsgExiting
| MsgNoWanted
| MsgProcessingCategory (i n : Z)
| MsgCategoryError (category_name : str) (e : exn)
| MsgSummary
| MsgTotalProcessed (n : Z)
| MsgTotalSkipped (n : Z)
| MsgTotalEdits (n : Z).

Inductive run_event :=
| RunLog (lv : level) (m : run_message)
| NewSite (site_url : str)
| CallLogin (username password : str)
| CallApi
| CallMembers (title : str)
| OnPage (ev : event).

(** Truth value of a [str]. *)
Definition truthy (s : str) : bool :=
  match s with
  | [] => false
  | _ => true
  end.

(** [connect]: the returned flag, [self.site] afterwards, and the events. *)
Definition connect (mwclient : Mwclient) (account : Account)
  : bool * option Site * list run_event :=
  let opening := [RunLog INFO (MsgConnecting (site_url account));
                  NewSite (site_url account)] in
  match mwclient (site_url account) with
  | Raised e =>
      (false, None, opening ++ [RunLog ERROR (MsgFailedToConnect e)])
  | Ok site =>
      if truthy (username account) && truthy (password account) then
        let asking := [RunLog INFO (MsgLoggingIn (username account));
                       CallLogin (username account) (password account)] in
        match site_login site (username account) (password account) with
        | Ok _ =>
            (true, Some site,
             opening ++ asking ++ [RunLog INFO MsgLoginSuccessful])
        | Raised e =>
            (false, Some site,
             opening ++ asking ++ [RunLog ERROR (MsgFailedToConnect e)])
        end
      else
        (true, Some site, opening ++ [RunLog WARNING MsgNoCredentials])
  end.

(** [cat_title.split(':', 1)[1]], when [':' in cat_title]. *)
Fixpoint after_colon (cat_title : str) : option str :=
  match cat_title with
  | [] => None
  | c :: rest => if N.eqb c (ch ":") then Some rest else after_colon rest
  end.

Definition cat_name_of (cat_title : str) : str :=
  match after_colon cat_title with
  | Some cat_name => cat_name
  | None => cat_title
  end.

(** The loop over the items; an item without ['title'] raises [KeyError]. *)
Fixpoint wanted_cats (items : list (option str)) : result (list str) :=
  match items with
  | [] => Ok []
  | None :: _ => Raised (Exception "KeyError: 'title'")
  | Some cat_title :: more =>
      match wanted_cats more with
      | Ok names => Ok (cat_name_of cat_title :: names)
      | Raised e => Raised e
      end
  end.

Definition get_wanted_categories (site : Site) : list str * list run_event :=
  let opening := [RunLog INFO MsgFetchingWanted; CallApi] in
  let found names :=
    (names,
     opening ++ [RunLog INFO (MsgFoundWanted (Z.of_nat (List.length names)))]) in
  match site_api_wanted site with
  | Raised e => ([], opening ++ [RunLog ERROR (MsgFailedWanted e)])
  | Ok (Some (Some items)) =>
      match wanted_cats items with
      | Ok names => found names
      | Raised e => ([], opening ++ [RunLog ERROR (MsgFailedWanted e)])
      end
  | Ok _ => found []
  end.

Definition get_category_members (site : Site) (category_name : str)
  : list Page * list run_event :=
  let failed e := [RunLog ERROR (MsgFailedMembers category_name e)] in
  let title := py "Category:" ++ category_name in
  match site_members site title with
  | Raised e => ([], CallMembers title :: failed e)
  | Ok [] =>
      match site_members site category_name with
      | Raised e =>
          ([], [CallMembers title; CallMembers category_name] ++ failed e)
      | Ok members => (members, [CallMembers title; CallMembers category_name])
      end
  | Ok members => (members, [CallMembers title])
  end.

(** [process_category] on a site: the three opening log lines, the listing
    of the members, and the rest of the method on that list. *)
Definition process_category_on (site : Site) (self : RedCategoryRemover)
    (category_name : str) : result (Z * bool) * list run_event :=
  let (members, listing) := get_category_members site category_name in
  let (returned, events) := process_category self category_name members in
  (returned,
   map OnPage (firstn 3 events) ++ listing ++ map OnPage (skipn 3 events)).

(** The [for] loop of [run]: the totals so far and the events. *)
Fixpoint run_loop (site : Site) (self : RedCategoryRemover) (i n : Z)
    (wanted_categories : list str) (total_edits skipped_categories : Z)
  : Z * Z * list run_event :=
  match wanted_categories with
  | [] => (total_edits, skipped_categories, [])
  | category_name :: more =>
      let announce := RunLog INFO (MsgProcessingCategory i n) in
      match process_category_on site self category_name with
      | (Ok (edits, skipped), events) =>
          let '(t, s, later) :=
            run_loop site self (i + 1) n more
              (total_edits + edits)
              (if skipped then skipped_categories + 1 else skipped_categories)
          in (t, s, announce :: events ++ later)
      | (Raised e, events) =>
          let '(t, s, later) :=
            run_loop site self (i + 1) n more total_edits skipped_categories
          in (t, s,
              announce :: events
                ++ RunLog ERROR (MsgCategoryError category_name e) :: later)
      end
  end.

(** How [run] ends. *)
Inductive run_end :=
| ConnectFailed
| NothingWanted
| Summary (processed skipped_categories total_edits : Z).

Definition run (mwclient : Mwclient) (account : Account)
    (self : RedCategoryRemover) : run_end * list run_event :=
  let opening :=
    [RunLog INFO MsgBanner; RunLog INFO MsgStarted; RunLog INFO MsgBanner]
    ++ (if dry_run self then [RunLog INFO MsgDryRunMode] else []) in
  match connect mwclient account with
  | (true, Some site, connecting) =>
      let (wanted_categories, fetching) := get_wanted_categories site in
      match wanted_categories with
      | [] =>
          (NothingWanted,
           opening ++ connecting ++ fetching ++ [RunLog INFO MsgNoWanted])
      | _ =>
          let n := Z.of_nat (List.length wanted_categories) in
          let '(total_edits, skipped_categories, events) :=
            run_loop site self 1 n wanted_categories 0 0 in
          (Summary n skipped_categories total_edits,
           opening ++ connecting ++ fetching ++ events
             ++ [RunLog INFO MsgBanner; RunLog INFO MsgSummary;
                 RunLog INFO MsgBanner;
                 RunLog INFO (MsgTotalProcessed n);
                 RunLog INFO (MsgTotalSkipped skipped_categories);
                 RunLog INFO (MsgTotalEdits total_edits);
                 RunLog INFO MsgBanner])
      end
  | (_, _, connecting) =>
      (ConnectFailed, opening ++ connecting ++ [RunLog ERROR MsgExiting])
  end.

(** The events of [process_category] in the events of a run. *)
Fixpoint page_events (evs : list run_event) : list event :=
  match evs with
  | [] => []
  | OnPage ev :: evs' => ev :: page_events evs'
  | _ :: evs' => page_events evs'
  end.

(** The events of a run that reach the wiki beyond the connection. *)
Definition past_connection (ev : run_event) : bool :=
  match ev with
  | CallApi => true
  | CallMembers _ => true
  | OnPage _ => true
  | _ => false
  end.

Definition is_login (ev : run_event) : bool :=
  match ev with
  | CallLogin _ _ => true
  | _ => false
  end.

(** The log line of the [except] branch of [run]. *)
Definition is_category_error (ev : run_event) : bool :=
  match ev with
  | RunLog _ (MsgCategoryError _ _) => true
  | _ => false
  end.

(** The log line at the head of each iteration of [run]. *)
Definition is_announcement (ev : run_event) : bool :=
  match ev with
  | RunLog _ (MsgProcessingCategory _ _) => true
  | _ => false
  end.

(** The events on the members of a category and on their pages. *)
Definition on_members (ev : run_event) : bool :=
  match ev with
  | CallMembers _ => true
  | OnPage _ => true
  | _ => false
  end.

(** ** Sample sites *)

(** A wiki with one wanted category, whose three members are listed under
    the title with the [Category:] prefix. *)
Definition mock_site : Site :=
  {| site_login := fun _ _ => Ok tt;
     site_api_wanted := Ok (Some (Some [Some (py "Category:Test Category")]));
     site_members := fun title =>
       if str_eqb title (py "Category:Test Category")
       then Ok (page_with_cat :: mock_pages 2)
       else Ok [] |}.

(** A wiki without wanted categories. *)
Definition tidy_site : Site :=
  {| site_login := fun _ _ => Ok tt;
     site_api_wanted := Ok (Some (Some []));
     site_members := fun _ => Ok [] |}.

(** A wiki that answers the query but fails to list members. *)
Definition broken_site : Site :=
  {| site_login := fun _ _ => Ok tt;
     site_api_wanted :=
       Ok (Some (Some [Some (py "Category:Foo:Bar"); Some (py "Baz")]));
     site_members := fun _ => Raised (Exception "APIError") |}.

(** A wiki whose answer has an item without a title. *)
Definition untitled_site : Site :=
  {| site_login := fun _ _ => Ok tt;
     site_api_wanted := Ok (Some (Some [Some (py "Category:A"); None]));
     site_members := fun _ => Ok [] |}.

Definition unreachable : Mwclient :=
  fun _ => Raised (Exception "ConnectionError").

(** The account of a run without credentials. *)
Definition anonymous : Account :=
  {| site_url := py "ar.wikipedia.org"; username := []; password := [] |}.

Definition mock_mwclient : Mwclient := fun _ => Ok mock_site.

Definition tidy_mwclient : Mwclient := fun _ => Ok tidy_site.

End Driver.

(** ** The [re] fragment: parser and matcher *)

Module ReFacts.
Import Re ReSpec.

Lemma str_eqb_eq (a b : str) : str_eqb a b = true <-> a = b.
Proof.
  revert b; induction a as [|x a IH]; intros [|y b]; simpl;
    try (split; [discriminate | discriminate]); try tauto.
  rewrite andb_true_iff, N.eqb_eq, IH.
  split; [intros [-> ->]; reflexivity | intros H; inversion H; auto].
Qed.

Lemma mem_In c l : mem c l = true <-> In c l.
Proof.
  unfold mem. rewrite existsb_exists. split.
  - intros [x [Hin Heq]]. apply N.eqb_eq in Heq. now subst.
  - intros Hin. exists c. split; [assumption | apply N.eqb_refl].
Qed.

Lemma feed_all_app st s1 s2 :
  feed_all st (s1 ++ s2) =
  match feed_all st s1 with
  | Some st' => feed_all st' s2
  | None => None
  end.
Proof.
  revert st; induction s1 as [|c s1 IH]; intros st; simpl; [reflexivity|].
  destruct (feed st c); [apply IH | reflexivity].
Qed.


Lemma feed_plain st c :
  md st = Normal -> mem c special_chars = false ->
  feed st c = push st (CHAR (LITERAL c)).
Proof.
  intros Hmd Hc. unfold feed. rewrite Hmd.
  repeat match goal with
  | |- context [N.eqb c ?k] =>
      destruct (N.eqb_spec c k) as [->|_]; [vm_compute in Hc; discriminate|]
  end.
  destruct (mem c (py ".^$+{|")) eqn:E; [|reflexivity].
  apply mem_In in E. simpl in E.
  repeat (destruct E as [<-|E]; [vm_compute in Hc; discriminate|]).
  destruct E.
Qed.

Lemma escaped_special c :
  mem c special_chars = true -> escaped c = Some (CHAR (LITERAL c)).
Proof.
  intros H. apply mem_In in H. simpl in H.
  repeat (destruct H as [<-|H]; [reflexivity|]).
  destruct H.
Qed.

Lemma feed_backslash st c :
  md st = Normal -> mem c special_chars = true ->
  feed_all st [ch "\"; c] = push st (CHAR (LITERAL c)).
Proof.
  intros Hmd Hc. simpl. unfold feed at 1. rewrite Hmd. simpl.
  unfold feed. simpl. rewrite escaped_special by assumption. reflexivity.
Qed.

Lemma feed_escape name : forall st,
  md st = Normal ->
  feed_all st (escape name) =
  Some {| stack := stack st; items := rev (lits name) ++ items st;
          md := Normal |}.
Proof.
  induction name as [|c name IH]; intros st Hmd.
  - destruct st; simpl in *; subst; reflexivity.
  - change (escape (c :: name))
      with ((if mem c special_chars then [ch "\"; c] else [c]) ++ escape name).
    rewrite feed_all_app.
    destruct (mem c special_chars) eqn:E.
    + rewrite feed_backslash by assumption. unfold push. rewrite IH by reflexivity.
      simpl. rewrite <- app_assoc. reflexivity.
    + simpl. rewrite feed_plain by assumption. unfold push. rewrite IH by reflexivity.
      simpl. rewrite <- app_assoc. reflexivity.
Qed.

Lemma parse_shape (before after opening : str) (tl : list pattern) name :
  feed_all start before =
    Some {| stack := []; items := rev (lits opening); md := Normal |} ->
  (forall its,
     feed_all {| stack := []; items := its; md := Normal |} after =
       Some {| stack := []; items := rev tl ++ its; md := Normal |}) ->
  parse (before ++ escape name ++ after) =
    Some (seq_of (lits opening ++ lits name ++ tl)).
Proof.
  intros Hb Ha. unfold parse.
  rewrite feed_all_app, Hb, feed_all_app, feed_escape by reflexivity.
  cbn [stack items]. rewrite Ha.
  rewrite !rev_app_distr, !rev_involutive, <- app_assoc. reflexivity.
Qed.

Lemma parse_check_patterns name :
  map parse (check_patterns (escape name)) =
  map (fun o => Some (link_pattern o name)) openings.
Proof.
  unfold check_patterns, openings, link_pattern. cbn [map].
  change (py "\[\[" ++ tasnif ++ py ":" ++ escape name
             ++ py "\s*(?:\|[^\]]*)?\]\]")
    with ((py "\[\[" ++ tasnif ++ py ":") ++ escape name
             ++ py "\s*(?:\|[^\]]*)?\]\]").
  repeat (f_equal; try (apply parse_shape; [reflexivity | intros; reflexivity])).
Qed.

Lemma parse_remove_patterns name :
  map parse (remove_patterns (escape name)) =
  map (fun o => Some (link_newline_pattern o name)) openings.
Proof.
  unfold remove_patterns, openings, link_newline_pattern. cbn [map].
  change (py "\[\[" ++ tasnif ++ py ":" ++ escape name
             ++ py "\s*(?:\|[^\]]*)?\]\]\n?")
    with ((py "\[\[" ++ tasnif ++ py ":") ++ escape name
             ++ py "\s*(?:\|[^\]]*)?\]\]\n?").
  repeat (f_equal; try (apply parse_shape; [reflexivity | intros; reflexivity])).
Qed.

Section MatcherFacts.
Context {UC : UnicodeCase}.

Lemma repeat_one_sound cs fl : forall s k x,
  repeat_one (cs_match fl cs) s k = Some x ->
  exists r, Matches fl (MAX_REPEAT cs) s r /\ k r = Some x.
Proof.
  induction s as [|c s IH]; intros k x H; simpl in H.
  - exists []. split; [constructor | assumption].
  - destruct (cs_match fl cs c) eqn:Ec.
    + destruct (repeat_one (cs_match fl cs) s k) eqn:Er.
      * injection H as <-. destruct (IH _ _ Er) as [r [Hm Hk]].
        exists r. split; [now apply M_repeat_more | assumption].
      * exists (c :: s). split; [constructor | assumption].
    + exists (c :: s). split; [constructor | assumption].
Qed.

Lemma run_sound fl p : forall s k x,
  run fl p s k = Some x -> exists r, Matches fl p s r /\ k r = Some x.
Proof.
  induction p as [|cs|cs|q IH|q IH|q1 IH1 q2 IH2]; intros s k x H; simpl in H.
  - exists s. split; [constructor | assumption].
  - destruct s as [|c s]; [discriminate|].
    destruct (cs_match fl cs c) eqn:Ec; [|discriminate].
    exists s. split; [now constructor | assumption].
  - now apply repeat_one_sound.
  - destruct (run fl q s k) eqn:Er.
    + injection H as <-. destruct (IH _ _ _ Er) as [r [Hm Hk]].
      exists r. split; [now apply M_maybe_take | assumption].
    + exists s. split; [apply M_maybe_skip | assumption].
  - destruct (IH _ _ _ H) as [r [Hm Hk]].
    exists r. split; [now apply M_sub | assumption].
  - destruct (IH1 _ _ _ H) as [m [Hm Hk]].
    destruct (IH2 _ _ _ Hk) as [r [Hm' Hk']].
    exists r. split; [now apply M_seq with m | assumption].
Qed.

Lemma run_complete fl p s r :
  Matches fl p s r -> forall k, k r <> None -> run fl p s k <> None.
Proof.
  induction 1 as [s|cs c s Hc|cs s|cs c s r Hc Hm IH|q s r Hm IH|q s
                  |q s r Hm IH|q1 q2 s m r Hm1 IH1 Hm2 IH2];
    intros k Hk; simpl.
  - assumption.
  - rewrite Hc. assumption.
  - destruct s as [|c s]; simpl; [assumption|].
    destruct (cs_match fl cs c); [|assumption].
    destruct (repeat_one (cs_match fl cs) s k); [discriminate | assumption].
  - rewrite Hc. specialize (IH k Hk). simpl in IH.
    destruct (repeat_one (cs_match fl cs) s k); [discriminate | contradiction].
  - specialize (IH k Hk). destruct (run fl q s k); [discriminate | contradiction].
  - destruct (run fl q s k); [discriminate | assumption].
  - now apply IH.
  - apply IH1. now apply IH2.
Qed.

Lemma Matches_suffix fl p s r : Matches fl p s r -> exists m, s = m ++ r.
Proof.
  induction 1 as [s|cs c s Hc|cs s|cs c s r Hc Hm IH|q s r Hm IH|q s
                  |q s r Hm IH|q1 q2 s m r Hm1 IH1 Hm2 IH2].
  - now exists [].
  - now exists [c].
  - now exists [].
  - destruct IH as [m ->]. now exists (c :: m).
  - assumption.
  - now exists [].
  - assumption.
  - destruct IH1 as [m1 ->]. destruct IH2 as [m2 ->].
    exists (m1 ++ m2). now rewrite app_assoc.
Qed.

(** [match_here] finds a match exactly when one exists. *)
Lemma match_here_Some fl p s r :
  match_here fl p s = Some r -> Matches fl p s r.
Proof.
  intros H. apply run_sound in H. destruct H as [r' [Hm Hk]].
  now injection Hk as ->.
Qed.

Lemma match_here_None fl p s :
  match_here fl p s = None -> forall r, ~ Matches fl p s r.
Proof.
  intros H r Hm. apply (run_complete Hm (fun rest => Some rest)); [discriminate | exact H].
Qed.

Lemma scan_true fl p : forall s,
  scan fl p s = true <->
  exists before s' r, s = before ++ s' /\ Matches fl p s' r.
Proof.
  induction s as [|c s IH]; simpl.
  - destruct (match_here fl p []) eqn:E.
    + split; [intros _|reflexivity].
      exists [], [], s. split; [reflexivity | now apply match_here_Some].
    + split; [discriminate|].
      intros [before [s' [r [Heq Hm]]]].
      symmetry in Heq. apply app_eq_nil in Heq. destruct Heq as [_ ->].
      now apply (match_here_None E) in Hm.
  - destruct (match_here fl p (c :: s)) eqn:E.
    + split; [intros _|reflexivity].
      exists [], (c :: s), s0. split; [reflexivity | now apply match_here_Some].
    + rewrite IH. split.
      * intros [before [s' [r [-> Hm]]]]. exists (c :: before), s', r. now split.
      * intros [before [s' [r [Heq Hm]]]].
        destruct before as [|b before].
        -- simpl in Heq. subst s'. now apply (match_here_None E) in Hm.
        -- injection Heq as _ ->. now exists before, s', r.
Qed.

End MatcherFacts.

Section LinkFacts.
Context {UC : UnicodeCase}.

Lemma Matches_repeat fl cs s r :
  Matches fl (MAX_REPEAT cs) s r <->
  exists ws, s = ws ++ r /\ Forall (fun c => cs_match fl cs c = true) ws.
Proof.
  split.
  - intros H. remember (MAX_REPEAT cs) as p eqn:Ep.
    induction H as [| | cs' s|cs' c s r Hc Hm IH| | | |]; try discriminate.
    + exists []. split; [reflexivity | constructor].
    + injection Ep as ->. destruct (IH eq_refl) as [ws [-> Hws]].
      exists (c :: ws). split; [reflexivity | now constructor].
  - intros [ws [-> Hws]]. induction Hws as [|c ws Hc Hws IH]; simpl.
    + constructor.
    + now apply M_repeat_more.
Qed.

Lemma Matches_seq_of_app fl a b s r :
  Matches fl (seq_of (a ++ b)) s r <->
  exists m, Matches fl (seq_of a) s m /\ Matches fl (seq_of b) m r.
Proof.
  revert s; induction a as [|p a IH]; intros s; simpl.
  - split.
    + intros H. exists s. split; [constructor | assumption].
    + intros [m [H1 H2]]. inversion H1; subst. assumption.
  - split.
    + intros H. inversion H as [| | | | | | |q1 q2 s0 m0 r0 H1 H2]; subst.
      apply IH in H2. destruct H2 as [m [H2 H3]].
      exists m. split; [now apply M_seq with m0 | assumption].
    + intros [m [H1 H2]].
      inversion H1 as [| | | | | | |q1 q2 s0 m0 r0 H3 H4]; subst.
      apply M_seq with m0; [assumption|]. apply IH. now exists m.
Qed.

Lemma Matches_lits fl w s r :
  Matches fl (seq_of (lits w)) s r <->
  exists t, s = t ++ r /\ Forall2 (fun a b => lit_match fl a b = true) w t.
Proof.
  revert s; induction w as [|a w IH]; intros s; simpl.
  - split.
    + intros H. inversion H; subst. exists []. split; [reflexivity | constructor].
    + intros [t [-> Ht]]. inversion Ht; subst. constructor.
  - split.
    + intros H. inversion H as [| | | | | | |q1 q2 s0 m0 r0 H1 H2]; subst.
      inversion H1 as [|cs c s1 Hc| | | | | |]; subst.
      apply IH in H2. destruct H2 as [t [-> Ht]].
      exists (c :: t). split; [reflexivity | now constructor].
    + intros [t [-> Ht]]. inversion Ht as [|a' b w' t' Hab Hrest]; subst.
      apply M_seq with (t' ++ r); [now constructor|].
      apply IH. now exists t'.
Qed.

Lemma lit_match_uncased p t :
  unicode_iscased p = false ->
  lit_match IGNORECASE p t = true <-> t = p.
Proof.
  intros H. unfold lit_match. rewrite H. apply N.eqb_eq.
Qed.

Lemma lit_bracket c : lit_match IGNORECASE (ch "]") c = true <-> c = ch "]".
Proof. apply lit_match_uncased. reflexivity. Qed.

Lemma lit_pipe c : lit_match IGNORECASE (ch "|") c = true <-> c = ch "|".
Proof. apply lit_match_uncased. reflexivity. Qed.

Lemma Matches_tail s r :
  Matches IGNORECASE (seq_of tail_items) s r <->
  exists ws sk,
    s = ws ++ sk ++ py "]]" ++ r
    /\ Forall (fun c => unicode_isspace c = true) ws /\ sort_key sk.
Proof.
  unfold tail_items. split.
  - intros H.
    inversion H as [| | | | | | |q1 q2 s0 m0 r0 H1 H2]; subst; clear H.
    apply Matches_repeat in H1. destruct H1 as [ws [-> Hws]].
    inversion H2 as [| | | | | | |q1 q2 s0 m1 r0 H3 H4]; subst; clear H2.
    inversion H4 as [| | | | | | |q1 q2 s0 m2 r0 H5 H6]; subst; clear H4.
    inversion H5 as [|cs c s1 Hc1| | | | | |]; subst; clear H5.
    inversion H6 as [| | | | | | |q1 q2 s0 m3 r0 H7 H8]; subst; clear H6.
    inversion H7 as [|cs c' s1 Hc2| | | | | |]; subst; clear H7.
    inversion H8; subst; clear H8.
    apply lit_bracket in Hc1. apply lit_bracket in Hc2.
    subst c c'.
    exists ws.
    inversion H3 as [| | | |q s0 r0 Hq|q s0| |]; subst; clear H3.
    + inversion Hq as [| | | | | |q s0 r0 Hq'|]; subst; clear Hq.
      inversion Hq' as [| | | | | | |q1 q2 s0 m4 r0 H9 H10]; subst; clear Hq'.
      inversion H9 as [|cs c s1 Hc3| | | | | |]; subst; clear H9.
      apply lit_pipe in Hc3. subst c.
      inversion H10 as [| | | | | | |q1 q2 s0 m5 r0 H11 H12]; subst; clear H10.
      inversion H12; subst; clear H12.
      apply Matches_repeat in H11. destruct H11 as [body [-> Hbody]].
      exists (ch "|" :: body). split; [|split; [assumption|]].
      * reflexivity.
      * right. exists body. split; [reflexivity|].
        eapply Forall_impl; [|exact Hbody]. intros c Hc Heq. subst c.
        discriminate Hc.
    + exists []. split; [reflexivity | split; [assumption | now left]].
  - intros [ws [sk [-> [Hws Hsk]]]].
    apply M_seq with (sk ++ py "]]" ++ r).
    { apply Matches_repeat. now exists ws. }
    apply M_seq with (py "]]" ++ r).
    { destruct Hsk as [->|[body [-> Hbody]]].
      - apply M_maybe_skip.
      - apply M_maybe_take, M_sub. simpl.
        apply M_seq with (body ++ py "]]" ++ r).
        + constructor. reflexivity.
        + apply M_seq with (py "]]" ++ r); [|constructor].
          apply Matches_repeat. exists body. split; [reflexivity|].
          eapply Forall_impl; [|exact Hbody]. intros c Hc.
          change (negb (lit_match IGNORECASE (ch "]") c) = true).
          destruct (lit_match IGNORECASE (ch "]") c) eqn:E; [|reflexivity].
          apply lit_bracket in E. contradiction. }
    apply M_seq with (ch "]" :: r); [constructor; reflexivity|].
    apply M_seq with r; [constructor; reflexivity | constructor].
Qed.

Lemma Matches_link opening name s r :
  Matches IGNORECASE (link_pattern opening name) s r <->
  exists span, s = span ++ r /\ is_link opening name span.
Proof.
  unfold link_pattern, is_link, same_text.
  rewrite Matches_seq_of_app. split.
  - intros [m [Ho Hrest]].
    apply Matches_seq_of_app in Hrest. destruct Hrest as [m' [Hn Ht]].
    apply Matches_lits in Ho. destruct Ho as [o [-> Ho]].
    apply Matches_lits in Hn. destruct Hn as [n [-> Hn]].
    apply Matches_tail in Ht. destruct Ht as [ws [sk [-> [Hws Hsk]]]].
    exists (o ++ n ++ ws ++ sk ++ py "]]"). split.
    + now rewrite <- !app_assoc.
    + now exists o, n, ws, sk.
  - intros [span [-> [o [n [ws [sk [-> [Ho [Hn [Hws Hsk]]]]]]]]]].
    exists (n ++ ws ++ sk ++ py "]]" ++ r). split.
    + apply Matches_lits. exists o. split; [now rewrite <- !app_assoc | assumption].
    + apply Matches_seq_of_app. exists (ws ++ sk ++ py "]]" ++ r). split.
      * apply Matches_lits. now exists n.
      * apply Matches_tail. now exists ws, sk.
Qed.

End LinkFacts.

Section ReplaceFacts.
Context {UC : UnicodeCase}.

Lemma repeat_one_ext test k k' :
  (forall x, k x = k' x) ->
  forall s, repeat_one test s k = repeat_one test s k'.
Proof.
  intros Hk. induction s as [|c s IH]; simpl; [apply Hk|].
  rewrite IH, Hk. reflexivity.
Qed.

Lemma run_ext fl p : forall s k k',
  (forall x, k x = k' x) -> run fl p s k = run fl p s k'.
Proof.
  induction p as [|cs|cs|q IH|q IH|q1 IH1 q2 IH2]; intros s k k' Hk; simpl.
  - apply Hk.
  - destruct s; [reflexivity|]. now rewrite Hk.
  - now apply repeat_one_ext.
  - rewrite (IH s k k' Hk), Hk. reflexivity.
  - now apply IH.
  - apply IH1. intros x. now apply IH2.
Qed.

Lemma run_seq_of_app fl a b : forall s k,
  run fl (seq_of (a ++ b)) s k =
  run fl (seq_of a) s (fun s' => run fl (seq_of b) s' k).
Proof.
  induction a as [|p a IH]; intros s k; simpl; [reflexivity|].
  apply run_ext. intros x. apply IH.
Qed.

Lemma run_newline_item s :
  run IGNORECASE (seq_of [newline_item]) s (fun rest => Some rest) =
  Some (strip_newline s).
Proof.
  destruct s as [|c s]; [reflexivity|].
  simpl. change (lit_match IGNORECASE 10%N c) with (N.eqb c 10%N).
  destruct (N.eqb c 10%N); reflexivity.
Qed.

(** Matching a removal pattern is matching the detection pattern and then
    taking the newline that follows, if there is one. *)
Lemma match_here_newline opening name s :
  match_here IGNORECASE (link_newline_pattern opening name) s =
  run IGNORECASE (link_pattern opening name) s
      (fun rest => Some (strip_newline rest)).
Proof.
  unfold match_here, link_newline_pattern, link_pattern.
  rewrite !app_assoc. rewrite run_seq_of_app.
  apply run_ext. intros x. apply run_newline_item.
Qed.

Lemma match_here_newline_Some opening name s x :
  match_here IGNORECASE (link_newline_pattern opening name) s = Some x ->
  exists span rest,
    s = span ++ rest /\ is_link opening name span /\ x = strip_newline rest.
Proof.
  rewrite match_here_newline. intros H.
  apply run_sound in H. destruct H as [rest [Hm Hx]].
  apply Matches_link in Hm. destruct Hm as [span [-> Hl]].
  injection Hx as <-. now exists span, rest.
Qed.

Lemma match_here_newline_None opening name s :
  match_here IGNORECASE (link_newline_pattern opening name) s = None <->
  ~ link_starts opening name s.
Proof.
  rewrite match_here_newline. split.
  - intros H [span [rest [-> Hl]]].
    assert (Hm : Matches IGNORECASE (link_pattern opening name) (span ++ rest) rest)
      by (apply Matches_link; now exists span).
    apply (run_complete Hm (fun rest => Some (strip_newline rest)));
      [discriminate | exact H].
  - intros Hn.
    destruct (run IGNORECASE (link_pattern opening name) s
                (fun rest => Some (strip_newline rest))) eqn:E; [|reflexivity].
    exfalso. apply Hn. apply run_sound in E. destruct E as [rest [Hm _]].
    apply Matches_link in Hm. destruct Hm as [span [-> Hl]]. now exists span, rest.
Qed.

Lemma match_here_link_None opening name s :
  match_here IGNORECASE (link_pattern opening name) s = None <->
  ~ link_starts opening name s.
Proof.
  split.
  - intros H [span [rest [-> Hl]]].
    apply (match_here_None H (r := rest)). apply Matches_link. now exists span.
  - intros Hn.
    destruct (match_here IGNORECASE (link_pattern opening name) s) eqn:E;
      [|reflexivity].
    exfalso. apply Hn. apply match_here_Some, Matches_link in E.
    destruct E as [span [-> Hl]]. now exists span, s0.
Qed.

Lemma replace_nil fl p : replace fl p [] [] 0 = [].
Proof. simpl. destruct (match_here fl p []); reflexivity. Qed.

Lemma replace_skip fl p m rest :
  m <> [] ->
  replace fl p [] (m ++ rest) (List.length m) = replace fl p [] rest 0.
Proof.
  induction m as [|c m IH]; intros Hm; [contradiction|].
  destruct m as [|c' m]; [reflexivity|].
  change (replace fl p [] ((c' :: m) ++ rest) (List.length (c' :: m)) =
          replace fl p [] rest 0).
  apply IH. discriminate.
Qed.

Lemma replace_keep fl p c s :
  match_here fl p (c :: s) = None ->
  replace fl p [] (c :: s) 0 = c :: replace fl p [] s 0.
Proof. intros H. simpl. rewrite H. reflexivity. Qed.

Lemma replace_drop fl p m x :
  m <> [] ->
  match_here fl p (m ++ x) = Some x ->
  replace fl p [] (m ++ x) 0 = replace fl p [] x 0.
Proof.
  intros Hm H. destruct m as [|c m]; [contradiction|].
  assert (Hlen : (List.length ((c :: m) ++ x) - List.length x)%nat
                 = S (List.length m))
    by (cbn [List.length app]; rewrite length_app; lia).
  change (replace fl p [] ((c :: m) ++ x) 0) with
    (match match_here fl p ((c :: m) ++ x) with
     | Some rest =>
         match (List.length ((c :: m) ++ x) - List.length rest)%nat with
         | O => [] ++ c :: replace fl p [] (m ++ x) 0
         | S n => [] ++ replace fl p [] (m ++ x) n
         end
     | None => c :: replace fl p [] (m ++ x) 0
     end).
  rewrite H, Hlen. cbn [app].
  destruct m as [|c' m]; [reflexivity|].
  apply (replace_skip fl p (m := c' :: m)). discriminate.
Qed.

Lemma strip_newline_split rest :
  exists nl, rest = nl ++ strip_newline rest /\ (nl = [] \/ nl = [10%N]).
Proof.
  destruct rest as [|c rest]; [exists []; auto|].
  simpl. destruct (N.eqb_spec c 10%N) as [->|_].
  - exists [10%N]. auto.
  - exists []. auto.
Qed.

Lemma is_link_length opening name span :
  is_link opening name span -> (2 <= List.length span)%nat.
Proof.
  intros [o [n [ws [sk [-> _]]]]]. rewrite !length_app. simpl. lia.
Qed.

(** One call of [re.sub] with a removal pattern is one pass. *)
Lemma replace_pass opening name : forall s,
  pass opening name s
    (replace IGNORECASE (link_newline_pattern opening name) [] s 0).
Proof.
  intros s. remember (List.length s) as n eqn:Hn.
  revert s Hn. induction n as [n IH] using lt_wf_ind. intros s Hn.
  destruct s as [|c s].
  - rewrite replace_nil. constructor.
  - destruct (match_here IGNORECASE (link_newline_pattern opening name) (c :: s))
      as [x|] eqn:E.
    + destruct (match_here_newline_Some _ _ _ E) as [span [rest [Hs [Hl Hx]]]].
      destruct (strip_newline_split rest) as [nl [Hrest Hnl]].
      pose proof (is_link_length Hl) as Hlen.
      assert (Hsplit : c :: s = (span ++ nl) ++ x).
      { rewrite Hs, Hx, <- app_assoc, <- Hrest. reflexivity. }
      rewrite Hsplit, replace_drop.
      * rewrite <- app_assoc, Hx, <- Hrest. apply pass_drop; [assumption|].
        apply (IH (List.length (strip_newline rest))); [|reflexivity].
        subst n. rewrite Hs, length_app.
        apply (f_equal (@List.length char)) in Hrest.
        rewrite length_app in Hrest. lia.
      * destruct span; [simpl in Hlen; lia | discriminate].
      * rewrite <- Hsplit. exact E.
    + rewrite replace_keep by assumption. apply pass_keep.
      * now apply match_here_newline_None.
      * apply (IH (List.length s)); [subst n; simpl; lia | reflexivity].
Qed.

End ReplaceFacts.


End ReFacts.

(** ** The text functions *)

Import Re ReSpec ReFacts.

Section TextFacts.
Context {UC : UnicodeCase}.

Lemma search_any_parsed text : forall sources ps,
  map parse sources = map Some ps ->
  search_any sources text = Ok (existsb (fun p => scan IGNORECASE p text) ps).
Proof.
  induction sources as [|src sources IH]; intros [|p ps] H; try discriminate.
  - reflexivity.
  - simpl in H. injection H as Hp Hrest. simpl. unfold search. rewrite Hp.
    destruct (scan IGNORECASE p text); [reflexivity | now apply IH].
Qed.

Lemma sub_each_parsed : forall sources ps text,
  map parse sources = map Some ps ->
  sub_each sources text =
  Ok (fold_left (fun t p => replace IGNORECASE p [] t 0) ps text).
Proof.
  induction sources as [|src sources IH]; intros [|p ps] text H; try discriminate.
  - reflexivity.
  - simpl in H. injection H as Hp Hrest. simpl. unfold sub. rewrite Hp.
    now apply IH.
Qed.

Lemma check_category_in_text_scan text name :
  check_category_in_text text name =
  Ok (existsb (fun o => scan IGNORECASE (link_pattern o name) text) openings).
Proof.
  unfold check_category_in_text.
  rewrite (search_any_parsed text (check_patterns (escape name))
             (map (fun o => link_pattern o name) openings)).
  - reflexivity.
  - rewrite parse_check_patterns, map_map. reflexivity.
Qed.

Lemma scan_link opening name text :
  scan IGNORECASE (link_pattern opening name) text = true <->
  exists before s, text = before ++ s /\ link_starts opening name s.
Proof.
  rewrite scan_true. split.
  - intros [before [s [r [-> Hm]]]]. exists before, s. split; [reflexivity|].
    apply Matches_link in Hm. destruct Hm as [span [-> Hl]]. now exists span, r.
  - intros [before [s [-> [span [rest [-> Hl]]]]]].
    exists before, (span ++ rest), rest. split; [reflexivity|].
    apply Matches_link. now exists span.
Qed.

Lemma check_true_iff text name :
  check_category_in_text text name = Ok true <-> occurs name text.
Proof.
  rewrite check_category_in_text_scan. unfold occurs. split.
  - intros H.
    assert (H' : existsb (fun o => scan IGNORECASE (link_pattern o name) text)
                   openings = true) by congruence.
    apply existsb_exists in H'. destruct H' as [o [Hin Hs]]. apply scan_link in Hs.
    destruct Hs as [before [s [-> Hl]]]. now exists o, before, s.
  - intros [o [before [s [Hin [-> Hl]]]]]. f_equal.
    apply existsb_exists. exists o. split; [assumption|].
    apply scan_link. now exists before, s.
Qed.

Lemma check_false_iff text name :
  check_category_in_text text name = Ok false <-> ~ occurs name text.
Proof.
  rewrite <- check_true_iff, check_category_in_text_scan.
  destruct (existsb _ openings); split; congruence.
Qed.

Lemma remove_category_from_text_replace text name :
  remove_category_from_text text name =
  Ok (fold_left
        (fun t o => replace IGNORECASE (link_newline_pattern o name) [] t 0)
        openings text).
Proof.
  unfold remove_category_from_text.
  rewrite (sub_each_parsed (remove_patterns (escape name))
             (map (fun o => link_newline_pattern o name) openings)).
  - reflexivity.
  - rewrite parse_remove_patterns, map_map. reflexivity.
Qed.

Lemma fold_passes name : forall os text,
  passes os name text
    (fold_left
       (fun t o => replace IGNORECASE (link_newline_pattern o name) [] t 0)
       os text).
Proof.
  induction os as [|o os IH]; intros text; simpl; [reflexivity|].
  eexists. split; [apply replace_pass | apply IH].
Qed.

Lemma remove_passes text name :
  exists out,
    remove_category_from_text text name = Ok out
    /\ passes openings name text out.
Proof.
  rewrite remove_category_from_text_replace. eexists. split; [reflexivity|].
  apply fold_passes.
Qed.

(** *** What a pass can and cannot do *)

Lemma strip_newline_length s :
  (List.length (strip_newline s) <= List.length s)%nat.
Proof.
  destruct s as [|c s]; simpl; [lia|]. destruct (N.eqb c 10); simpl; lia.
Qed.

Lemma pass_length opening name s out :
  pass opening name s out -> (List.length out <= List.length s)%nat.
Proof.
  induction 1 as [|c s out Hn Hp IH|span rest out Hl Hp IH]; simpl; [lia|lia|].
  rewrite length_app. pose proof (strip_newline_length rest). lia.
Qed.

Lemma pass_no_link opening name s out :
  pass opening name s out ->
  (forall before s', s = before ++ s' -> ~ link_starts opening name s') ->
  out = s.
Proof.
  induction 1 as [|c s out Hn Hp IH|span rest out Hl Hp IH]; intros Hno.
  - reflexivity.
  - f_equal. apply IH. intros before s' -> . apply (Hno (c :: before)). reflexivity.
  - exfalso. apply (Hno [] (span ++ rest) eq_refl). now exists span, rest.
Qed.

Lemma pass_link_shorter opening name s out :
  pass opening name s out ->
  (exists before s', s = before ++ s' /\ link_starts opening name s') ->
  (List.length out < List.length s)%nat.
Proof.
  induction 1 as [|c s out Hn Hp IH|span rest out Hl Hp IH];
    intros [before [s' [Heq Hs']]].
  - symmetry in Heq. apply app_eq_nil in Heq. destruct Heq as [_ ->].
    destruct Hs' as [span [rest [Heq Hl]]].
    symmetry in Heq. apply app_eq_nil in Heq. destruct Heq as [-> _].
    apply is_link_length in Hl. simpl in Hl. lia.
  - destruct before as [|b before].
    + simpl in Heq. subst s'. contradiction.
    + injection Heq as _ ->. simpl. apply -> Nat.succ_lt_mono.
      apply IH. now exists before, s'.
  - apply pass_length in Hp. apply is_link_length in Hl.
    pose proof (strip_newline_length rest). rewrite length_app. lia.
Qed.

Lemma passes_length name : forall os s out,
  passes os name s out -> (List.length out <= List.length s)%nat.
Proof.
  induction os as [|o os IH]; intros s out H; simpl in H.
  - subst. lia.
  - destruct H as [t [Hp Hps]]. apply pass_length in Hp. apply IH in Hps. lia.
Qed.

Lemma passes_no_link name : forall os s out,
  passes os name s out ->
  (forall o before s', In o os -> s = before ++ s' -> ~ link_starts o name s') ->
  out = s.
Proof.
  induction os as [|o os IH]; intros s out H Hno; simpl in H; [assumption|].
  destruct H as [t [Hp Hps]].
  assert (t = s) as ->.
  { apply (pass_no_link Hp). intros before s'. apply Hno. now left. }
  apply (IH _ _ Hps). intros o' before s' Hin. apply Hno. now right.
Qed.

Lemma passes_link_shorter name : forall os s out,
  passes os name s out ->
  (exists o before s', In o os /\ s = before ++ s' /\ link_starts o name s') ->
  (List.length out < List.length s)%nat.
Proof.
  induction os as [|o os IH]; intros s out H [o' [before [s' [Hin [Heq Hl]]]]].
  - destruct Hin.
  - simpl in H. destruct H as [t [Hp Hps]].
    assert (Hdec : (exists b s2, s = b ++ s2 /\ link_starts o name s2) \/
                   (forall b s2, s = b ++ s2 -> ~ link_starts o name s2)).
    { destruct (scan IGNORECASE (link_pattern o name) s) eqn:E.
      - left. now apply scan_link.
      - right. intros b s2 Hs Hl2.
        assert (scan IGNORECASE (link_pattern o name) s = true)
          by (apply scan_link; now exists b, s2).
        congruence. }
    destruct Hdec as [Hyes|Hno].
    + pose proof (pass_link_shorter Hp Hyes). apply passes_length in Hps. lia.
    + assert (t = s) as -> by (apply (pass_no_link Hp Hno)).
      destruct Hin as [->|Hin].
      * exfalso. apply (Hno before s' Heq Hl).
      * apply (IH _ _ Hps). now exists o', before, s'.
Qed.

Lemma remove_no_occurrence text name :
  ~ occurs name text -> remove_category_from_text text name = Ok text.
Proof.
  intros Hno. destruct (remove_passes text name) as [out [Hr Hp]].
  rewrite Hr. f_equal. eapply passes_no_link; [exact Hp|].
  intros o before s' Hin Heq Hl. apply Hno. now exists o, before, s'.
Qed.

Lemma remove_occurrence_shorter text name out :
  occurs name text ->
  remove_category_from_text text name = Ok out ->
  (List.length out < List.length text)%nat.
Proof.
  intros Hocc Hr. destruct (remove_passes text name) as [out' [Hr' Hp]].
  rewrite Hr in Hr'. injection Hr' as <-.
  eapply passes_link_shorter; [exact Hp | exact Hocc].
Qed.

End TextFacts.

Section MoreTextFacts.
Context {UC : UnicodeCase}.

Lemma lit_match_refl p : lit_match IGNORECASE p p = true.
Proof.
  unfold lit_match. destruct (unicode_iscased p).
  - now rewrite N.eqb_refl.
  - apply N.eqb_refl.
Qed.

Lemma same_text_refl s : same_text s s.
Proof. induction s; constructor; [apply lit_match_refl | assumption]. Qed.

Lemma lit_match_cased p t :
  unicode_iscased p = true ->
  lit_match IGNORECASE p t = true <->
  unicode_tolower t = unicode_tolower p
  \/ In (unicode_tolower t) (ignorecase_fixes (unicode_tolower p)).
Proof.
  intros H. unfold lit_match. rewrite H, orb_true_iff, N.eqb_eq, mem_In.
  reflexivity.
Qed.

Lemma check_finds_itself opening before after name :
  In opening openings ->
  check_category_in_text (before ++ opening ++ name ++ py "]]" ++ after) name
  = Ok true.
Proof.
  intros Hin. apply check_true_iff.
  exists opening, before, (opening ++ name ++ py "]]" ++ after).
  split; [assumption|]. split; [reflexivity|].
  exists (opening ++ name ++ py "]]"), after. split.
  - now rewrite <- !app_assoc.
  - exists opening, name, [], []. split; [reflexivity|].
    split; [apply same_text_refl|]. split; [apply same_text_refl|].
    split; [constructor | now left].
Qed.

(** The shipped methods never find the category and leave the text as it
    is: the warning branch of the loop needs other methods. *)
Lemma found_category_is_removed text name :
  check_category_in_text text name = Ok true ->
  remove_category_from_text text name <> Ok text.
Proof.
  intros Hc Hr. apply check_true_iff in Hc.
  pose proof (remove_occurrence_shorter Hc Hr). lia.
Qed.

Lemma scan_same_starts fl p q :
  (forall s, match_here fl p s = None <-> match_here fl q s = None) ->
  forall s, scan fl p s = scan fl q s.
Proof.
  intros H. induction s as [|c s IH]; simpl.
  - destruct (match_here fl p []) eqn:Ep, (match_here fl q []) eqn:Eq;
      try reflexivity.
    + apply H in Eq. congruence.
    + apply H in Ep. congruence.
  - destruct (match_here fl p (c :: s)) eqn:Ep,
             (match_here fl q (c :: s)) eqn:Eq; try reflexivity.
    + apply H in Eq. congruence.
    + apply H in Ep. congruence.
    + exact IH.
Qed.

Lemma search_parsed_agree text : forall cs rs ps qs,
  map parse cs = map Some ps ->
  map parse rs = map Some qs ->
  Forall2 (fun p q => forall s, match_here IGNORECASE p s = None
                                <-> match_here IGNORECASE q s = None) ps qs ->
  map (fun source => search source text IGNORECASE) cs
  = map (fun source => search source text IGNORECASE) rs.
Proof.
  induction cs as [|c cs IH]; intros rs ps qs Hc Hr Hpq.
  - destruct ps; [|discriminate]. inversion Hpq; subst.
    destruct rs; [reflexivity | discriminate].
  - destruct ps as [|p ps]; [discriminate|].
    inversion Hpq as [|p' q ps' qs' Hsame Hrest]; subst.
    destruct rs as [|r rs]; [discriminate|].
    simpl in Hc, Hr. injection Hc as Hc Hcs. injection Hr as Hr Hrs.
    simpl. unfold search at 1 3. rewrite Hc, Hr.
    f_equal; [f_equal; now apply scan_same_starts | now apply IH with ps qs'].
Qed.

(** Searching with a detection pattern and with the removal pattern of the
    same opening give the same answer. *)
Lemma search_patterns_agree name text :
  map (fun source => search source text IGNORECASE)
      (check_patterns (escape name))
  = map (fun source => search source text IGNORECASE)
        (remove_patterns (escape name)).
Proof.
  apply search_parsed_agree
    with (ps := map (fun o => link_pattern o name) openings)
         (qs := map (fun o => link_newline_pattern o name) openings).
  - rewrite parse_check_patterns, map_map. reflexivity.
  - rewrite parse_remove_patterns, map_map. reflexivity.
  - induction openings as [|o os IH]; simpl; constructor; [|exact IH].
    intros s. rewrite match_here_link_None, match_here_newline_None.
    reflexivity.
Qed.

End MoreTextFacts.

(** ** The loop of [process_category] *)

Section LoopFacts.
Variable self : RedCategoryRemover.
Variable category_name : str.
Local Open Scope Z_scope.


Lemma str_eqb_neq a b : a <> b -> str_eqb a b = false.
Proof.
  intros H. destruct (str_eqb a b) eqn:E; [|reflexivity].
  apply ReFacts.str_eqb_eq in E. contradiction.
Qed.

Ltac run_body :=
  unfold loop_body, try_except, try_block, call_text, call_save, logger,
    emit, of_result, bind, ret, continue_, return_, get_edits_made,
    get_not_found_count, set_edits_made, set_not_found_count, with_events,
    checking; simpl.

Lemma body_non_main i n page f :
  page_namespace page <> 0 ->
  loop_body self category_name i n page f =
  (Continue, with_events f [Log DEBUG (MsgSkippingNonArticle (page_name page))]).
Proof.
  intros H. apply Z.eqb_neq in H. run_body. rewrite H. reflexivity.
Qed.

Lemma body_raises i n page f e evs :
  raises self category_name i n page e evs ->
  loop_body self category_name i n page f =
  (Continue, with_events f (evs ++ [Log ERROR (MsgError (page_name page) e)])).
Proof.
  intros H. destruct H as [e Hns Ht|text e Hns Ht Hc|text e Hns Ht Hc Hr
                           |text new_text e [Hns [Ht [Hc [Hr Hne]]]] Hd Hs];
    run_body; rewrite Hns; simpl; rewrite Ht; simpl.
  - rewrite <- !app_assoc. reflexivity.
  - rewrite Hc. simpl. rewrite <- !app_assoc. reflexivity.
  - rewrite Hc. simpl. rewrite Hr. simpl. rewrite <- !app_assoc. reflexivity.
  - rewrite Hc. simpl. rewrite Hr. simpl.
    rewrite (str_eqb_neq Hne), Hd. simpl.
    rewrite Hs. simpl. rewrite <- !app_assoc. reflexivity.
Qed.

Lemma body_miss i n page f :
  is_miss self category_name page ->
  not_found_count f + 1 < max_check self ->
  loop_body self category_name i n page f =
  (Next tt,
   {| edits_made := edits_made f;
      not_found_count := not_found_count f + 1;
      trace := trace f ++ checking i n page ++ [Log INFO MsgNotFoundInText] |}).
Proof.
  intros [Hns [text [Ht Hc]]] Hlt. run_body.
  rewrite Hns; simpl; rewrite Ht; simpl; rewrite Hc; simpl.
  destruct (Z.geb_spec (not_found_count f + 1) (max_check self)); [lia|].
  rewrite <- !app_assoc. reflexivity.
Qed.

Lemma body_cutover i n page f :
  is_miss self category_name page ->
  not_found_count f + 1 >= max_check self ->
  loop_body self category_name i n page f =
  (Return (edits_made f, true),
   {| edits_made := edits_made f;
      not_found_count := not_found_count f + 1;
      trace := trace f ++ checking i n page
                 ++ [Log INFO MsgNotFoundInText;
                     Log INFO (MsgNotFoundIn (max_check self));
                     Log INFO MsgLikelyTemplate] |}).
Proof.
  intros [Hns [text [Ht Hc]]] Hge. run_body.
  rewrite Hns; simpl; rewrite Ht; simpl; rewrite Hc; simpl.
  destruct (Z.geb_spec (not_found_count f + 1) (max_check self)); [|lia].
  simpl. rewrite <- !app_assoc. reflexivity.
Qed.

Lemma body_unchanged i n page f text :
  is_unchanged self category_name page text ->
  loop_body self category_name i n page f =
  (Next tt,
   with_events f (checking i n page
                  ++ [Log INFO MsgFoundInText; Log WARNING MsgUnchanged])).
Proof.
  intros [Hns [Ht [Hc Hr]]]. run_body.
  rewrite Hns; simpl; rewrite Ht; simpl; rewrite Hc; simpl; rewrite Hr; simpl.
  rewrite (proj2 (ReFacts.str_eqb_eq text text) eq_refl). simpl.
  rewrite <- !app_assoc. reflexivity.
Qed.

Lemma body_hit_dry_run i n page f text new_text :
  is_hit self category_name page text new_text ->
  dry_run self = true ->
  loop_body self category_name i n page f =
  (Next tt,
   {| edits_made := edits_made f + 1;
      not_found_count := 0;
      trace := trace f ++ checking i n page
                 ++ [Log INFO MsgFoundInText;
                     Log INFO (MsgDryRun (page_name page))] |}).
Proof.
  intros [Hns [Ht [Hc [Hr Hne]]]] Hd. run_body.
  rewrite Hns; simpl; rewrite Ht; simpl; rewrite Hc; simpl; rewrite Hr; simpl.
  rewrite (str_eqb_neq Hne), Hd. simpl.
  rewrite <- !app_assoc. reflexivity.
Qed.

Lemma body_hit_saved i n page f text new_text :
  is_hit self category_name page text new_text ->
  dry_run self = false ->
  page_save page new_text (edit_summary category_name) true = Ok tt ->
  loop_body self category_name i n page f =
  (Next tt,
   {| edits_made := edits_made f + 1;
      not_found_count := 0;
      trace := trace f ++ checking i n page
                 ++ [Log INFO MsgFoundInText;
                     CallSave (page_name page) new_text
                       (edit_summary category_name) true;
                     Log INFO MsgRemoved] |}).
Proof.
  intros [Hns [Ht [Hc [Hr Hne]]]] Hd Hs. run_body.
  rewrite Hns; simpl; rewrite Ht; simpl; rewrite Hc; simpl; rewrite Hr; simpl.
  rewrite (str_eqb_neq Hne), Hd. simpl. rewrite Hs. simpl.
  rewrite <- !app_assoc. reflexivity.
Qed.

Lemma body_of_iteration i n page f r :
  iteration self category_name i n page f r ->
  loop_body self category_name i n page f = r.
Proof.
  intros H. destruct H.
  - now apply body_non_main.
  - now apply body_raises.
  - now apply body_miss.
  - now apply body_cutover.
  - eapply body_unchanged; eassumption.
  - eapply body_hit_dry_run; eassumption.
  - eapply body_hit_saved; eassumption.
Qed.

(** Every iteration is one of the seven cases. *)
Lemma body_iteration i n page f :
  iteration self category_name i n page f
    (loop_body self category_name i n page f).
Proof.
  assert (Hcase : exists r, iteration self category_name i n page f r).
  { destruct (Z.eq_dec (page_namespace page) 0) as [Hns|Hns];
      [|eexists; now apply it_non_main].
    destruct (page_text page) as [text|e] eqn:Ht;
      [|eexists; eapply it_raises, raises_text; eassumption].
    destruct (method_check self text category_name) as [[|]|e] eqn:Hc.
    - destruct (method_remove self text category_name) as [new_text|e] eqn:Hr;
        [|eexists; eapply it_raises, raises_remove; eassumption].
      destruct (str_eqb new_text text) eqn:Heq.
      + apply ReFacts.str_eqb_eq in Heq. subst new_text.
        eexists. apply it_unchanged with text. now repeat split.
      + assert (Hhit : is_hit self category_name page text new_text).
        { repeat split; try assumption. intros ->.
          rewrite (proj2 (ReFacts.str_eqb_eq text text) eq_refl) in Heq. discriminate. }
        destruct (dry_run self) eqn:Hd;
          [eexists; eapply it_hit_dry_run; eassumption|].
        destruct (page_save page new_text (edit_summary category_name) true)
          as [[]|e] eqn:Hs.
        * eexists. eapply it_hit_saved; eassumption.
        * eexists. eapply it_raises, raises_save; eassumption.
    - assert (Hm : is_miss self category_name page)
        by (split; [assumption | now exists text]).
      destruct (Z_lt_ge_dec (not_found_count f + 1) (max_check self)).
      + eexists. now apply it_miss.
      + eexists. now apply it_cutover.
    - eexists. eapply it_raises, raises_check; eassumption. }
  destruct Hcase as [r Hr]. rewrite (body_of_iteration Hr). exact Hr.
Qed.


(** *** The loop *)

Lemma for_members_step i n page more f :
  for_members self category_name i n (page :: more) f =
  match loop_body self category_name i n page f with
  | (Next _, f') => for_members self category_name (i + 1) n more f'
  | (Continue, f') => for_members self category_name (i + 1) n more f'
  | (Return v, f') => (Return v, f')
  | (Raise e, f') => (Raise e, f')
  end.
Proof. reflexivity. Qed.

Lemma for_members_return_app rest : forall l i n f v f',
  for_members self category_name i n l f = (Return v, f') ->
  for_members self category_name i n (l ++ rest) f = (Return v, f').
Proof.
  induction l as [|page l IH]; intros i n f v f' H.
  - discriminate.
  - simpl app. rewrite for_members_step in *.
    destruct (loop_body self category_name i n page f) as [[[]| |v'|e] f1];
      try (now apply IH); assumption.
Qed.

Lemma process_category_body_loop members :
  members <> [] ->
  process_category_body self category_name members (entry) =
  let n := Z.of_nat (List.length members) in
  match for_members self category_name 1 n members
          (loop_entry category_name n) with
  | (Next _, f) => (Return (edits_made f, false), f)
  | (Continue, f) => (Continue, f)
  | (Return v, f) => (Return v, f)
  | (Raise e, f) => (Raise e, f)
  end.
Proof.
  intros Hne. destruct members as [|page more]; [contradiction|].
  unfold process_category_body, bind, logger, emit, set_edits_made,
    set_not_found_count, get_edits_made, return_, loop_entry, entry.
  cbn [trace edits_made not_found_count app].
  destruct (for_members _ _ _ _ _ _) as [[[]| |v|e] f]; reflexivity.
Qed.

(** The loop never lets an exception out: the method always returns. *)
Lemma iteration_signal i n page f r f' :
  iteration self category_name i n page f (r, f') ->
  r = Next tt \/ r = Continue \/ exists v, r = Return v.
Proof.
  intros H. inversion H; subst; auto.
  right. right. now eexists.
Qed.

Lemma for_members_signal : forall members i n f r f',
  for_members self category_name i n members f = (r, f') ->
  r = Next tt \/ exists v, r = Return v.
Proof.
  induction members as [|page more IH]; intros i n f r f' H.
  - injection H as <- <-. now left.
  - rewrite for_members_step in H.
    pose proof (body_iteration i n page f) as Hit.
    destruct (loop_body self category_name i n page f) as [[[]| |v|e] f1].
    + now apply IH in H.
    + now apply IH in H.
    + injection H as <- <-. right. now exists v.
    + apply iteration_signal in Hit.
      destruct Hit as [Hit|[Hit|[v Hit]]]; discriminate.
Qed.

Lemma process_category_returns members :
  exists v, fst (process_category self category_name members) = Ok v.
Proof.
  destruct members as [|page more].
  - now exists (0, false).
  - unfold process_category.
    rewrite process_category_body_loop by discriminate. cbv zeta.
    destruct (for_members _ _ _ _ _ _) as [r f] eqn:E.
    apply for_members_signal in E. destruct E as [->|[v ->]].
    + now eexists.
    + now exists v.
Qed.

(** *** Invariant of the loop *)

Lemma edit_count_app a b : edit_count (a ++ b) = edit_count a + edit_count b.
Proof.
  unfold edit_count. rewrite filter_app, length_app. lia.
Qed.

Lemma raises_no_edit i n page e evs :
  raises self category_name i n page e evs -> edit_count evs = 0.
Proof. intros H. destruct H; reflexivity. Qed.

Lemma iteration_steady i n page f r f' :
  iteration self category_name i n page f (r, f') ->
  steady self f ->
  match r with
  | Next _ => steady self f'
  | Continue => steady self f'
  | Return v => at_cutover self v f'
  | Raise _ => False
  end.
Proof.
  intros H [Hnf He]. unfold steady, at_cutover.
  inversion H; subst; cbn [edits_made not_found_count trace with_events];
    rewrite ?edit_count_app, <- ?He.
  - split; [assumption | cbn; lia].
  - erewrite raises_no_edit by eassumption. split; [assumption | cbn; lia].
  - split; [lia | cbn; lia].
  - split; [reflexivity | split; [lia | cbn; lia]].
  - split; [assumption | cbn; lia].
  - split; [lia | cbn; lia].
  - split; [lia | cbn; lia].
Qed.

Lemma steady_bounds f :
  steady self f -> 0 <= not_found_count f <= max_check self.
Proof. intros [H _]. lia. Qed.

Lemma loop_frames_bounded : forall members i n f,
  steady self f ->
  Forall (fun fr => 0 <= not_found_count fr <= max_check self)
    (loop_frames self category_name i n members f).
Proof.
  induction members as [|page more IH]; intros i n f Hs; simpl.
  - constructor; [now apply steady_bounds | constructor].
  - constructor; [now apply steady_bounds|].
    pose proof (body_iteration i n page f) as Hit.
    destruct (loop_body self category_name i n page f) as [[[]| |v|e] f1].
    + apply IH. exact (iteration_steady Hit Hs).
    + apply IH. exact (iteration_steady Hit Hs).
    + destruct (iteration_steady Hit Hs) as [_ [Hnf _]].
      constructor; [|constructor]. destruct Hs as [Hs _]. lia.
    + destruct (iteration_steady Hit Hs).
Qed.

Lemma loop_entry_steady n : 0 < max_check self -> steady self (loop_entry category_name n).
Proof. intros H. split; [cbn; lia | reflexivity]. Qed.


(** *** Reaching the threshold *)

Lemma fetched_app a b : fetched (a ++ b) = fetched a ++ fetched b.
Proof.
  induction a as [|ev a IH]; simpl; [reflexivity|].
  destruct ev; simpl; now rewrite IH.
Qed.

(** *** Saves *)

Lemma justified_mono members members' ev :
  (forall p, In p members -> In p members') ->
  justified self category_name members ev -> justified self category_name members' ev.
Proof.
  intros Hsub H Hs. destruct (H Hs) as [Hd [page [Hin Hsave]]].
  split; [assumption|]. exists page. auto.
Qed.

Lemma justified_other members ev : is_save ev = false -> justified self category_name members ev.
Proof. intros H Hs. congruence. Qed.

Lemma justified_save page text new_text :
  is_hit self category_name page text new_text ->
  dry_run self = false ->
  justified self category_name [page]
    (CallSave (page_name page) new_text (edit_summary category_name) true).
Proof.
  intros Hhit Hd _. split; [assumption|]. exists page. split; [now left|].
  now exists text, new_text.
Qed.

Ltac each_event :=
  unfold checking; cbn [app];
  repeat first [ apply Forall_nil
               | apply Forall_cons; [first [ apply justified_other; reflexivity
                                           | eapply justified_save; eassumption ]|] ].

Lemma iteration_trace i n page f r f' :
  iteration self category_name i n page f (r, f') ->
  exists evs, trace f' = trace f ++ evs /\ Forall (justified self category_name [page]) evs.
Proof.
  intros H. inversion H as [Hns|e evs Hr| | | | |text new_text Hhit Hd Hs]; subst;
    cbn [trace with_events]; eexists; (split; [reflexivity|]);
    try (each_event; fail).
  destruct Hr as [e Hns Ht|text e Hns Ht Hc|text e Hns Ht Hc Hr
                  |text new_text e Hhit Hd Hs]; each_event.
Qed.

Lemma for_members_trace : forall members i n f r f',
  for_members self category_name i n members f = (r, f') ->
  exists evs, trace f' = trace f ++ evs /\ Forall (justified self category_name members) evs.
Proof.
  induction members as [|page more IH]; intros i n f r f' H.
  - injection H as <- <-. exists []. split; [now rewrite app_nil_r | constructor].
  - rewrite for_members_step in H.
    pose proof (body_iteration i n page f) as Hit.
    destruct (loop_body self category_name i n page f) as [s1 f1].
    destruct (iteration_trace Hit) as [evs1 [Ht1 Hj1]].
    assert (Hj1' : Forall (justified self category_name (page :: more)) evs1).
    { eapply Forall_impl; [|exact Hj1]. intros ev.
      apply justified_mono. intros p [<-|[]]. now left. }
    destruct s1 as [[]| |v|e].
    + destruct (IH _ _ _ _ _ H) as [evs2 [Ht2 Hj2]].
      exists (evs1 ++ evs2). split; [now rewrite Ht2, Ht1, app_assoc|].
      apply Forall_app. split; [assumption|].
      eapply Forall_impl; [|exact Hj2]. intros ev.
      apply justified_mono. intros p Hp. now right.
    + destruct (IH _ _ _ _ _ H) as [evs2 [Ht2 Hj2]].
      exists (evs1 ++ evs2). split; [now rewrite Ht2, Ht1, app_assoc|].
      apply Forall_app. split; [assumption|].
      eapply Forall_impl; [|exact Hj2]. intros ev.
      apply justified_mono. intros p Hp. now right.
    + injection H as <- <-. now exists evs1.
    + injection H as <- <-. now exists evs1.
Qed.

Lemma process_category_trace members :
  Forall (justified self category_name members)
    (snd (process_category self category_name members)).
Proof.
  destruct members as [|page more].
  - repeat constructor; discriminate.
  - unfold process_category.
    rewrite process_category_body_loop by discriminate. cbv zeta.
    destruct (for_members _ _ _ _ _ _) as [r f] eqn:E.
    apply for_members_trace in E. destruct E as [evs [Ht Hj]].
    assert (Hall : Forall (justified self category_name (page :: more)) (trace f)).
    { rewrite Ht. apply Forall_app. split; [|assumption].
      repeat constructor; discriminate. }
    destruct r as [[]| |v|e]; exact Hall.
Qed.


Lemma try_block_raise_inv i n page f e f1 :
  try_block self category_name i n page f = (Raise e, f1) ->
  exists evs, raises self category_name i n page e evs /\ f1 = with_events f evs.
Proof.
  intros Ht.
  assert (Hb : loop_body self category_name i n page f =
               (Continue,
                with_events f1 [Log ERROR (MsgError (page_name page) e)])).
  { unfold loop_body, try_except. rewrite Ht. reflexivity. }
  pose proof (body_iteration i n page f) as Hit. rewrite Hb in Hit.
  remember (@Continue unit,
            with_events f1 [Log ERROR (MsgError (page_name page) e)]) as res
    eqn:Hres.
  destruct Hit as [Hns|e' evs Hr| | | | |]; try discriminate;
    unfold with_events in Hres; injection Hres as He Hn Htr.
  - apply app_inj_tail in Htr. destruct Htr as [_ Hev]. discriminate.
  - rewrite app_assoc in Htr. apply app_inj_tail in Htr.
    destruct Htr as [Htr Hev]. injection Hev as ->.
    exists evs. split; [assumption|].
    destruct f1. cbn in *. unfold with_events. congruence.
Qed.

Lemma body_hit i n page f text new_text :
  is_hit self category_name page text new_text ->
  dry_run self = true
  \/ page_save page new_text (edit_summary category_name) true = Ok tt ->
  exists f',
    loop_body self category_name i n page f = (Next tt, f')
    /\ edits_made f' = edits_made f + 1
    /\ not_found_count f' = 0.
Proof.
  intros Hhit Hmode. destruct (dry_run self) eqn:Hd.
  - eexists. split; [eapply body_hit_dry_run; eassumption|]. now split.
  - destruct Hmode as [Hm|Hs]; [discriminate|].
    eexists. split; [eapply body_hit_saved; eassumption|]. now split.
Qed.

Lemma for_members_next_app rest : forall l i n f f',
  for_members self category_name i n l f = (Next tt, f') ->
  for_members self category_name i n (l ++ rest) f =
  for_members self category_name (i + Z.of_nat (List.length l)) n rest f'.
Proof.
  induction l as [|page l IH]; intros i n f f' H.
  - injection H as <-. simpl. now rewrite Z.add_0_r.
  - simpl app. rewrite for_members_step in *.
    replace (i + Z.of_nat (List.length (page :: l)))
      with (i + 1 + Z.of_nat (List.length l)) by (cbn [List.length]; lia).
    destruct (loop_body self category_name i n page f) as [[[]| |v|e] f1];
      try discriminate; now apply IH.
Qed.

Lemma misses_below n : forall misses i f,
  Forall (is_miss self category_name) misses ->
  not_found_count f + Z.of_nat (List.length misses) < max_check self ->
  exists f',
    for_members self category_name i n misses f = (Next tt, f')
    /\ edits_made f' = edits_made f
    /\ not_found_count f' = not_found_count f + Z.of_nat (List.length misses).
Proof.
  induction misses as [|page misses IH]; intros i f Hm Hlen.
  - exists f. cbn. repeat split; lia.
  - inversion Hm as [|p l Hp Hrest]; subst. cbn [List.length] in Hlen.
    rewrite for_members_step, (body_miss i n f Hp) by lia.
    set (f1 := {| edits_made := edits_made f;
                  not_found_count := not_found_count f + 1;
                  trace := trace f ++ checking i n page
                             ++ [Log INFO MsgNotFoundInText] |}).
    destruct (IH (i + 1) f1 Hrest) as [f' [Hrun [He Hc]]]; [cbn; lia|].
    exists f'. split; [exact Hrun|]. cbn in He, Hc. cbn [List.length].
    split; [assumption | lia].
Qed.

End LoopFacts.

(** *** Reaching the threshold through a streak *)

Section StreakFacts.
Variable self : RedCategoryRemover.
Variable category_name : str.
Local Open Scope Z_scope.

Lemma streak_of_misses misses :
  Forall (is_miss self category_name) misses ->
  streak self category_name (List.length misses) misses.
Proof.
  induction 1 as [|page misses Hp Hrest IH]; simpl; constructor; assumption.
Qed.

Lemma streak_articles k run :
  streak self category_name k run -> List.length (articles run) = k.
Proof.
  induction 1 as [|k page run [Hns _] Hs IH|k page run Hns Hs IH]; simpl.
  - reflexivity.
  - rewrite Hns. simpl. now rewrite IH.
  - apply Z.eqb_neq in Hns. now rewrite Hns.
Qed.

Lemma streak_cutover rest n : forall k run,
  streak self category_name k run ->
  forall i f,
  0 <= not_found_count f < max_check self ->
  max_check self <= not_found_count f + Z.of_nat k ->
  exists f',
    for_members self category_name i n (run ++ rest) f
      = (Return (edits_made f, true), f')
    /\ edits_made f' = edits_made f
    /\ not_found_count f' = max_check self
    /\ edit_count (trace f') = edit_count (trace f)
    /\ fetched (trace f') =
       fetched (trace f)
       ++ map page_name
            (firstn (Z.to_nat (max_check self - not_found_count f))
                    (articles run)).
Proof.
  induction 1 as [|k page run Hp Hs IH|k page run Hns Hs IH];
    intros i f Hnf Hlen.
  - simpl in Hlen. lia.
  - assert (Ha : articles (page :: run) = page :: articles run).
    { unfold articles. simpl. destruct Hp as [-> _]. reflexivity. }
    rewrite Ha, <- app_comm_cons, for_members_step.
    destruct (Z_lt_ge_dec (not_found_count f + 1) (max_check self)) as [Hlt|Hge].
    + rewrite (body_miss i n f Hp Hlt).
      set (f1 := {| edits_made := edits_made f;
                    not_found_count := not_found_count f + 1;
                    trace := trace f ++ checking i n page
                               ++ [Log INFO MsgNotFoundInText] |}).
      destruct (IH (i + 1) f1) as [f' [Hrun [He [Hc [Hec Hf]]]]];
        [cbn; lia | cbn [not_found_count f1]; lia|].
      exists f'. split; [exact Hrun|].
      subst f1. cbn [edits_made not_found_count trace] in *.
      split; [assumption | split; [assumption|]]. split.
      * rewrite Hec, !edit_count_app. cbn. lia.
      * rewrite Hf, !fetched_app. cbn [fetched checking app].
        replace (Z.to_nat (max_check self - not_found_count f))
          with (S (Z.to_nat (max_check self - (not_found_count f + 1))))
          by lia.
        cbn [firstn map]. rewrite <- app_assoc. reflexivity.
    + rewrite (body_cutover i n f Hp Hge). eexists. split; [reflexivity|].
      cbn [edits_made not_found_count trace].
      split; [reflexivity | split; [lia|]]. split.
      * rewrite !edit_count_app. cbn. lia.
      * rewrite !fetched_app. cbn [fetched checking app].
        replace (Z.to_nat (max_check self - not_found_count f)) with 1%nat by lia.
        reflexivity.
  - assert (Ha : articles (page :: run) = articles run).
    { unfold articles. simpl. apply Z.eqb_neq in Hns. now rewrite Hns. }
    rewrite Ha, <- app_comm_cons, for_members_step.
    rewrite (@body_non_main self category_name i n page f Hns).
    destruct (IH (i + 1)
                (with_events f
                   [Log DEBUG (MsgSkippingNonArticle (page_name page))]))
      as [f' [Hrun [He [Hc [Hec Hf]]]]]; [assumption | assumption|].
    exists f'. split; [exact Hrun|].
    cbn [with_events edits_made not_found_count trace] in *.
    split; [assumption | split; [assumption|]]. split.
    + rewrite Hec, edit_count_app. cbn. lia.
    + rewrite Hf, fetched_app. cbn [fetched]. now rewrite app_nil_r.
Qed.

Lemma streak_reaches_cutover rest n run :
  streak self category_name (Z.to_nat (max_check self)) run ->
  forall pre i f,
    steady self f ->
    exists v f',
      for_members self category_name i n (pre ++ run ++ rest) f
        = (Return v, f')
      /\ at_cutover self v f'.
Proof.
  intros Hrun. induction pre as [|page pre IH]; intros i f Hs.
  - destruct Hs as [Hnf He].
    destruct (streak_cutover rest n Hrun i f Hnf) as [f' [Hr [He' [Hc [Hec _]]]]];
      [lia|].
    exists (edits_made f, true), f'. split; [exact Hr|].
    unfold at_cutover. rewrite He', Hec. auto.
  - simpl app. rewrite for_members_step.
    pose proof (body_iteration self category_name i n page f) as Hit.
    destruct (loop_body self category_name i n page f) as [[[]| |v|e] f1].
    + apply IH. exact (iteration_steady Hit Hs).
    + apply IH. exact (iteration_steady Hit Hs).
    + exists v, f1. split; [reflexivity | exact (iteration_steady Hit Hs)].
    + destruct (iteration_steady Hit Hs).
Qed.

End StreakFacts.

(** * The claims *)

Section TextClaims.
Context {UC : UnicodeCase}.

(** Claim C3, amended.  The name is escaped so that each of its characters
    is one literal of the parsed pattern, in the detection and in the
    removal patterns, whatever metacharacters it holds.
    [check_category_in_text] answers [True] exactly when the text contains a
    bracketed link for the name: opening brackets, keyword and colon, the
    name, white space, an optional sort key and the closing brackets.
    Keyword and name are both compared literal by literal under
    [re.IGNORECASE]: a character without case matches itself only, a cased
    one matches every character with the same lower case (or an extra case
    equivalent of it).  A link spelled exactly as the pattern is always
    found. *)
Theorem check_category_in_text_literal_name (text category_name : str) :
  map parse (check_patterns (escape category_name))
    = map (fun o => Some (link_pattern o category_name)) openings
  /\ map parse (remove_patterns (escape category_name))
    = map (fun o => Some (link_newline_pattern o category_name)) openings
  /\ (check_category_in_text text category_name = Ok true
      <-> occurs category_name text)
  /\ (check_category_in_text text category_name = Ok false
      <-> ~ occurs category_name text)
  /\ (forall p t, unicode_iscased p = false ->
        (lit_match IGNORECASE p t = true <-> t = p))
  /\ (forall p t, unicode_iscased p = true ->
        (lit_match IGNORECASE p t = true <->
         unicode_tolower t = unicode_tolower p
         \/ In (unicode_tolower t) (ignorecase_fixes (unicode_tolower p))))
  /\ (forall opening before after,
        In opening openings ->
        check_category_in_text
          (before ++ opening ++ category_name ++ py "]]" ++ after)
          category_name = Ok true).
Proof.
  split; [apply parse_check_patterns|].
  split; [apply parse_remove_patterns|].
  split; [apply check_true_iff|].
  split; [apply check_false_iff|].
  split; [apply lit_match_uncased|].
  split; [apply lit_match_cased|].
  intros. now apply check_finds_itself.
Qed.

(** Claim C7, amended.  On a text with no occurrence of a link for the name,
    [remove_category_from_text] returns the text as it is.  On a text with
    an occurrence it returns a strictly shorter one.  Applying it to its own
    result changes nothing as soon as that result holds no occurrence. *)
Theorem remove_category_from_text_fixed_point (text category_name : str) :
  (~ occurs category_name text ->
   remove_category_from_text text category_name = Ok text)
  /\ exists out,
       remove_category_from_text text category_name = Ok out
       /\ (occurs category_name text ->
           (List.length out < List.length text)%nat)
       /\ (~ occurs category_name out ->
           remove_category_from_text out category_name = Ok out).
Proof.
  split; [apply remove_no_occurrence|].
  destruct (remove_passes text category_name) as [out [Hr Hp]].
  exists out. split; [assumption|]. split; [|apply remove_no_occurrence].
  intros Hocc. eapply remove_occurrence_shorter; eassumption.
Qed.

(** Claim C9, amended.  [remove_category_from_text] is four passes over the
    text, one per opening; each pass goes from left to right, drops a link
    for the name (keyword and name up to letter case, with its white space
    and sort key) and the newline right after it wherever such a link
    starts, and keeps every other character.  On the text of the unit test,
    removing [A] leaves the line of [[Category:B]] as it is. *)
Theorem remove_category_from_text_passes (text category_name : str) :
  (exists out,
     remove_category_from_text text category_name = Ok out
     /\ passes openings category_name text out)
  /\ remove_category_from_text (UC := ascii_case)
       (py "Text" ++ [10%N] ++ py "[[Category:A]]" ++ [10%N]
          ++ py "[[Category:B]]")
       (py "A")
     = Ok (py "Text" ++ [10%N] ++ py "[[Category:B]]").
Proof.
  split; [apply remove_passes | vm_compute; reflexivity].
Qed.

(** Claim C10.  When [check_category_in_text] answers [False],
    [remove_category_from_text] returns the text unchanged; and for each
    opening the detection pattern and the removal pattern are found by
    [re.search] in the same texts, since they match at the same
    positions. *)
Theorem check_false_remove_identity (text category_name : str) :
  check_category_in_text text category_name = Ok false ->
  remove_category_from_text text category_name = Ok text
  /\ (forall t,
        map (fun source => search source t IGNORECASE)
            (check_patterns (escape category_name))
        = map (fun source => search source t IGNORECASE)
              (remove_patterns (escape category_name)))
  /\ (forall opening s,
        match_here IGNORECASE (link_pattern opening category_name) s = None
        <->
        match_here IGNORECASE (link_newline_pattern opening category_name) s
        = None).
Proof.
  intros Hc. split; [|split].
  - apply remove_no_occurrence. now apply check_false_iff.
  - intros t. apply search_patterns_agree.
  - intros opening s.
    rewrite match_here_link_None, match_here_newline_None. reflexivity.
Qed.

End TextClaims.

Section LoopClaims.
Local Open Scope Z_scope.

(** Claim C1.  Let the threshold be positive and let the member list hold
    a run whose articles are [max_check] pages without the category, one
    after the other (pages outside the main namespace may lie between
    them).  Then [process_category] leaves through the [return] inside the
    loop with [skipped = True] and the edits made so far, which are the
    edits its trace reports ([0] when the run opens the list); the counter
    is then exactly [max_check], and at the head of every iteration and at
    the end it lies between [0] and [max_check]; the members after the run
    play no part in the result or in the events; and when the run opens the
    list the texts fetched are those of its articles, no other. *)
Theorem cutover_after_max_check_misses
    (self : RedCategoryRemover) (category_name : str)
    (pre run rest : list Page) :
  0 < max_check self ->
  streak self category_name (Z.to_nat (max_check self)) run ->
  let members := pre ++ run ++ rest in
  let n := Z.of_nat (List.length members) in
  exists e f,
    process_category_body self category_name members entry
      = (Return (e, true), f)
    /\ process_category self category_name members = (Ok (e, true), trace f)
    /\ e = edits_made f
    /\ e = edit_count (trace f)
    /\ not_found_count f = max_check self
    /\ Forall (fun fr => 0 <= not_found_count fr <= max_check self)
         (loop_frames self category_name 1 n members
            (loop_entry category_name n))
    /\ (forall rest',
          List.length rest' = List.length rest ->
          process_category self category_name (pre ++ run ++ rest')
          = process_category self category_name members)
    /\ (pre = [] ->
        e = 0 /\ fetched (trace f) = map page_name (articles run)).
Proof.
  intros Hpos Hrun members n. subst members.
  assert (Hne : forall r, pre ++ run ++ r <> []).
  { intros r H. apply app_eq_nil in H. destruct H as [_ H].
    apply app_eq_nil in H. destruct H as [-> _].
    inversion Hrun as [Hk| |]. lia. }
  pose proof (loop_entry_steady self category_name n Hpos) as Hs.
  destruct (streak_reaches_cutover [] n Hrun pre 1 Hs)
    as [v [f [Hr [Hv [Hc He]]]]].
  assert (Hany : forall r,
            for_members self category_name 1 n (pre ++ run ++ r)
              (loop_entry category_name n) = (Return v, f)).
  { intros r.
    replace (pre ++ run ++ r) with ((pre ++ run ++ []) ++ r)
      by (now rewrite <- !app_assoc).
    now apply for_members_return_app. }
  assert (Hbody : forall r,
            List.length r = List.length rest ->
            process_category_body self category_name (pre ++ run ++ r) entry
            = (Return v, f)).
  { intros r Hlen. rewrite process_category_body_loop by apply Hne. cbv zeta.
    replace (Z.of_nat (List.length (pre ++ run ++ r))) with n
      by (subst n; rewrite !length_app; lia).
    now rewrite Hany. }
  exists (edits_made f), f. subst v.
  split; [now apply Hbody|].
  split; [unfold process_category; now rewrite Hbody|].
  split; [reflexivity|]. split; [assumption|]. split; [assumption|].
  split; [now apply loop_frames_bounded|].
  split.
  - intros rest' Hlen. unfold process_category.
    now rewrite !Hbody by (reflexivity || assumption).
  - intros ->. destruct Hs as [Hnf _].
    destruct (streak_cutover rest n Hrun 1 (loop_entry category_name n) Hnf)
      as [f' [Hr' [He' [_ [_ Hf]]]]]; [cbn; lia|].
    specialize (Hany rest). simpl app in Hany. rewrite Hr' in Hany.
    injection Hany as _ <-. split; [now rewrite He'|].
    rewrite Hf. cbn [loop_entry trace fetched not_found_count app].
    rewrite Z.sub_0_r, <- (streak_articles Hrun). now rewrite firstn_all.
Qed.

(** Claim C5.  A member outside the main namespace only produces the debug
    line: its text is not fetched, whatever it is; [edits_made] and the
    counter are as before; and the loop goes on with the next member. *)
Theorem non_main_page_is_skipped
    (self : RedCategoryRemover) (category_name : str) (i n : Z)
    (page : Page) (more : list Page) (f : frame) :
  page_namespace page <> 0 ->
  let f' :=
    with_events f [Log DEBUG (MsgSkippingNonArticle (page_name page))] in
  loop_body self category_name i n page f = (Continue, f')
  /\ edits_made f' = edits_made f
  /\ not_found_count f' = not_found_count f
  /\ fetched (trace f') = fetched (trace f)
  /\ for_members self category_name i n (page :: more) f
     = for_members self category_name (i + 1) n more f'.
Proof.
  intros Hns f'.
  assert (Hb := @body_non_main self category_name i n page f Hns). fold f' in Hb.
  split; [exact Hb|]. split; [reflexivity|]. split; [reflexivity|]. split.
  - subst f'. cbn [with_events trace]. rewrite fetched_app. cbn.
    now rewrite app_nil_r.
  - rewrite for_members_step, Hb. reflexivity.
Qed.

(** Claim C4.  When the category is found on an article and the removal
    returns the text as it was, the iteration logs the warning, calls no
    save and leaves [edits_made] and the counter as they were.  And in every
    run of [process_category], each call of [page.save] is made by a live
    remover for a member whose text the removal changed. *)
Theorem unchanged_page_is_not_saved
    (self : RedCategoryRemover) (category_name : str) (i n : Z)
    (page : Page) (text : str) (f : frame) :
  is_unchanged self category_name page text ->
  let evs := checking i n page
             ++ [Log INFO MsgFoundInText; Log WARNING MsgUnchanged] in
  loop_body self category_name i n page f = (Next tt, with_events f evs)
  /\ edits_made (with_events f evs) = edits_made f
  /\ not_found_count (with_events f evs) = not_found_count f
  /\ Forall (fun ev => is_save ev = false) evs
  /\ forall members,
       Forall (justified self category_name members)
         (snd (process_category self category_name members)).
Proof.
  intros Hu evs.
  split; [eapply body_unchanged; eassumption|].
  split; [reflexivity|]. split; [reflexivity|].
  split; [repeat constructor|].
  intros members. apply process_category_trace.
Qed.

(** Claim C8.  In a dry run, an article where the category is found and the
    removal changes the text increments [edits_made] and resets the counter
    to [0], to the same values as the live remover when its save succeeds,
    and no run of [process_category] calls [page.save]. *)
Theorem dry_run_counts_without_saving
    (self : RedCategoryRemover) (category_name : str) (i n : Z)
    (page : Page) (text new_text : str) (f : frame) :
  dry_run self = true ->
  is_hit self category_name page text new_text ->
  let f' := {| edits_made := edits_made f + 1;
               not_found_count := 0;
               trace := trace f ++ checking i n page
                          ++ [Log INFO MsgFoundInText;
                              Log INFO (MsgDryRun (page_name page))] |} in
  loop_body self category_name i n page f = (Next tt, f')
  /\ (page_save page new_text (edit_summary category_name) true = Ok tt ->
      exists f'',
        loop_body (live self) category_name i n page f = (Next tt, f'')
        /\ edits_made f'' = edits_made f'
        /\ not_found_count f'' = not_found_count f')
  /\ forall members,
       Forall (fun ev => is_save ev = false)
         (snd (process_category self category_name members)).
Proof.
  intros Hd Hhit f'.
  split; [eapply body_hit_dry_run; eassumption|]. split.
  - intros Hs. eexists. split.
    + eapply body_hit_saved; [exact Hhit | reflexivity | exact Hs].
    + split; reflexivity.
  - intros members.
    eapply Forall_impl; [|apply process_category_trace].
    intros ev Hj. destruct (is_save ev) eqn:E; [|reflexivity].
    destruct (Hj E) as [Hlive _]. congruence.
Qed.

(** Claim C2, amended.  An article where the category is found and the
    removal changes the text increments [edits_made] and resets the counter
    to [0], in a dry run or when [page.save] does not raise.  So two streaks
    of misses, each shorter than the threshold, around one such article
    give exactly one edit and [skipped = False]. *)
Theorem hit_counts_and_resets_streak
    (self : RedCategoryRemover) (category_name : str)
    (before after : list Page) (page : Page) (text new_text : str) :
  is_hit self category_name page text new_text ->
  dry_run self = true
  \/ page_save page new_text (edit_summary category_name) true = Ok tt ->
  Forall (is_miss self category_name) before ->
  Forall (is_miss self category_name) after ->
  Z.of_nat (List.length before) < max_check self ->
  Z.of_nat (List.length after) < max_check self ->
  (forall i n f,
     exists f',
       loop_body self category_name i n page f = (Next tt, f')
       /\ edits_made f' = edits_made f + 1
       /\ not_found_count f' = 0)
  /\ fst (process_category self category_name (before ++ page :: after))
     = Ok (1, false).
Proof.
  intros Hhit Hmode Hb Ha Hlb Hla. split.
  - intros i n f. eapply body_hit; eassumption.
  - unfold process_category.
    rewrite process_category_body_loop by (now destruct before). cbv zeta.
    set (n := Z.of_nat (List.length (before ++ page :: after))).
    destruct (misses_below (self := self) (category_name := category_name) n
                1 (loop_entry category_name n) Hb)
      as [f1 [Hr1 [He1 Hc1]]]; [cbn; lia|].
    erewrite for_members_next_app by exact Hr1. rewrite for_members_step.
    destruct (@body_hit self category_name
                (1 + Z.of_nat (List.length before)) n page f1 text new_text
                Hhit Hmode)
      as [f2 [Hr2 [He2 Hc2]]].
    rewrite Hr2.
    destruct (misses_below (self := self) (category_name := category_name) n
                (1 + Z.of_nat (List.length before) + 1) f2 Ha)
      as [f3 [Hr3 [He3 Hc3]]]; [lia|].
    rewrite Hr3. cbn [fst]. rewrite He3, He2, He1. reflexivity.
Qed.

End LoopClaims.

(** * The claims on the sample pages *)

Section Samples.
Local Open Scope Z_scope.

Ltac mock_miss :=
  split; [reflexivity
         | exists MOCK_TEXT_NO_CATEGORY;
           split; [reflexivity | vm_compute; reflexivity]].

Lemma mock_pages_miss (self : RedCategoryRemover) (k : nat) :
  method_check self = check_category_in_text (UC := ascii_case) ->
  Forall (is_miss self (py "Test Category")) (mock_pages k).
Proof.
  intros Hc. unfold mock_pages. induction k as [|k IH]; simpl; constructor;
    [|exact IH].
  split; [reflexivity|]. exists MOCK_TEXT_NO_CATEGORY.
  split; [reflexivity|]. rewrite Hc. vm_compute. reflexivity.
Defined.

Lemma page_with_cat_is_hit (self : RedCategoryRemover) (page : Page) :
  method_check self = check_category_in_text (UC := ascii_case) ->
  method_remove self = remove_category_from_text (UC := ascii_case) ->
  page_namespace page = 0 ->
  page_text page = Ok (py "Text [[Category:Test Category]] more") ->
  is_hit self (py "Test Category") page
    (py "Text [[Category:Test Category]] more") (py "Text  more").
Proof.
  intros Hc Hr Hns Ht. unfold is_hit. rewrite Hc, Hr.
  split; [exact Hns|]. split; [exact Ht|].
  split; [vm_compute; reflexivity|]. split; [vm_compute; reflexivity|].
  intros H. vm_compute in H. discriminate H.
Defined.

(** Twelve articles without the category, threshold 10: skipped with no
    edit after the text of the tenth, the last two never fetched. *)
Lemma cutover_after_max_check_misses_witness :
  0 < max_check test_remover
  /\ streak test_remover (py "Test Category") 10 (mock_pages 10)
  /\ fst (process_category test_remover (py "Test Category")
            ([] ++ mock_pages 10 ++ mock_pages 2))
     = Ok (0, true)
  /\ fetched (snd (process_category test_remover (py "Test Category")
                     ([] ++ mock_pages 10 ++ mock_pages 2)))
     = map page_name (mock_pages 10).
Proof.
  assert (H0 : 0 < max_check test_remover) by reflexivity.
  assert (Hs : streak test_remover (py "Test Category") 10 (mock_pages 10)).
  { repeat (apply streak_miss; [mock_miss|]). apply streak_end. }
  split; [exact H0|]. split; [exact Hs|].
  destruct (@cutover_after_max_check_misses test_remover (py "Test Category")
              [] (mock_pages 10) (mock_pages 2) H0 Hs)
    as [e [f [_ [Hp [_ [_ [_ [_ [_ Hz]]]]]]]]].
  destruct (Hz eq_refl) as [He Hf]. rewrite Hp, He. split; [reflexivity|].
  exact Hf.
Defined.

(** Five misses, one hit, five misses in a dry run: one edit, not
    skipped. *)
Lemma hit_counts_and_resets_streak_witness :
  is_hit test_remover (py "Test Category") page_with_cat
    (py "Text [[Category:Test Category]] more") (py "Text  more")
  /\ dry_run test_remover = true
  /\ Forall (is_miss test_remover (py "Test Category")) (mock_pages 5)
  /\ Z.of_nat (List.length (mock_pages 5)) < max_check test_remover
  /\ fst (process_category test_remover (py "Test Category")
            (mock_pages 5 ++ page_with_cat :: mock_pages 5))
     = Ok (1, false).
Proof.
  assert (Hhit := @page_with_cat_is_hit test_remover page_with_cat
                    eq_refl eq_refl eq_refl eq_refl).
  assert (Hm := @mock_pages_miss test_remover 5 eq_refl).
  assert (Hlen : Z.of_nat (List.length (mock_pages 5)) < max_check test_remover)
    by reflexivity.
  split; [exact Hhit|]. split; [reflexivity|]. split; [exact Hm|].
  split; [exact Hlen|].
  exact (proj2 (@hit_counts_and_resets_streak test_remover (py "Test Category")
                  (mock_pages 5) (mock_pages 5) page_with_cat _ _
                  Hhit (or_introl eq_refl) Hm Hm Hlen Hlen)).
Defined.

(** The same eleven pages, live, when the save of the hit fails: no edit
    is counted, the streak goes on and the category is skipped. *)
Lemma failed_save_does_not_count :
  is_hit live_remover (py "Test Category") protected_page
    (py "Text [[Category:Test Category]] more") (py "Text  more")
  /\ fst (process_category live_remover (py "Test Category")
            (mock_pages 5 ++ protected_page :: mock_pages 5))
     = Ok (0, true).
Proof.
  split.
  - exact (@page_with_cat_is_hit live_remover protected_page
             eq_refl eq_refl eq_refl eq_refl).
  - vm_compute. reflexivity.
Qed.

(** The test double finds the category and removes nothing. *)
Lemma unchanged_page_is_not_saved_witness :
  is_unchanged stub_remover (py "Test Category") page_with_cat
    (py "Text [[Category:Test Category]] more")
  /\ exists f,
       loop_body stub_remover (py "Test Category") 1 1 page_with_cat
         (entry) = (Next tt, f)
       /\ edits_made f = 0 /\ not_found_count f = 0
       /\ Forall (fun ev => is_save ev = false) (trace f).
Proof.
  assert (Hu : is_unchanged stub_remover (py "Test Category") page_with_cat
                 (py "Text [[Category:Test Category]] more"))
    by (repeat split; reflexivity).
  split; [exact Hu|].
  destruct (@unchanged_page_is_not_saved stub_remover (py "Test Category") 1 1
              page_with_cat _ entry Hu) as [Hb [He [Hn [Hs _]]]].
  eexists. split; [exact Hb|]. split; [exact He|]. split; [exact Hn|].
  exact Hs.
Defined.

(** A talk page, with the category in its text. *)
Lemma non_main_page_is_skipped_witness :
  page_namespace talk_page <> 0
  /\ loop_body test_remover (py "Test Category") 1 1 talk_page entry
     = (Continue,
        with_events entry
          [Log DEBUG (MsgSkippingNonArticle (page_name talk_page))]).
Proof.
  assert (Hns : page_namespace talk_page <> 0) by discriminate.
  split; [exact Hns|].
  exact (proj1 (@non_main_page_is_skipped test_remover (py "Test Category")
                  1 1 talk_page [] entry Hns)).
Defined.

(** The hit of the tests, in a dry run. *)
Lemma dry_run_counts_without_saving_witness :
  dry_run test_remover = true
  /\ is_hit test_remover (py "Test Category") page_with_cat
       (py "Text [[Category:Test Category]] more") (py "Text  more")
  /\ exists f,
       loop_body test_remover (py "Test Category") 1 1 page_with_cat entry
       = (Next tt, f)
       /\ edits_made f = 1 /\ not_found_count f = 0
       /\ Forall (fun ev => is_save ev = false) (trace f).
Proof.
  assert (Hhit := @page_with_cat_is_hit test_remover page_with_cat
                    eq_refl eq_refl eq_refl eq_refl).
  split; [reflexivity|]. split; [exact Hhit|].
  destruct (@dry_run_counts_without_saving test_remover (py "Test Category")
              1 1 page_with_cat _ _ entry eq_refl Hhit) as [Hb _].
  eexists. split; [exact Hb|]. split; [reflexivity|]. split; [reflexivity|].
  repeat constructor.
Defined.

End Samples.

Section TextSamples.
#[local] Existing Instance ascii_case.

(** A page with another category only. *)
Lemma check_false_remove_identity_witness :
  check_category_in_text
    (py "Some text" ++ [10%N] ++ py "[[Category:Other Category]]")
    (py "Test Category") = Ok false
  /\ remove_category_from_text
       (py "Some text" ++ [10%N] ++ py "[[Category:Other Category]]")
       (py "Test Category")
     = Ok (py "Some text" ++ [10%N] ++ py "[[Category:Other Category]]").
Proof.
  assert (Hc : check_category_in_text
                 (py "Some text" ++ [10%N] ++ py "[[Category:Other Category]]")
                 (py "Test Category") = Ok false)
    by (vm_compute; reflexivity).
  split; [exact Hc|].
  exact (proj1 (check_false_remove_identity _ _ Hc)).
Defined.

(** The name is compared without regard to letter case. *)
Lemma check_matches_other_case :
  check_category_in_text (py "[[Category:foo]]") (py "FOO") = Ok true
  /\ py "foo" <> py "FOO".
Proof.
  split; [vm_compute; reflexivity|].
  intros H. vm_compute in H. discriminate H.
Qed.

(** Deleting a link can join the text around it into a new link: four
    nested links lose three in one call (one per pass that matches) and the
    last one in the next call. *)
Lemma remove_twice_differs :
  remove_category_from_text
    (py "[[Category:A][[Category:A][[Category:A][[Category:A]]]]]") (py "A")
  = Ok (py "[[Category:A]]")
  /\ remove_category_from_text (py "[[Category:A]]") (py "A") = Ok []
  /\ py "[[Category:A]]" <> [].
Proof.
  split; [vm_compute; reflexivity|]. split; [vm_compute; reflexivity|].
  discriminate.
Qed.

(** Removing [a] also deletes the link to [A], and removing [A] deletes a
    link to [B] that lies in the sort key of the link to [A]. *)
Lemma remove_deletes_other_names :
  remove_category_from_text
    (py "x[[Category:a]]" ++ [10%N] ++ py "[[Category:A]]") (py "a")
  = Ok (py "x")
  /\ py "a" <> py "A"
  /\ check_category_in_text (py "[[Category:A|[[Category:B]]") (py "B")
     = Ok true
  /\ remove_category_from_text (py "[[Category:A|[[Category:B]]") (py "A")
     = Ok [].
Proof.
  split; [vm_compute; reflexivity|].
  split; [intros H; vm_compute in H; discriminate H|].
  split; vm_compute; reflexivity.
Qed.

(** A text without the category is left as it is. *)
Lemma remove_category_from_text_fixed_point_witness :
  ~ occurs (py "Test Category") (py "No category here")
  /\ remove_category_from_text (py "No category here") (py "Test Category")
     = Ok (py "No category here").
Proof.
  assert (Hn : ~ occurs (py "Test Category") (py "No category here")).
  { apply check_false_iff. vm_compute. reflexivity. }
  split; [exact Hn|].
  exact (proj1 (remove_category_from_text_fixed_point
                  (py "No category here") (py "Test Category")) Hn).
Defined.

End TextSamples.

Section SpellingFacts.
Context {UC : UnicodeCase}.

Lemma ascii_letter_match p t :
  (p <? 128)%N = true ->
  ascii_tolower t = ascii_tolower p ->
  lit_match IGNORECASE p t = true.
Proof.
  intros Hp Ht. unfold lit_match.
  destruct (unicode_iscased p) eqn:Hc.
  - assert (Hlow : unicode_tolower t = unicode_tolower p).
    { unfold unicode_tolower. rewrite Hp.
      unfold unicode_iscased in Hc. rewrite Hp in Hc.
      unfold ascii_tolower in Ht.
      destruct ((t <? 128)%N) eqn:Et; [exact Ht|].
      exfalso. apply N.ltb_ge in Et. apply N.ltb_lt in Hp.
      destruct ((65 <=? t) && (t <=? 90))%N eqn:E1.
      - apply andb_true_iff in E1. destruct E1 as [_ E1].
        apply N.leb_le in E1. lia.
      - destruct ((65 <=? p) && (p <=? 90))%N eqn:E2; [|lia].
        apply andb_true_iff in E2. destruct E2 as [_ E2].
        apply N.leb_le in E2. lia. }
    rewrite Hlow, N.eqb_refl. reflexivity.
  - unfold unicode_iscased in Hc. rewrite Hp in Hc.
    unfold ascii_tolower in Ht. apply N.eqb_eq.
    apply orb_false_iff in Hc. destruct Hc as [Hu Hl]. rewrite Hu in Ht.
    destruct ((65 <=? t) && (t <=? 90))%N eqn:E1; [|exact Ht].
    exfalso. apply andb_true_iff in E1. destruct E1 as [E1 E2].
    apply N.leb_le in E1. apply N.leb_le in E2.
    assert (Hp' : ((97 <=? p) && (p <=? 122))%N = true).
    { apply andb_true_iff. split; apply N.leb_le; lia. }
    rewrite Hp' in Hl. discriminate.
Qed.

Lemma ascii_spelling_same_text p : forall t,
  Forall (fun c => (c <? 128)%N = true) p ->
  map ascii_tolower t = map ascii_tolower p ->
  same_text p t.
Proof.
  induction p as [|a p IH]; intros [|b t] Hp Ht; try discriminate.
  - constructor.
  - inversion Hp; subst. simpl in Ht. injection Ht as Hb Ht.
    constructor; [now apply ascii_letter_match | now apply IH].
Qed.

Lemma same_text_app a a' b b' :
  same_text a a' -> same_text b b' -> same_text (a ++ b) (a' ++ b').
Proof. intros Ha Hb. now apply Forall2_app. Qed.

(** Each keyword spelling is accepted by one of the four openings. *)
Lemma keyword_spelling_opening kw :
  keyword_spelling kw ->
  exists opening,
    In opening openings /\ same_text opening (py "[[" ++ kw ++ py ":").
Proof.
  intros [Hk| ->].
  - exists (py "[[Category:"). split; [now left|].
    change (py "[[Category:") with (py "[[" ++ py "Category" ++ py ":").
    apply same_text_app; [apply same_text_refl|].
    apply same_text_app; [|apply same_text_refl].
    apply ascii_spelling_same_text; [repeat constructor | exact Hk].
  - exists (py "[[" ++ tasnif ++ py ":"). split; [right; right; now left|].
    apply same_text_refl.
Qed.

Lemma spelled_link_occurs kw name n ws sk before after :
  keyword_spelling kw ->
  same_text name n ->
  Forall (fun c => unicode_isspace c = true) ws ->
  sort_key sk ->
  occurs name
    (before ++ py "[[" ++ kw ++ py ":" ++ n ++ ws ++ sk ++ py "]]" ++ after).
Proof.
  intros Hk Hn Hws Hsk.
  destruct (keyword_spelling_opening Hk) as [opening [Hin Ho]].
  exists opening, before,
    (py "[[" ++ kw ++ py ":" ++ n ++ ws ++ sk ++ py "]]" ++ after).
  split; [assumption|]. split; [reflexivity|].
  exists ((py "[[" ++ kw ++ py ":") ++ n ++ ws ++ sk ++ py "]]"), after. split.
  - now rewrite <- !app_assoc.
  - now exists (py "[[" ++ kw ++ py ":"), n, ws, sk.
Qed.

End SpellingFacts.

(** * Further properties of the two text methods *)

Section DetectionProperties.
Context {UC : UnicodeCase}.

(** Property X1 ([check_category_in_text], the spellings found): a link is
    found wherever it stands in the text when its keyword is [Category] in
    any letter case or the Arabic keyword, its name spells the category
    name up to letter case, and white space and a sort key may follow the
    name. *)
Theorem check_category_in_text_tolerant
    (kw category_name n ws sk before after : str) :
  keyword_spelling kw ->
  same_text category_name n ->
  Forall (fun c => unicode_isspace c = true) ws ->
  sort_key sk ->
  check_category_in_text
    (before ++ py "[[" ++ kw ++ py ":" ++ n ++ ws ++ sk ++ py "]]" ++ after)
    category_name
  = Ok true.
Proof.
  intros Hk Hn Hws Hsk. apply check_true_iff.
  now apply spelled_link_occurs.
Qed.
End DetectionProperties.

Section ExtentFacts.
Context {UC : UnicodeCase}.

Lemma app_same_length (A : Type) (a b x y : list A) :
  List.length a = List.length b -> a ++ x = b ++ y -> a = b /\ x = y.
Proof.
  revert b; induction a as [|u a IH]; intros [|v b] Hlen H; try discriminate.
  - now split.
  - simpl in *. injection H as -> H. injection Hlen as Hlen.
    destruct (IH b Hlen H) as [-> ->]. now split.
Qed.

Lemma same_text_length p t : same_text p t -> List.length t = List.length p.
Proof. intros H. symmetry. exact (Forall2_length H). Qed.

(** White space ends where something else begins. *)
Lemma spaces_extent ws1 : forall ws2 c1 x1 c2 x2,
  Forall (fun c => unicode_isspace c = true) ws1 ->
  Forall (fun c => unicode_isspace c = true) ws2 ->
  unicode_isspace c1 = false -> unicode_isspace c2 = false ->
  ws1 ++ c1 :: x1 = ws2 ++ c2 :: x2 ->
  ws1 = ws2 /\ c1 :: x1 = c2 :: x2.
Proof.
  induction ws1 as [|w ws1 IH]; intros [|v ws2] c1 x1 c2 x2 H1 H2 Hc1 Hc2 H;
    simpl in H.
  - now split.
  - injection H as -> _. inversion H2; subst. congruence.
  - injection H as -> _. inversion H1; subst. congruence.
  - injection H as -> H. inversion H1; inversion H2; subst.
    destruct (IH ws2 c1 x1 c2 x2) as [-> Hx]; auto.
Qed.

(** A run of characters other than [x] ends at the first [x]. *)
Lemma run_extent (x : char) b1 : forall b2 t1 t2,
  Forall (fun c => c <> x) b1 -> Forall (fun c => c <> x) b2 ->
  b1 ++ x :: t1 = b2 ++ x :: t2 -> b1 = b2 /\ t1 = t2.
Proof.
  induction b1 as [|u b1 IH]; intros [|v b2] t1 t2 H1 H2 H; simpl in H.
  - injection H as ->. now split.
  - injection H as <- _. inversion H2; subst. congruence.
  - injection H as -> _. inversion H1; subst. congruence.
  - injection H as -> H. inversion H1; inversion H2; subst.
    destruct (IH b2 t1 t2) as [-> ->]; auto.
Qed.

(** What follows the name in a link: white space, then a sort key or the
    closing brackets; its extent is determined by the text. *)
Lemma tail_extent ws1 sk1 r1 ws2 sk2 r2 :
  Forall (fun c => unicode_isspace c = true) ws1 ->
  Forall (fun c => unicode_isspace c = true) ws2 ->
  sort_key sk1 -> sort_key sk2 ->
  ws1 ++ sk1 ++ py "]]" ++ r1 = ws2 ++ sk2 ++ py "]]" ++ r2 ->
  ws1 = ws2 /\ sk1 = sk2 /\ r1 = r2.
Proof.
  intros H1 H2 Hs1 Hs2 H.
  assert (Hhead : forall sk r, sort_key sk ->
            exists c x, sk ++ py "]]" ++ r = c :: x
                        /\ unicode_isspace c = false).
  { intros sk r [->|[body [-> _]]]; eexists; eexists;
      (split; [reflexivity|reflexivity]). }
  destruct (Hhead sk1 r1 Hs1) as [c1 [x1 [E1 Hc1]]].
  destruct (Hhead sk2 r2 Hs2) as [c2 [x2 [E2 Hc2]]].
  rewrite E1, E2 in H.
  destruct (@spaces_extent ws1 ws2 c1 x1 c2 x2 H1 H2 Hc1 Hc2 H) as [-> Hx].
  split; [reflexivity|]. rewrite <- E1, <- E2 in Hx. clear E1 E2 H.
  destruct Hs1 as [->|[b1 [-> Hb1]]], Hs2 as [->|[b2 [-> Hb2]]];
    simpl in Hx.
  - injection Hx as ->. now split.
  - discriminate.
  - discriminate.
  - injection Hx as Hx.
    change (b1 ++ ch "]" :: (ch "]" :: r1) = b2 ++ ch "]" :: (ch "]" :: r2))
      in Hx.
    destruct (@run_extent (ch "]") b1 b2 _ _ Hb1 Hb2 Hx) as [-> Hr].
    injection Hr as ->.
    now split.
Qed.

(** Where a link starts, its extent is fixed. *)
Lemma is_link_extent opening name sp1 sp2 r1 r2 :
  is_link opening name sp1 -> is_link opening name sp2 ->
  sp1 ++ r1 = sp2 ++ r2 -> sp1 = sp2 /\ r1 = r2.
Proof.
  intros [o1 [n1 [ws1 [sk1 [-> [Ho1 [Hn1 [Hw1 Hs1]]]]]]]]
         [o2 [n2 [ws2 [sk2 [-> [Ho2 [Hn2 [Hw2 Hs2]]]]]]]] H.
  rewrite <- !app_assoc in H.
  apply app_same_length in H;
    [|now rewrite (same_text_length Ho1), (same_text_length Ho2)].
  destruct H as [-> H].
  apply app_same_length in H;
    [|now rewrite (same_text_length Hn1), (same_text_length Hn2)].
  destruct H as [-> H].
  destruct (@tail_extent ws1 sk1 r1 ws2 sk2 r2 Hw1 Hw2 Hs1 Hs2 H)
    as [-> [-> ->]].
  now split.
Qed.

Lemma lit_open_bracket c : lit_match IGNORECASE (ch "[") c = true <-> c = ch "[".
Proof. apply lit_match_uncased. reflexivity. Qed.

(** A link starts with two opening brackets. *)
Lemma link_starts_brackets opening name s :
  In opening openings -> link_starts opening name s ->
  exists s', s = ch "[" :: ch "[" :: s'.
Proof.
  intros Hin [span [rest [-> [o [n [ws [sk [-> [Ho _]]]]]]]]].
  assert (Ho' : exists o', opening = ch "[" :: ch "[" :: o').
  { simpl in Hin.
    destruct Hin as [<-|[<-|[<-|[<-|[]]]]]; eexists; reflexivity. }
  destruct Ho' as [o' ->].
  inversion Ho as [|a b p t Hab Hrest]; subst.
  inversion Hrest as [|a' b' p' t' Hab' Hrest']; subst.
  apply lit_open_bracket in Hab. apply lit_open_bracket in Hab'. subst.
  eexists. reflexivity.
Qed.

Lemma bracket_free_no_link opening name s before s' :
  In opening openings -> bracket_free s -> s = before ++ s' ->
  ~ link_starts opening name s'.
Proof.
  intros Hin Hfree -> Hl.
  destruct (link_starts_brackets Hin Hl) as [s'' ->].
  apply Forall_app in Hfree. destruct Hfree as [_ Hfree].
  inversion Hfree as [|c l Hc _]; subst. now apply Hc.
Qed.

Lemma bracket_free_no_occurrence name s : bracket_free s -> ~ occurs name s.
Proof.
  intros Hfree [opening [before [s' [Hin [Heq Hl]]]]].
  eapply bracket_free_no_link; eassumption.
Qed.

Lemma pass_bracket_free opening name s out :
  In opening openings -> bracket_free s -> pass opening name s out -> out = s.
Proof.
  intros Hin Hfree Hp. apply (pass_no_link Hp).
  intros before s' Heq. eapply bracket_free_no_link; eassumption.
Qed.

Lemma pass_skip_prefix opening name s : forall before out,
  In opening openings -> bracket_free before ->
  pass opening name (before ++ s) out ->
  exists out', out = before ++ out' /\ pass opening name s out'.
Proof.
  induction before as [|c before IH]; intros out Hin Hfree Hp.
  - now exists out.
  - inversion Hfree as [|c' l Hc Hrest]; subst. simpl in Hp.
    inversion Hp as [|c0 s0 out0 Hno Hp0|span rest out0 Hl Hp0 Heq]; subst.
    + destruct (IH out0 Hin Hrest Hp0) as [out' [-> Hp']].
      now exists out'.
    + exfalso.
      assert (Hs : link_starts opening name (c :: before ++ s))
        by (rewrite <- Heq; now exists span, rest).
      destruct (link_starts_brackets Hin Hs) as [s' Hs'].
      injection Hs' as -> _. now apply Hc.
Qed.

Lemma pass_at_link opening name span rest out :
  is_link opening name span ->
  pass opening name (span ++ rest) out ->
  pass opening name (strip_newline rest) out.
Proof.
  intros Hl Hp.
  inversion Hp as [Heq|c0 s0 out0 Hno Hp0 Heq|span' rest' out0 Hl' Hp0 Heq].
  - exfalso. symmetry in Heq. apply app_eq_nil in Heq. destruct Heq as [-> _].
    apply is_link_length in Hl. simpl in Hl. lia.
  - exfalso. apply Hno. rewrite Heq. now exists span, rest.
  - destruct (@is_link_extent opening name span' span rest' rest Hl' Hl Heq)
      as [_ ->]. assumption.
Qed.

End ExtentFacts.

Section PositionFacts.
Context {UC : UnicodeCase}.

Lemma bracket_free_app a b :
  bracket_free (a ++ b) <-> bracket_free a /\ bracket_free b.
Proof. apply Forall_app. Qed.

Lemma bracket_free_strip_newline s :
  bracket_free s -> bracket_free (strip_newline s).
Proof.
  intros H. destruct s as [|c s]; [assumption|]. simpl.
  destruct (N.eqb c 10); [now inversion H | assumption].
Qed.

Lemma spaces_bracket_free ws :
  Forall (fun c => unicode_isspace c = true) ws -> bracket_free ws.
Proof.
  intros H. eapply Forall_impl; [|exact H]. intros c Hc ->. discriminate Hc.
Qed.

(** When the only opening brackets of a text are one pair, a link can only
    start there. *)
Lemma sole_brackets before : forall body before' s'',
  bracket_free before -> bracket_free body ->
  before ++ ch "[" :: ch "[" :: body = before' ++ ch "[" :: ch "[" :: s'' ->
  before' = before /\ s'' = body.
Proof.
  unfold bracket_free.
  induction before as [|c before IH]; intros body before' s'' Hb Hbody H.
  - destruct before' as [|c' before']; simpl in H.
    + injection H as ->. now split.
    + exfalso. injection H as _ H.
      destruct before' as [|d before']; simpl in H.
      * injection H as H. rewrite H in Hbody.
        inversion Hbody as [|x l Hx _]; subst. now apply Hx.
      * injection H as _ H. rewrite H in Hbody.
        apply Forall_app in Hbody. destruct Hbody as [_ Hbody].
        inversion Hbody as [|x l Hx _]; subst. now apply Hx.
  - inversion Hb as [|x l Hc Hrest]; subst.
    destruct before' as [|c' before']; simpl in H.
    + injection H as -> _. exfalso. now apply Hc.
    + injection H as -> H.
      destruct (IH body before' s'' Hrest Hbody H) as [-> ->]. now split.
Qed.

Lemma same_text_nth p t :
  same_text p t ->
  forall i a, nth_error p i = Some a ->
  exists b, nth_error t i = Some b /\ lit_match IGNORECASE a b = true.
Proof.
  induction 1 as [|a b p t Hab Hrest IH]; intros i x Hi.
  - destruct i; discriminate.
  - destruct i as [|i]; simpl in *.
    + injection Hi as <-. now exists b.
    + now apply IH.
Qed.



Lemma arabic_spelling_not_category opening name tail :
  fixes_beyond_ascii ->
  In opening [py "[[Category:"; py "[[category:"; py "[[CATEGORY:"] ->
  ~ link_starts opening name (py "[[" ++ tasnif ++ py ":" ++ tail).
Proof.
  intros Hfix Hin [span [rest [Heq [o [n [ws [sk [-> [Ho _]]]]]]]]].
  assert (Hseven : exists a, nth_error opening 7 = Some a
                             /\ unicode_iscased a = true
                             /\ unicode_tolower a = ch "o"
                             /\ List.length opening = 11%nat).
  { simpl in Hin. destruct Hin as [<-|[<-|[<-|[]]]]; eexists;
      (split; [reflexivity|]); repeat split. }
  destruct Hseven as [a [Ha [Hcased [Hlow Hlen]]]].
  destruct (same_text_nth Ho 7 Ha) as [b [Hb Hm]].
  assert (Hnth : nth_error (py "[[" ++ tasnif ++ py ":" ++ tail) 7 = Some b).
  { rewrite Heq, <- !app_assoc. rewrite nth_error_app1; [exact Hb|].
    rewrite (same_text_length Ho), Hlen. lia. }
  simpl in Hnth. injection Hnth as <-.
  unfold lit_match in Hm. rewrite Hcased, Hlow in Hm.
  apply orb_true_iff in Hm. destruct Hm as [Hm|Hm]; [discriminate Hm|].
  apply mem_In in Hm. apply (Hfix (ch "o")) in Hm; [discriminate Hm | reflexivity].
Qed.

End PositionFacts.

Section RemovalFacts.
Context {UC : UnicodeCase}.



Lemma category_spelling_is_link kw name n ws sk :
  map ascii_tolower kw = py "category" ->
  same_text name n ->
  Forall (fun c => unicode_isspace c = true) ws ->
  sort_key sk ->
  is_link (py "[[Category:") name
    ((py "[[" ++ kw ++ py ":") ++ n ++ ws ++ sk ++ py "]]").
Proof.
  intros Hk Hn Hws Hsk. exists (py "[[" ++ kw ++ py ":"), n, ws, sk.
  split; [reflexivity|]. split; [|now repeat split].
  change (py "[[Category:") with (py "[[" ++ py "Category" ++ py ":").
  apply same_text_app; [apply same_text_refl|].
  apply same_text_app; [|apply same_text_refl].
  apply ascii_spelling_same_text; [repeat constructor | exact Hk].
Qed.

(** One pass that meets a single link in a text otherwise free of opening
    brackets drops the link and the newline after it. *)
Lemma pass_single_link opening name span before after out :
  In opening openings ->
  is_link opening name span ->
  bracket_free before -> bracket_free after ->
  pass opening name (before ++ span ++ after) out ->
  out = before ++ strip_newline after.
Proof.
  intros Hin Hl Hb Ha Hp.
  apply pass_skip_prefix in Hp; [|assumption|assumption].
  destruct Hp as [out' [-> Hp]]. f_equal.
  apply pass_at_link in Hp; [|assumption].
  apply pass_bracket_free in Hp;
    [assumption | assumption | now apply bracket_free_strip_newline].
Qed.

Lemma passes_bracket_free name : forall os s out,
  (forall o, In o os -> In o openings) ->
  bracket_free s -> passes os name s out -> out = s.
Proof.
  induction os as [|o os IH]; intros s out Hsub Hfree Hp; simpl in Hp.
  - assumption.
  - destruct Hp as [t [Hp Hps]].
    apply pass_bracket_free in Hp; [|apply Hsub; now left|assumption].
    subst t. apply IH; [|assumption|assumption].
    intros o' Ho'. apply Hsub. now right.
Qed.

End RemovalFacts.

Section RemovalProperties.
Context {UC : UnicodeCase}.

(** Property X2 ([remove_category_from_text], what is deleted): a link
    under the keyword [Category] in any letter case is
    removed whole - name, white space, sort key, brackets and the one
    newline after it - when the text around it has no opening bracket. *)
Theorem remove_category_from_text_exact
    (kw category_name n ws sk before after : str) :
  map ascii_tolower kw = py "category" ->
  same_text category_name n ->
  Forall (fun c => unicode_isspace c = true) ws ->
  sort_key sk ->
  bracket_free before -> bracket_free after ->
  remove_category_from_text
    (before ++ py "[[" ++ kw ++ py ":" ++ n ++ ws ++ sk ++ py "]]" ++ after)
    category_name
  = Ok (before ++ strip_newline after).
Proof.
  intros Hk Hn Hws Hsk Hb Ha.
  destruct (remove_passes
              (before ++ py "[[" ++ kw ++ py ":" ++ n ++ ws ++ sk
                 ++ py "]]" ++ after) category_name) as [out [Hr Hp]].
  rewrite Hr. f_equal.
  unfold openings in Hp. cbn [passes] in Hp.
  destruct Hp as [t1 [P1 Hrest]].
  replace (before ++ py "[[" ++ kw ++ py ":" ++ n ++ ws ++ sk
             ++ py "]]" ++ after)
    with (before ++ ((py "[[" ++ kw ++ py ":") ++ n ++ ws ++ sk ++ py "]]")
             ++ after) in P1
    by (now rewrite <- !app_assoc).
  apply pass_single_link in P1;
    [|now left|now apply category_spelling_is_link|assumption|assumption].
  subst t1.
  change (passes [py "[[category:"; py "[[" ++ tasnif ++ py ":";
                  py "[[CATEGORY:"] category_name
            (before ++ strip_newline after) out) in Hrest.
  apply passes_bracket_free in Hrest; [assumption| |].
  - intros o Ho. now right.
  - apply bracket_free_app. split;
      [assumption | now apply bracket_free_strip_newline].
Qed.

(** Property X3 ([remove_category_from_text], the Arabic keyword): a link
    under the Arabic keyword is removed whole in the same way, when no
    other opening bracket is in the text. *)
Theorem remove_category_from_text_exact_arabic
    (category_name n ws sk before after : str) :
  fixes_beyond_ascii ->
  same_text category_name n ->
  Forall (fun c => unicode_isspace c = true) ws ->
  sort_key sk ->
  bracket_free before -> bracket_free n -> bracket_free sk ->
  bracket_free after ->
  remove_category_from_text
    (before ++ py "[[" ++ tasnif ++ py ":" ++ n ++ ws ++ sk ++ py "]]"
       ++ after)
    category_name
  = Ok (before ++ strip_newline after).
Proof.
  intros Hfix Hn Hws Hsk Hb Hbn Hbsk Ha.
  set (text := before ++ py "[[" ++ tasnif ++ py ":" ++ n ++ ws ++ sk
                 ++ py "]]" ++ after).
  assert (Hbody : bracket_free (tasnif ++ py ":" ++ n ++ ws ++ sk
                                  ++ py "]]" ++ after)).
  { repeat (apply bracket_free_app; split); try assumption.
    - repeat constructor; discriminate.
    - repeat constructor; discriminate.
    - now apply spaces_bracket_free.
    - repeat constructor; discriminate. }
  assert (Hno : forall o,
            In o [py "[[Category:"; py "[[category:"; py "[[CATEGORY:"] ->
            forall before' s', text = before' ++ s' ->
            ~ link_starts o category_name s').
  { intros o Ho before' s' Heq Hl.
    assert (Hin : In o openings).
    { simpl in Ho. destruct Ho as [<-|[<-|[<-|[]]]];
        [now left | right; now left | right; right; right; now left]. }
    destruct (link_starts_brackets Hin Hl) as [s'' ->].
    destruct (@sole_brackets before _ before' s'' Hb Hbody Heq)
      as [-> ->].
    revert Hl. now apply arabic_spelling_not_category. }
  destruct (remove_passes text category_name) as [out [Hr Hp]].
  rewrite Hr. f_equal.
  unfold openings in Hp. cbn [passes] in Hp.
  destruct Hp as [t1 [P1 [t2 [P2 [t3 [P3 [t4 [P4 ->]]]]]]]].
  apply pass_no_link in P1; [|apply Hno; now left]. subst t1.
  apply pass_no_link in P2; [|apply Hno; right; now left]. subst t2.
  unfold text in P3.
  replace (before ++ py "[[" ++ tasnif ++ py ":" ++ n ++ ws ++ sk
             ++ py "]]" ++ after)
    with (before ++ ((py "[[" ++ tasnif ++ py ":") ++ n ++ ws ++ sk
                       ++ py "]]") ++ after) in P3
    by (now rewrite <- !app_assoc).
  apply pass_single_link in P3;
    [|right; right; now left| |assumption|assumption].
  - subst t3. apply pass_bracket_free in P4;
      [assumption | right; right; right; now left|].
    apply bracket_free_app. split;
      [assumption | now apply bracket_free_strip_newline].
  - exists (py "[[" ++ tasnif ++ py ":"), n, ws, sk.
    split; [reflexivity|]. split; [apply same_text_refl|]. now repeat split.
Qed.


End RemovalProperties.

Section LoopExtras.
Variable self : RedCategoryRemover.
Variable category_name : str.
Local Open Scope Z_scope.

Lemma is_missb_iff page :
  is_missb self category_name page = true <-> is_miss self category_name page.
Proof.
  unfold is_missb, is_miss. split.
  - intros H. apply andb_true_iff in H. destruct H as [Hns H].
    apply Z.eqb_eq in Hns. split; [assumption|].
    destruct (page_text page) as [text|e]; [|discriminate].
    exists text. split; [reflexivity|].
    destruct (method_check self text category_name) as [[|]|e];
      try discriminate. reflexivity.
  - intros [Hns [text [Ht Hc]]]. rewrite Hns, Ht, Hc. reflexivity.
Qed.

(** What one iteration adds: to the counters, to the edits and saves of the
    trace, and to the texts fetched. *)
Lemma iteration_account i n page f r f' :
  iteration self category_name i n page f (r, f') ->
  exists evs d,
    trace f' = trace f ++ evs
    /\ edits_made f' = edits_made f + d
    /\ edit_count evs = d
    /\ 0 <= d <= Z.of_nat (List.length (articles [page]))
    /\ (dry_run self = false -> d <= save_count evs)
    /\ fetched evs = map page_name (articles [page])
    /\ (forall last, exists last', io_run last evs = Some last').
Proof.
  assert (Hart : page_namespace page = 0 -> articles [page] = [page]).
  { intros H. unfold articles. simpl. now rewrite H. }
  assert (Hhit : forall text new_text,
            is_hit self category_name page text new_text ->
            articles [page] = [page]).
  { intros text new_text [Hns _]. now apply Hart. }
  intros H.
  inversion H as [Hns|e evs Hr|Hm Hlt|Hm Hge|text Hu|text new_text Hh Hd
                  |text new_text Hh Hd Hs]; subst.
  - exists [Log DEBUG (MsgSkippingNonArticle (page_name page))], 0.
    assert (Ha : articles [page] = []).
    { unfold articles. simpl. apply Z.eqb_neq in Hns. now rewrite Hns. }
    rewrite Ha. cbn. repeat split; try lia. intros last. now exists last.
  - exists (evs ++ [Log ERROR (MsgError (page_name page) e)]), 0.
    cbn [with_events trace edits_made].
    destruct Hr as [e Hns Ht|text e Hns Ht Hc|text e Hns Ht Hc Hr
                    |text new_text e Hh Hd Hs];
      try rewrite (Hart Hns); try rewrite (Hhit _ _ Hh);
      cbn; repeat split; try lia; intros last; try (now eexists).
    rewrite (proj2 (str_eqb_eq _ _) eq_refl). now eexists.
  - destruct Hm as [Hns _]. rewrite (Hart Hns).
    eexists; exists 0. cbn [trace edits_made].
    split; [reflexivity|]. cbn. repeat split; try lia.
    intros last. now eexists.
  - destruct Hm as [Hns _]. rewrite (Hart Hns).
    eexists; exists 0. cbn [trace edits_made].
    split; [reflexivity|]. cbn. repeat split; try lia.
    intros last. now eexists.
  - destruct Hu as [Hns _]. rewrite (Hart Hns).
    eexists; exists 0. cbn [with_events trace edits_made].
    split; [reflexivity|]. cbn. repeat split; try lia.
    intros last. now eexists.
  - rewrite (Hhit _ _ Hh).
    eexists; exists 1. cbn [trace edits_made].
    split; [reflexivity|]. cbn. repeat split; try lia.
    + intros Hlive. congruence.
    + intros last. now eexists.
  - rewrite (Hhit _ _ Hh).
    eexists; exists 1. cbn [trace edits_made].
    split; [reflexivity|]. cbn. repeat split; try lia.
    intros last. rewrite (proj2 (str_eqb_eq _ _) eq_refl). now eexists.
Qed.


Lemma save_count_app a b : save_count (a ++ b) = save_count a + save_count b.
Proof. unfold save_count. rewrite filter_app, length_app. lia. Qed.

Lemma io_run_app a : forall b last,
  io_run last (a ++ b) =
  match io_run last a with
  | Some last' => io_run last' b
  | None => None
  end.
Proof.
  induction a as [|ev a IH]; intros b last; simpl; [reflexivity|].
  destruct ev as [lv m|page|page new_text summary minor]; try apply IH.
  destruct last as [fetched_page|]; [|reflexivity].
  destruct (str_eqb page fetched_page); [apply IH | reflexivity].
Qed.

Lemma articles_app a b : articles (a ++ b) = articles a ++ articles b.
Proof. apply filter_app. Qed.

Lemma articles_length l : (List.length (articles l) <= List.length l)%nat.
Proof. apply filter_length_le. Qed.

(** What the loop adds, over the members it went through. *)
Lemma for_members_account : forall members i n f r f',
  for_members self category_name i n members f = (r, f') ->
  exists evs d k,
    trace f' = trace f ++ evs
    /\ edits_made f' = edits_made f + d
    /\ edit_count evs = d
    /\ 0 <= d <= Z.of_nat (List.length (articles (firstn k members)))
    /\ (dry_run self = false -> d <= save_count evs)
    /\ fetched evs = map page_name (articles (firstn k members))
    /\ (forall last, exists last', io_run last evs = Some last')
    /\ (r = Next tt -> firstn k members = members).
Proof.
  induction members as [|page more IH]; intros i n f r f' H.
  - injection H as <- <-. exists [], 0, 0%nat. rewrite app_nil_r.
    cbn. repeat split; try lia. intros last. now exists last.
  - rewrite for_members_step in H.
    pose proof (body_iteration self category_name i n page f) as Hit.
    destruct (loop_body self category_name i n page f) as [s1 f1].
    destruct (iteration_account Hit)
      as [evs1 [d1 [Ht1 [He1 [Hc1 [Hd1 [Hs1 [Hf1 Hio1]]]]]]]].
    assert (Hstop : forall r0, (r, f') = (r0, f1) -> r0 <> Next tt ->
              exists evs d k,
                trace f' = trace f ++ evs
                /\ edits_made f' = edits_made f + d
                /\ edit_count evs = d
                /\ 0 <= d
                   <= Z.of_nat (List.length (articles (firstn k (page :: more))))
                /\ (dry_run self = false -> d <= save_count evs)
                /\ fetched evs = map page_name (articles (firstn k (page :: more)))
                /\ (forall last, exists last', io_run last evs = Some last')
                /\ (r = Next tt -> firstn k (page :: more) = page :: more)).
    { intros r0 Heq Hr0. injection Heq as -> ->.
      exists evs1, d1, 1%nat. cbn [firstn].
      repeat split; try assumption; try lia. intros Hn. contradiction. }
    assert (Hgo : for_members self category_name (i + 1) n more f1 = (r, f') ->
              exists evs d k,
                trace f' = trace f ++ evs
                /\ edits_made f' = edits_made f + d
                /\ edit_count evs = d
                /\ 0 <= d
                   <= Z.of_nat (List.length (articles (firstn k (page :: more))))
                /\ (dry_run self = false -> d <= save_count evs)
                /\ fetched evs = map page_name (articles (firstn k (page :: more)))
                /\ (forall last, exists last', io_run last evs = Some last')
                /\ (r = Next tt -> firstn k (page :: more) = page :: more)).
    { intros Hrun.
      destruct (IH _ _ _ _ _ Hrun)
        as [evs2 [d2 [k [Ht2 [He2 [Hc2 [Hd2 [Hs2 [Hf2 [Hio2 Hk]]]]]]]]]].
      exists (evs1 ++ evs2), (d1 + d2), (S k).
      change (firstn (S k) (page :: more)) with ([page] ++ firstn k more).
      rewrite articles_app, length_app, map_app, edit_count_app,
        save_count_app, fetched_app, Nat2Z.inj_add.
      split; [now rewrite Ht2, Ht1, app_assoc|].
      split; [lia|]. split; [lia|]. split; [lia|].
      split; [intros Hl; specialize (Hs1 Hl); specialize (Hs2 Hl); lia|].
      split; [now rewrite Hf1, Hf2|]. split.
      - intros last. rewrite io_run_app.
        destruct (Hio1 last) as [l1 ->]. apply Hio2.
      - intros Hn. simpl. now rewrite (Hk Hn). }
    destruct s1 as [[]| |v|e].
    + now apply Hgo.
    + now apply Hgo.
    + apply (Hstop (Return v)); [now rewrite H | discriminate].
    + apply (Hstop (Raise e)); [now rewrite H | discriminate].
Qed.

(** The same for the whole method. *)
Lemma process_category_account members :
  exists v k,
    fst (process_category self category_name members) = Ok v
    /\ fst v = edit_count (snd (process_category self category_name members))
    /\ 0 <= fst v <= Z.of_nat (List.length (articles (firstn k members)))
    /\ (dry_run self = false ->
        fst v <= save_count (snd (process_category self category_name members)))
    /\ fetched (snd (process_category self category_name members))
       = map page_name (articles (firstn k members))
    /\ (forall last, exists last',
          io_run last (snd (process_category self category_name members))
          = Some last')
    /\ (snd v = false -> firstn k members = members).
Proof.
  destruct members as [|page more].
  - exists (0, false), 0%nat. cbn. repeat split; try lia.
    intros last. now eexists.
  - unfold process_category.
    rewrite process_category_body_loop by discriminate. cbv zeta.
    set (n := Z.of_nat (List.length (page :: more))).
    destruct (for_members self category_name 1 n (page :: more)
                (loop_entry category_name n)) as [r f] eqn:E.
    pose proof (for_members_signal _ _ _ _ _ _ E) as Hsig.
    pose proof (loop_entry_steady self category_name n) as _.
    destruct (for_members_account _ _ _ _ E)
      as [evs [d [k [Ht [He [Hc [Hd [Hs [Hf [Hio Hk]]]]]]]]]].
    cbn [loop_entry trace edits_made] in Ht, He.
    assert (Hcount : edit_count (trace f) = d).
    { rewrite Ht, edit_count_app, Hc. reflexivity. }
    assert (Hsave : save_count (trace f) = save_count evs).
    { rewrite Ht, save_count_app. reflexivity. }
    assert (Hfetch : fetched (trace f) = fetched evs).
    { rewrite Ht, fetched_app. reflexivity. }
    assert (Hrun : forall last, exists last',
              io_run last (trace f) = Some last').
    { intros last. rewrite Ht, io_run_app. cbn. apply Hio. }
    destruct Hsig as [->|[v ->]].
    + exists (edits_made f, false), k. cbn [fst snd].
      rewrite Hcount, Hsave, Hfetch, He.
      repeat split; try assumption; try lia. intros _. now apply Hk.
    + (* the loop returned: the pair is the one of the cut-over *)
      pose proof E as E'.
      exists v, k. cbn [fst snd]. rewrite Hcount, Hsave, Hfetch.
      assert (Hv : v = (edits_made f, true)).
      { clear - E. revert E. generalize (loop_entry category_name n) as f0.
        generalize 1 as i. generalize (page :: more) as ms.
        induction ms as [|p ms IH]; intros i f0 E; [discriminate|].
        rewrite for_members_step in E.
        pose proof (body_iteration self category_name i n p f0) as Hit.
        destruct (loop_body self category_name i n p f0) as [[[]| |v'|e'] f1];
          try (now apply IH in E); try discriminate.
        injection E as -> ->. now inversion Hit. }
      subst v. cbn [fst snd]. rewrite He.
      repeat split; try assumption; try lia; try (intros Hn; discriminate).
Qed.

(** The counter, iteration by iteration. *)
Lemma iteration_counter i n page f r f' :
  iteration self category_name i n page f (r, f') ->
  0 <= not_found_count f ->
  0 <= not_found_count f'
       <= not_found_count f
          + (if is_missb self category_name page then 1 else 0)
  /\ (forall v, r = Return v ->
        snd v = true /\ max_check self <= not_found_count f'
        /\ 1 <= not_found_count f'
        /\ is_missb self category_name page = true)
  /\ (is_missb self category_name page = false -> r <> Next tt ->
      r = Continue).
Proof.
  intros H Hnf.
  inversion H as [Hns|e evs Hr|Hm Hlt|Hm Hge|text Hu|text new_text Hh Hd
                  |text new_text Hh Hd Hs]; subst;
    cbn [with_events not_found_count];
    try (pose proof (proj2 (is_missb_iff page) Hm) as Hb; rewrite Hb);
    (split; [destruct (is_missb self category_name page); lia|]);
    (split; [intros v Hv; try discriminate
            |intros Hf Hn;
             first [reflexivity | now contradiction Hn | discriminate]]).
  injection Hv as <-. cbn [snd]. repeat split; lia.
Qed.

Lemma for_members_counter : forall members i n f r f',
  for_members self category_name i n members f = (r, f') ->
  0 <= not_found_count f ->
  0 <= not_found_count f'
       <= not_found_count f
          + Z.of_nat (List.length (filter (is_missb self category_name) members))
  /\ (forall v, r = Return v ->
        snd v = true /\ max_check self <= not_found_count f'
        /\ 1 <= not_found_count f').
Proof.
  induction members as [|page more IH]; intros i n f r f' H Hnf.
  - injection H as <- <-. cbn. split; [lia | discriminate].
  - rewrite for_members_step in H.
    pose proof (body_iteration self category_name i n page f) as Hit.
    destruct (loop_body self category_name i n page f) as [s1 f1].
    destruct (iteration_counter Hit Hnf) as [Hb [Hret _]].
    assert (Hlen : Z.of_nat (List.length
                     (filter (is_missb self category_name) (page :: more)))
                   = (if is_missb self category_name page then 1 else 0)
                     + Z.of_nat (List.length
                         (filter (is_missb self category_name) more))).
    { simpl. destruct (is_missb self category_name page); cbn [List.length]; lia. }
    rewrite Hlen.
    destruct s1 as [[]| |v|e].
    + destruct (IH _ _ _ _ _ H) as [Hb' Hret']; [lia|]. split; [lia|assumption].
    + destruct (IH _ _ _ _ _ H) as [Hb' Hret']; [lia|]. split; [lia|assumption].
    + injection H as <- <-. destruct (Hret v eq_refl) as [Hv [Hm [H1 _]]].
      split; [lia|]. intros v' Hv'. injection Hv' as <-. auto.
    + injection H as <- <-. split; [lia | discriminate].
Qed.


(** With a threshold of at most one the first miss ends the loop. *)
Lemma for_members_low_threshold : forall members i n f r f',
  max_check self <= 1 ->
  0 <= not_found_count f ->
  for_members self category_name i n members f = (r, f') ->
  (existsb (is_missb self category_name) members = true
   /\ exists v, r = Return v /\ snd v = true)
  \/ (existsb (is_missb self category_name) members = false /\ r = Next tt).
Proof.
  induction members as [|page more IH]; intros i n f r f' Hmax Hnf H.
  - injection H as <- <-. right. now split.
  - rewrite for_members_step in H. cbn [existsb].
    destruct (is_missb self category_name page) eqn:Hb.
    + apply is_missb_iff in Hb.
      rewrite (@body_cutover self category_name i n page f Hb) in H by lia.
      injection H as <- <-. left. split; [reflexivity|].
      now exists (edits_made f, true).
    + pose proof (body_iteration self category_name i n page f) as Hit.
      destruct (loop_body self category_name i n page f) as [s1 f1].
      destruct (iteration_counter Hit Hnf) as [Hbound [Hret Hcont]].
      rewrite Hb in *. cbn [orb].
      destruct s1 as [[]| |v|e].
      * apply (IH _ _ _ _ _ Hmax) in H; [assumption | lia].
      * apply (IH _ _ _ _ _ Hmax) in H; [assumption | lia].
      * destruct (Hret v eq_refl) as [_ [_ [_ Hm]]]. discriminate.
      * specialize (Hcont eq_refl). discriminate Hcont; discriminate.
Qed.


(** A dry run adds no call of [page.save]. *)
Lemma iteration_dry i n page f r f' :
  dry_run self = true ->
  iteration self category_name i n page f (r, f') ->
  save_count (trace f') = save_count (trace f).
Proof.
  intros Hdry H.
  inversion H as [Hns|e evs Hr|Hm Hlt|Hm Hge|text Hu|text new_text Hh Hd
                  |text new_text Hh Hd Hs]; subst;
    try congruence;
    cbn [with_events trace]; rewrite save_count_app;
    try (cbn; lia).
  destruct Hr as [e Hns Ht|text e Hns Ht Hc|text e Hns Ht Hc Hr
                  |text new_text e Hh Hd Hs]; try congruence; cbn; lia.
Qed.

Lemma for_members_dry : forall members i n f r f',
  dry_run self = true ->
  for_members self category_name i n members f = (r, f') ->
  save_count (trace f') = save_count (trace f).
Proof.
  induction members as [|page more IH]; intros i n f r f' Hdry H.
  - now injection H as <- <-.
  - rewrite for_members_step in H.
    pose proof (body_iteration self category_name i n page f) as Hit.
    destruct (loop_body self category_name i n page f) as [s1 f1].
    apply (iteration_dry Hdry) in Hit.
    destruct s1 as [[]| |v|e];
      try (apply (IH _ _ _ _ _ Hdry) in H; congruence);
      injection H as <- <-; assumption.
Qed.

Lemma process_category_dry members :
  dry_run self = true ->
  save_count (snd (process_category self category_name members)) = 0.
Proof.
  intros Hdry. destruct members as [|page more]; [reflexivity|].
  unfold process_category.
  rewrite process_category_body_loop by discriminate. cbv zeta.
  set (n := Z.of_nat (List.length (page :: more))).
  destruct (for_members self category_name 1 n (page :: more)
              (loop_entry category_name n)) as [r f] eqn:E.
  pose proof (for_members_signal _ _ _ _ _ _ E) as Hsig.
  apply (for_members_dry _ _ _ _ Hdry) in E.
  destruct Hsig as [->|[v ->]]; cbn [snd]; rewrite E; reflexivity.
Qed.

End LoopExtras.

(** * Further properties of [process_category] *)

Section LoopProperties.
Local Open Scope Z_scope.

Variable self : RedCategoryRemover.
Variable category_name : str.

(** Property X5 ([process_category], the value returned): the method always
    returns a pair; the number of edits in it is the number of edits its
    log reports, it is at most the number of articles among the members
    and, when the remover writes to the wiki, at most the number of calls
    of [page.save]. *)
Theorem returned_edits_are_logged_edits (members : list Page) :
  exists edits skipped,
    fst (process_category self category_name members) = Ok (edits, skipped)
    /\ edits = edit_count (snd (process_category self category_name members))
    /\ 0 <= edits <= Z.of_nat (List.length (articles members))
    /\ (dry_run self = false ->
        edits <= save_count (snd (process_category self category_name members))).
Proof.
  destruct (process_category_account self category_name members)
    as [[edits skipped] [k [Hv [He [Hb [Hs _]]]]]].
  exists edits, skipped. cbn [fst] in *.
  split; [assumption|]. split; [assumption|]. split; [|assumption].
  assert (Hk : (List.length (articles (firstn k members))
                <= List.length (articles members))%nat).
  { rewrite <- (firstn_skipn k members) at 2.
    rewrite articles_app, length_app. lia. }
  lia.
Qed.

(** Property X6 ([process_category], the texts fetched): the texts fetched
    are those of the articles of an initial part of the member list, one
    fetch each and in the order of the list, so no page outside the main
    namespace is fetched; when the category is not skipped, every article
    of the list is fetched. *)
Theorem texts_fetched_in_listing_order (members : list Page) :
  exists k,
    fetched (snd (process_category self category_name members))
    = map page_name (articles (firstn k members))
    /\ (forall edits,
          fst (process_category self category_name members)
          = Ok (edits, false) ->
          fetched (snd (process_category self category_name members))
          = map page_name (articles members)).
Proof.
  destruct (process_category_account self category_name members)
    as [v [k [Hv [_ [_ [_ [Hf [_ Hk]]]]]]]].
  exists k. split; [assumption|].
  intros edits He. rewrite He in Hv. injection Hv as <-.
  rewrite Hf, (Hk eq_refl). reflexivity.
Qed.

(** Property X7 ([process_category], the order of the calls): a page is
    saved only right after its own text was fetched, and at most once per
    fetch. *)
Theorem save_follows_fetch_of_same_page (members : list Page) :
  exists last,
    io_run None (snd (process_category self category_name members))
    = Some last.
Proof.
  destruct (process_category_account self category_name members)
    as [v [k [_ [_ [_ [_ [_ [Hio _]]]]]]]].
  exact (Hio None).
Qed.

(** Property X8 ([process_category], when a category is skipped): a category
    is skipped only if at least [max_check] of its members, and at least
    one, are articles whose text was read and found without the
    category. *)
Theorem skipped_needs_misses (members : list Page) (edits : Z) :
  fst (process_category self category_name members) = Ok (edits, true) ->
  max_check self
  <= Z.of_nat (List.length (filter (is_missb self category_name) members))
  /\ 1 <= Z.of_nat (List.length (filter (is_missb self category_name) members)).
Proof.
  destruct members as [|page more]; [discriminate|].
  unfold process_category.
  rewrite process_category_body_loop by discriminate. cbv zeta.
  set (n := Z.of_nat (List.length (page :: more))).
  destruct (for_members self category_name 1 n (page :: more)
              (loop_entry category_name n)) as [r f] eqn:E.
  pose proof (for_members_signal _ _ _ _ _ _ E) as Hsig.
  assert (H0 : 0 <= not_found_count (loop_entry category_name n))
    by (cbn; lia).
  destruct (@for_members_counter self category_name _ _ _ _ _ _ E H0)
    as [Hb Hret].
  cbn [loop_entry not_found_count] in Hb.
  destruct Hsig as [->|[v ->]]; [discriminate|].
  intros _. destruct (Hret v eq_refl) as [_ [Hm H1]]. lia.
Qed.

(** Property X9 ([process_category], thresholds of at most one): with
    [max_check] at most 1 the category is skipped exactly when one of its
    members is an article whose text was read and found without the
    category. *)
Theorem low_threshold_skips_at_first_miss (members : list Page) :
  max_check self <= 1 ->
  exists edits,
    fst (process_category self category_name members)
    = Ok (edits, existsb (is_missb self category_name) members).
Proof.
  intros Hmax. destruct members as [|page more]; [now exists 0|].
  unfold process_category.
  rewrite process_category_body_loop by discriminate. cbv zeta.
  set (n := Z.of_nat (List.length (page :: more))).
  destruct (for_members self category_name 1 n (page :: more)
              (loop_entry category_name n)) as [r f] eqn:E.
  assert (H0 : 0 <= not_found_count (loop_entry category_name n))
    by (cbn; lia).
  destruct (@for_members_low_threshold self category_name _ _ _ _ _ _
              Hmax H0 E)
    as [[-> [[edits skipped] [-> Hs]]]|[-> ->]].
  - cbn [snd] in Hs. subst skipped. now exists edits.
  - now exists (edits_made f).
Qed.

End LoopProperties.

(** ** Members outside the main namespace *)

Section NamespaceFacts.
Local Open Scope Z_scope.

Variable self : RedCategoryRemover.
Variable category_name : str.

(** The signal and the two counters of an iteration depend on the page and
    on the counters only, not on the position in the list or on the log. *)
Lemma body_counters i n i' n' page f g :
  edits_made f = edits_made g ->
  not_found_count f = not_found_count g ->
  fst (loop_body self category_name i n page f)
  = fst (loop_body self category_name i' n' page g)
  /\ edits_made (snd (loop_body self category_name i n page f))
     = edits_made (snd (loop_body self category_name i' n' page g))
  /\ not_found_count (snd (loop_body self category_name i n page f))
     = not_found_count (snd (loop_body self category_name i' n' page g)).
Proof.
  intros He Hn.
  pose proof (body_iteration self category_name i n page f) as Hit.
  destruct (loop_body self category_name i n page f) as [r f'].
  inversion Hit as [Hns|e evs Hr|Hm Hlt|Hm Hge|text Hu|text new_text Hh Hd
                    |text new_text Hh Hd Hs]; subst; cbn [fst snd].
  - rewrite (@body_non_main self category_name i' n' page g Hns).
    cbn. auto.
  - assert (Hr' : exists evs', raises self category_name i' n' page e evs').
    { destruct Hr as [e Hns Ht|text e Hns Ht Hc|text e Hns Ht Hc Hr
                      |text new_text e Hh Hd Hs]; eexists.
      - eapply raises_text; eassumption.
      - eapply raises_check; eassumption.
      - eapply raises_remove; eassumption.
      - eapply raises_save; eassumption. }
    destruct Hr' as [evs' Hr'].
    rewrite (@body_raises self category_name i' n' page g e evs' Hr').
    cbn. auto.
  - rewrite (@body_miss self category_name i' n' page g Hm) by lia.
    cbn. auto with zarith.
  - rewrite (@body_cutover self category_name i' n' page g Hm) by lia.
    cbn. rewrite He, Hn. auto.
  - rewrite (@body_unchanged self category_name i' n' page g text Hu).
    cbn. auto.
  - rewrite (@body_hit_dry_run self category_name i' n' page g text new_text
               Hh Hd).
    cbn. rewrite He. auto.
  - rewrite (@body_hit_saved self category_name i' n' page g text new_text
               Hh Hd Hs).
    cbn. rewrite He. auto.
Qed.

(** The loop over all members and the loop over the articles among them
    end with the same signal and the same counters. *)
Lemma for_members_articles : forall members i n i' n' f g,
  edits_made f = edits_made g ->
  not_found_count f = not_found_count g ->
  fst (for_members self category_name i n members f)
  = fst (for_members self category_name i' n' (articles members) g)
  /\ edits_made (snd (for_members self category_name i n members f))
     = edits_made
         (snd (for_members self category_name i' n' (articles members) g)).
Proof.
  induction members as [|page more IH]; intros i n i' n' f g He Hn.
  - cbn. auto.
  - rewrite for_members_step.
    destruct (Z.eq_dec (page_namespace page) 0) as [Hns|Hns].
    + assert (Ha : articles (page :: more) = page :: articles more).
      { unfold articles. simpl. now rewrite Hns. }
      rewrite Ha, for_members_step.
      generalize (@body_counters i n i' n' page f g He Hn).
      destruct (loop_body self category_name i n page f) as [r f1].
      destruct (loop_body self category_name i' n' page g) as [r' g1].
      cbn [fst snd]. intros [<- [He' Hn']].
      destruct r as [[]| |v|e]; cbn [fst snd]; auto.
    + assert (Ha : articles (page :: more) = articles more).
      { unfold articles. simpl. apply Z.eqb_neq in Hns. now rewrite Hns. }
      rewrite Ha, (@body_non_main self category_name i n page f Hns).
      apply IH; assumption.
Qed.

End NamespaceFacts.

Section NamespaceProperties.
Local Open Scope Z_scope.

(** Property X10 ([process_category], other namespaces): the members
    outside the main namespace have no part in what the method returns:
    the pair of edits and skip flag is the one returned for the articles
    alone. *)
Theorem other_namespaces_do_not_count (self : RedCategoryRemover)
    (category_name : str) (members : list Page) :
  fst (process_category self category_name members)
  = fst (process_category self category_name (articles members)).
Proof.
  destruct members as [|page more]; [reflexivity|].
  unfold process_category at 1.
  rewrite process_category_body_loop by discriminate. cbv zeta.
  set (n := Z.of_nat (List.length (page :: more))).
  destruct (articles (page :: more)) as [|page' more'] eqn:Ea.
  - destruct (@for_members_articles self category_name (page :: more)
                1 n 1 n (loop_entry category_name n)
                (loop_entry category_name n) eq_refl eq_refl) as [Hr He].
    rewrite Ea in Hr, He.
    change (for_members self category_name 1 n [] (loop_entry category_name n))
      with (@Next unit tt, loop_entry category_name n) in Hr, He.
    cbn [fst snd loop_entry edits_made] in Hr, He. revert Hr He.
    destruct (for_members self category_name 1 n (page :: more)
                (loop_entry category_name n)) as [r f].
    cbn [fst snd]. intros -> ->. reflexivity.
  - unfold process_category.
    rewrite process_category_body_loop by discriminate. cbv zeta.
    set (n' := Z.of_nat (List.length (page' :: more'))).
    destruct (@for_members_articles self category_name (page :: more)
                1 n 1 n' (loop_entry category_name n)
                (loop_entry category_name n') eq_refl eq_refl) as [Hr He].
    rewrite Ea in Hr, He. revert Hr He.
    destruct (for_members self category_name 1 n (page :: more)
                (loop_entry category_name n)) as [r f].
    destruct (for_members self category_name 1 n' (page' :: more')
                (loop_entry category_name n')) as [r' f'] eqn:E'.
    cbn [fst snd]. intros -> He.
    pose proof (for_members_signal _ _ _ _ _ _ E') as [->|[v ->]];
      cbn [fst]; [now rewrite He | reflexivity].
Qed.

End NamespaceProperties.

(** * Errors on a page *)

Section ErrorFacts.
Local Open Scope Z_scope.

Variable self : RedCategoryRemover.
Variable category_name : str.

(** Whether a page raises, and what, does not depend on its position. *)
Lemma raises_anywhere i n i' n' page e evs :
  raises self category_name i n page e evs ->
  exists evs', raises self category_name i' n' page e evs'.
Proof.
  intros Hr.
  destruct Hr as [e Hns Ht|text e Hns Ht Hc|text e Hns Ht Hc Hr
                  |text new_text e Hh Hd Hs]; eexists.
  - eapply raises_text; eassumption.
  - eapply raises_check; eassumption.
  - eapply raises_remove; eassumption.
  - eapply raises_save; eassumption.
Qed.

(** The [try] block on a page that raises. *)
Lemma try_block_raises i n page f e evs :
  raises self category_name i n page e evs ->
  try_block self category_name i n page f = (Raise e, with_events f evs).
Proof.
  intros H.
  destruct H as [e Hns Ht|text e Hns Ht Hc|text e Hns Ht Hc Hr
                 |text new_text e [Hns [Ht [Hc [Hr Hne]]]] Hd Hs];
    unfold try_block, call_text, call_save, logger, emit, of_result, bind,
      ret, continue_, return_, get_edits_made, get_not_found_count,
      set_edits_made, set_not_found_count, with_events, checking; simpl;
    rewrite Hns; simpl; rewrite Ht; simpl.
  - rewrite <- ?app_assoc. reflexivity.
  - rewrite Hc. simpl. rewrite <- ?app_assoc. reflexivity.
  - rewrite Hc. simpl. rewrite Hr. simpl. rewrite <- ?app_assoc. reflexivity.
  - rewrite Hc. simpl. rewrite Hr. simpl.
    rewrite (@str_eqb_neq new_text text Hne), Hd. simpl.
    rewrite Hs. simpl. rewrite <- ?app_assoc. reflexivity.
Qed.

(** The same members from frames with the same counters, at other
    positions: the same signal and the same edits. *)
Lemma for_members_counters : forall members i n i' n' f g,
  edits_made f = edits_made g ->
  not_found_count f = not_found_count g ->
  fst (for_members self category_name i n members f)
  = fst (for_members self category_name i' n' members g)
  /\ edits_made (snd (for_members self category_name i n members f))
     = edits_made (snd (for_members self category_name i' n' members g)).
Proof.
  induction members as [|page more IH]; intros i n i' n' f g He Hn.
  - cbn. auto.
  - rewrite !for_members_step.
    generalize (@body_counters self category_name i n i' n' page f g He Hn).
    destruct (loop_body self category_name i n page f) as [r f1].
    destruct (loop_body self category_name i' n' page g) as [r' g1].
    cbn [fst snd]. intros [<- [He' Hn']].
    destruct r as [[]| |v|e]; cbn [fst snd]; auto.
Qed.

(** The loop with and without a page that raises. *)
Lemma for_members_without page e evs0 i0 n0 more :
  raises self category_name i0 n0 page e evs0 ->
  forall pre i n i' n' f g,
    edits_made f = edits_made g ->
    not_found_count f = not_found_count g ->
    fst (for_members self category_name i n (pre ++ page :: more) f)
    = fst (for_members self category_name i' n' (pre ++ more) g)
    /\ edits_made
         (snd (for_members self category_name i n (pre ++ page :: more) f))
       = edits_made
           (snd (for_members self category_name i' n' (pre ++ more) g)).
Proof.
  intros Hr. induction pre as [|p pre IH]; intros i n i' n' f g He Hn.
  - cbn [app]. rewrite for_members_step.
    destruct (@raises_anywhere i0 n0 i n page e evs0 Hr) as [evs Hr'].
    rewrite (@body_raises self category_name i n page f e evs Hr').
    apply for_members_counters; cbn; assumption.
  - rewrite <- !app_comm_cons, !for_members_step.
    generalize (@body_counters self category_name i n i' n' p f g He Hn).
    destruct (loop_body self category_name i n p f) as [r f1].
    destruct (loop_body self category_name i' n' p g) as [r' g1].
    cbn [fst snd]. intros [<- [He' Hn']].
    destruct r as [[]| |v|e']; cbn [fst snd]; auto.
Qed.

(** A loop that comes to its end has logged the error of each page that
    raised. *)
Lemma for_members_error_logged page e evs0 i0 n0 more :
  raises self category_name i0 n0 page e evs0 ->
  forall pre i n f f',
    for_members self category_name i n (pre ++ page :: more) f
    = (Next tt, f') ->
    In (Log ERROR (MsgError (page_name page) e)) (trace f').
Proof.
  intros Hr. induction pre as [|p pre IH]; intros i n f f' H.
  - cbn [app] in H. rewrite for_members_step in H.
    destruct (@raises_anywhere i0 n0 i n page e evs0 Hr) as [evs Hr'].
    rewrite (@body_raises self category_name i n page f e evs Hr') in H.
    destruct (for_members_trace _ _ _ _ _ _ H) as [later [Ht _]].
    rewrite Ht. cbn [with_events trace].
    apply in_or_app. left. apply in_or_app. right.
    apply in_or_app. right. now left.
  - rewrite <- app_comm_cons, for_members_step in H.
    destruct (loop_body self category_name i n p f) as [[[]| |v|e'] f1];
      try discriminate; eapply IH; eassumption.
Qed.

(** The method on a list with a page that raises, and on the list without
    the page. *)
Lemma process_category_without page e evs0 i0 n0 pre more :
  raises self category_name i0 n0 page e evs0 ->
  fst (process_category self category_name (pre ++ page :: more))
  = fst (process_category self category_name (pre ++ more)).
Proof.
  intros Hr.
  assert (Hne : pre ++ page :: more <> []) by (now destruct pre).
  unfold process_category at 1.
  rewrite process_category_body_loop by exact Hne. cbv zeta.
  set (n := Z.of_nat (List.length (pre ++ page :: more))).
  destruct (pre ++ more) as [|q rest] eqn:El.
  - destruct (@for_members_without page e evs0 i0 n0 more Hr pre
                1 n 1 n (loop_entry category_name n)
                (loop_entry category_name n) eq_refl eq_refl) as [Hs He].
    rewrite El in Hs, He.
    change (for_members self category_name 1 n [] (loop_entry category_name n))
      with (@Next unit tt, loop_entry category_name n) in Hs, He.
    cbn [fst snd loop_entry edits_made] in Hs, He. revert Hs He.
    destruct (for_members self category_name 1 n (pre ++ page :: more)
                (loop_entry category_name n)) as [r f].
    cbn [fst snd]. intros -> ->. reflexivity.
  - unfold process_category.
    rewrite process_category_body_loop by discriminate. cbv zeta.
    set (n' := Z.of_nat (List.length (q :: rest))).
    destruct (@for_members_without page e evs0 i0 n0 more Hr pre
                1 n 1 n' (loop_entry category_name n)
                (loop_entry category_name n') eq_refl eq_refl) as [Hs He].
    rewrite El in Hs, He. revert Hs He.
    destruct (for_members self category_name 1 n (pre ++ page :: more)
                (loop_entry category_name n)) as [r f].
    destruct (for_members self category_name 1 n' (q :: rest)
                (loop_entry category_name n')) as [r' f'] eqn:E'.
    cbn [fst snd]. intros -> He.
    pose proof (for_members_signal _ _ _ _ _ _ E') as [->|[v ->]];
      cbn [fst]; [now rewrite He | reflexivity].
Qed.

(** A category that is not skipped has the error of each page that raised
    in its log. *)
Lemma process_category_error_logged page e evs0 i0 n0 pre more edits :
  raises self category_name i0 n0 page e evs0 ->
  fst (process_category self category_name (pre ++ page :: more))
  = Ok (edits, false) ->
  In (Log ERROR (MsgError (page_name page) e))
    (snd (process_category self category_name (pre ++ page :: more))).
Proof.
  intros Hr.
  assert (Hne : pre ++ page :: more <> []) by (now destruct pre).
  unfold process_category.
  rewrite process_category_body_loop by exact Hne. cbv zeta.
  set (n := Z.of_nat (List.length (pre ++ page :: more))).
  destruct (for_members self category_name 1 n (pre ++ page :: more)
              (loop_entry category_name n)) as [r f] eqn:E.
  pose proof (for_members_signal _ _ _ _ _ _ E) as Hsig.
  assert (H0 : 0 <= not_found_count (loop_entry category_name n))
    by (cbn; lia).
  destruct (@for_members_counter self category_name _ _ _ _ _ _ E H0)
    as [_ Hret].
  destruct Hsig as [->|[v ->]]; cbn [fst snd].
  - intros _.
    exact (@for_members_error_logged page e evs0 i0 n0 more Hr pre 1 n
             (loop_entry category_name n) f E).
  - destruct (Hret v eq_refl) as [Hv _]. intros Heq.
    injection Heq as ->. discriminate Hv.
Qed.

End ErrorFacts.

Section ErrorClaim.
Local Open Scope Z_scope.

(** Claim C6.  Let a page raise [e] while it is processed: in
    [page.text()], in one of the two text methods, or in [page.save(...)]
    on a changed text of a live remover ([raises], after the events [evs]).
    Then the [try] block raises [e]; the handler logs the error with the
    page name and the iteration ends with [continue]; [edits_made] and the
    counter are as they were before the page, at any frame; and the loop goes
    on with the remaining members.  For the whole method, with the page at
    any place in the member list: [process_category] returns a pair and
    lets no exception out, the pair is the one it returns for the list
    without the page, and when the category is not skipped the error of the
    page is in the log. *)
Theorem page_error_is_contained
    (self : RedCategoryRemover) (category_name : str) (i n : Z)
    (page : Page) (pre more : list Page) (f : frame) (e : exn)
    (evs : list event) :
  raises self category_name i n page e evs ->
  let f' := with_events f (evs ++ [Log ERROR (MsgError (page_name page) e)]) in
  try_block self category_name i n page f = (Raise e, with_events f evs)
  /\ loop_body self category_name i n page f = (Continue, f')
  /\ edits_made f' = edits_made f
  /\ not_found_count f' = not_found_count f
  /\ for_members self category_name i n (page :: more) f
     = for_members self category_name (i + 1) n more f'
  /\ (exists v,
        fst (process_category self category_name (pre ++ page :: more))
        = Ok v)
  /\ fst (process_category self category_name (pre ++ page :: more))
     = fst (process_category self category_name (pre ++ more))
  /\ (forall edits,
        fst (process_category self category_name (pre ++ page :: more))
        = Ok (edits, false) ->
        In (Log ERROR (MsgError (page_name page) e))
          (snd (process_category self category_name (pre ++ page :: more)))).
Proof.
  intros Hr f'.
  assert (Hb : loop_body self category_name i n page f = (Continue, f'))
    by (now apply body_raises).
  split; [now apply try_block_raises|].
  split; [exact Hb|]. split; [reflexivity|]. split; [reflexivity|].
  split; [rewrite for_members_step, Hb; reflexivity|].
  split; [apply process_category_returns|].
  split; [eapply process_category_without; eassumption|].
  intros edits He. eapply process_category_error_logged; eassumption.
Qed.

End ErrorClaim.

(** ** The connection, the two listings and the run *)

Import Driver.

Section DriverFacts.
Local Open Scope Z_scope.

Lemma after_colon_prefix (prefix rest : str) :
  colon_free prefix -> after_colon (prefix ++ py ":" ++ rest) = Some rest.
Proof.
  induction 1 as [|c prefix Hc _ IH];
    [reflexivity|].
  rewrite <- app_comm_cons. cbn [after_colon].
  destruct (N.eqb_spec c (ch ":")) as [->|_]; [now contradiction Hc|].
  exact IH.
Qed.

Lemma after_colon_none (s : str) : colon_free s -> after_colon s = None.
Proof.
  induction 1 as [|c s Hc _ IH]; [reflexivity|].
  cbn [after_colon].
  destruct (N.eqb_spec c (ch ":")) as [->|_]; [now contradiction Hc|].
  exact IH.
Qed.

Lemma cat_name_of_title (t : option str * str) :
  colon_free (title_head t) -> cat_name_of (title_of t) = snd t.
Proof.
  destruct t as [[prefix|] name]; unfold title_head, title_of, cat_name_of;
    cbn [fst snd]; intros H.
  - now rewrite after_colon_prefix.
  - now rewrite after_colon_none.
Qed.

Lemma wanted_cats_titles (titles : list (option str * str)) :
  Forall (fun t => colon_free (title_head t)) titles ->
  wanted_cats (map (fun t => Some (title_of t)) titles) = Ok (map snd titles).
Proof.
  induction 1 as [|t titles Ht _ IH]; [reflexivity|].
  cbn [map wanted_cats]. rewrite IH, (cat_name_of_title _ Ht). reflexivity.
Qed.

Lemma wanted_cats_untitled (items : list (option str)) :
  In None items -> wanted_cats items = Raised (Exception "KeyError: 'title'").
Proof.
  induction items as [|[cat_title|] more IH]; intros H;
    [contradiction | | reflexivity].
  destruct H as [H|H]; [discriminate|].
  cbn [wanted_cats]. now rewrite (IH H).
Qed.

Lemma page_events_app a b : page_events (a ++ b) = page_events a ++ page_events b.
Proof.
  induction a as [|ev a IH]; [reflexivity|].
  destruct ev; simpl; now rewrite IH.
Qed.

Lemma page_events_on_page evs : page_events (map OnPage evs) = evs.
Proof. induction evs as [|ev evs IH]; [reflexivity|]. simpl. now rewrite IH. Qed.

Lemma page_events_none evs :
  Forall (fun ev => forall e, ev <> OnPage e) evs -> page_events evs = [].
Proof.
  induction 1 as [|ev evs Hev _ IH]; [reflexivity|].
  destruct ev; simpl; try exact IH. now contradiction (Hev ev).
Qed.

Ltac listing :=
  repeat (apply Forall_cons || apply Forall_nil);
  first [left; eexists; reflexivity | right; eexists; reflexivity].

Lemma listing_events site category_name :
  Forall (fun ev => (exists title, ev = CallMembers title)
                    \/ exists e, ev = RunLog ERROR (MsgFailedMembers category_name e))
    (snd (get_category_members site category_name)).
Proof.
  unfold get_category_members.
  destruct (site_members site (py "Category:" ++ category_name))
    as [[|page more]|e]; cbn [snd].
  - destruct (site_members site category_name) as [members|e];
      cbn [snd app]; listing.
  - listing.
  - listing.
Qed.

Lemma listing_page_events site category_name :
  page_events (snd (get_category_members site category_name)) = [].
Proof.
  apply page_events_none.
  eapply Forall_impl; [|apply listing_events].
  intros ev [[title ->]|[e ->]] e'; discriminate.
Qed.

Lemma process_category_on_fst site self category_name :
  fst (process_category_on site self category_name)
  = fst (process_category self category_name
           (fst (get_category_members site category_name))).
Proof.
  unfold process_category_on.
  destruct (get_category_members site category_name) as [members listing].
  cbn [fst]. now destruct (process_category self category_name members).
Qed.

Lemma process_category_on_page_events site self category_name :
  page_events (snd (process_category_on site self category_name))
  = snd (process_category self category_name
           (fst (get_category_members site category_name))).
Proof.
  unfold process_category_on.
  pose proof (listing_page_events site category_name) as Hl.
  destruct (get_category_members site category_name) as [members listing].
  cbn [fst snd] in *.
  destruct (process_category self category_name members) as [r evs].
  cbn [fst snd] in *.
  rewrite !page_events_app, !page_events_on_page, Hl. cbn [app].
  apply firstn_skipn.
Qed.

(** The events of [process_category] hold none of the log lines of the
    loop of [run]. *)
Lemma process_category_on_filter (keep : run_event -> bool) site self
    category_name :
  (forall ev, keep (OnPage ev) = false) ->
  (forall title, keep (CallMembers title) = false) ->
  (forall name e, keep (RunLog ERROR (MsgFailedMembers name e)) = false) ->
  filter keep (snd (process_category_on site self category_name)) = [].
Proof.
  intros Hp Hm He. unfold process_category_on.
  pose proof (listing_events site category_name) as Hl.
  destruct (get_category_members site category_name) as [members listing].
  destruct (process_category self category_name members) as [r evs].
  cbn [fst snd] in *.
  assert (Hon : forall l, filter keep (map OnPage l) = []).
  { induction l as [|ev l IH]; [reflexivity|]. simpl. now rewrite Hp. }
  rewrite !filter_app, !Hon. cbn [app]. rewrite app_nil_r.
  induction Hl as [|ev listing Hev _ IH]; [reflexivity|].
  simpl. destruct Hev as [[title ->]|[e ->]].
  - now rewrite Hm.
  - now rewrite He.
Qed.

(** What the loop of [run] adds to the totals and to the events. *)
Lemma run_loop_account site self : forall wanted i n t s t' s' evs,
  run_loop site self i n wanted t s = (t', s', evs) ->
  t' = t + edit_count (page_events evs)
  /\ s <= s' <= s + Z.of_nat (List.length wanted)
  /\ filter is_category_error evs = []
  /\ List.length (filter is_announcement evs) = List.length wanted
  /\ filter is_login evs = []
  /\ (dry_run self = true -> save_count (page_events evs) = 0)
  /\ (forall last, exists last', io_run last (page_events evs) = Some last').
Proof.
  induction wanted as [|category_name more IH]; intros i n t s t' s' evs H.
  - injection H as <- <- <-. cbn. repeat split; try lia.
    intros last. now exists last.
  - cbn [run_loop] in H.
    pose proof (process_category_on_fst site self category_name) as Hfst.
    pose proof (process_category_on_page_events site self category_name) as Hev.
    pose proof (@process_category_on_filter is_category_error site self
                  category_name (fun _ => eq_refl) (fun _ => eq_refl)
                  (fun _ _ => eq_refl)) as Hce.
    pose proof (@process_category_on_filter is_announcement site self
                  category_name (fun _ => eq_refl) (fun _ => eq_refl)
                  (fun _ _ => eq_refl)) as Han.
    pose proof (@process_category_on_filter is_login site self
                  category_name (fun _ => eq_refl) (fun _ => eq_refl)
                  (fun _ _ => eq_refl)) as Hlg.
    destruct (process_category_account self category_name
                (fst (get_category_members site category_name)))
      as [[edits skipped] [k [Hv [He [_ [_ [_ [Hio _]]]]]]]].
    pose proof (@process_category_dry self category_name
                  (fst (get_category_members site category_name))) as Hdry.
    destruct (process_category_on site self category_name) as [returned events].
    cbn [fst snd] in *. subst returned. rewrite Hv in H.
    cbv beta iota in H.
    destruct (run_loop site self (i + 1) n more (t + edits)
                (if skipped then s + 1 else s)) as [[t1 s1] later] eqn:E.
    injection H as <- <- <-.
    destruct (IH _ _ _ _ _ _ _ E) as [Ht [Hs [Hc [Ha [Hl [Hd Hr]]]]]].
    cbn [page_events filter is_category_error is_announcement is_login].
    rewrite !page_events_app, !filter_app, edit_count_app, save_count_app,
      Hce, Han, Hlg, Hc, Hl, Hev, <- He.
    cbn [app List.length]. rewrite Ha.
    split; [lia|]. split; [destruct skipped; lia|].
    split; [reflexivity|]. split; [reflexivity|]. split; [reflexivity|].
    split.
    + intros Hdr. rewrite (Hdry Hdr), (Hd Hdr). reflexivity.
    + intros last. rewrite io_run_app.
      destruct (Hio last) as [l1 ->]. apply Hr.
Qed.

Lemma connect_page_events mwclient account :
  page_events (snd (connect mwclient account)) = []
  /\ filter on_members (snd (connect mwclient account)) = []
  /\ filter past_connection (snd (connect mwclient account)) = []
  /\ filter is_category_error (snd (connect mwclient account)) = [].
Proof.
  unfold connect.
  destruct (mwclient (site_url account)) as [site|e]; [|now cbn].
  destruct (truthy (username account) && truthy (password account));
    [|now cbn].
  destruct (site_login site (username account) (password account));
    now cbn.
Qed.

Lemma wanted_page_events site :
  page_events (snd (get_wanted_categories site)) = []
  /\ filter on_members (snd (get_wanted_categories site)) = []
  /\ filter is_category_error (snd (get_wanted_categories site)) = [].
Proof.
  unfold get_wanted_categories.
  destruct (site_api_wanted site) as [[[items|]|]|e]; try now cbn.
  destruct (wanted_cats items); now cbn.
Qed.

End DriverFacts.

(** * Properties of the connection, the listings and the run *)

Section DriverProperties.
Local Open Scope Z_scope.

(** Property X11 ([get_wanted_categories], the names): when every title of
    the answer is a name behind a prefix without colon, or a bare name
    without colon, the method returns the names in the order of the
    answer, a name keeping the colons of its own, after one call of the
    API. *)
Theorem wanted_names_follow_first_colon (site : Site)
    (titles : list (option str * str)) :
  Forall (fun t => colon_free (title_head t)) titles ->
  site_api_wanted site
  = Ok (Some (Some (map (fun t => Some (title_of t)) titles))) ->
  get_wanted_categories site
  = (map snd titles,
     [RunLog INFO MsgFetchingWanted; CallApi;
      RunLog INFO (MsgFoundWanted (Z.of_nat (List.length titles)))]).
Proof.
  intros Hfree Hapi. unfold get_wanted_categories.
  rewrite Hapi, (wanted_cats_titles Hfree), length_map. reflexivity.
Qed.

(** Property X12 ([get_wanted_categories], an item without title): one item
    without ['title'] in the answer makes the method log the error and
    return the empty list, whatever the other items are. *)
Theorem item_without_title_loses_all (site : Site)
    (items : list (option str)) :
  site_api_wanted site = Ok (Some (Some items)) ->
  In None items ->
  get_wanted_categories site
  = ([],
     [RunLog INFO MsgFetchingWanted; CallApi;
      RunLog ERROR (MsgFailedWanted (Exception "KeyError: 'title'"))]).
Proof.
  intros Hapi Hin. unfold get_wanted_categories.
  rewrite Hapi, (wanted_cats_untitled _ Hin). reflexivity.
Qed.

(** Property X13 ([get_category_members] in [process_category]): when the
    listing under the title with the [Category:] prefix raises, the bare
    name is not tried, the error is logged, and [process_category] returns
    [(0, False)] as for a category without members, with no call on any
    page. *)
Theorem listing_error_is_an_empty_category (site : Site)
    (self : RedCategoryRemover) (category_name : str) (e : exn) :
  site_members site (py "Category:" ++ category_name) = Raised e ->
  get_category_members site category_name
  = ([], [CallMembers (py "Category:" ++ category_name);
          RunLog ERROR (MsgFailedMembers category_name e)])
  /\ fst (process_category_on site self category_name) = Ok (0, false)
  /\ fetched (page_events (snd (process_category_on site self category_name)))
     = []
  /\ save_count
       (page_events (snd (process_category_on site self category_name))) = 0.
Proof.
  intros Hraise.
  assert (Hm : get_category_members site category_name
               = ([], [CallMembers (py "Category:" ++ category_name);
                       RunLog ERROR (MsgFailedMembers category_name e)])).
  { unfold get_category_members. now rewrite Hraise. }
  split; [exact Hm|].
  rewrite process_category_on_fst, process_category_on_page_events, Hm.
  now cbn.
Qed.

(** Property X14 ([connect]): the method returns [True] exactly when the
    site object could be built and either a credential is empty or the
    login succeeded; it logs in at most once, and only with both
    credentials. *)
Theorem connect_succeeds_iff (mwclient : Mwclient) (account : Account) :
  (fst (fst (connect mwclient account)) = true
   <-> exists site,
         mwclient (site_url account) = Ok site
         /\ (username account = [] \/ password account = []
             \/ site_login site (username account) (password account)
                = Ok tt))
  /\ (List.length (filter is_login (snd (connect mwclient account))) <= 1)%nat
  /\ (filter is_login (snd (connect mwclient account)) <> [] ->
      username account <> [] /\ password account <> []).
Proof.
  unfold connect.
  destruct (mwclient (site_url account)) as [site|e].
  - assert (Hlog : truthy (username account) && truthy (password account)
                   = false ->
                   username account = [] \/ password account = []).
    { destruct (username account), (password account); cbn; auto;
        discriminate. }
    assert (Hcred : truthy (username account) && truthy (password account)
                    = true ->
                    username account <> [] /\ password account <> []).
    { destruct (username account), (password account); cbn;
        try discriminate. intros _. split; discriminate. }
    destruct (truthy (username account) && truthy (password account)).
    + specialize (Hcred eq_refl). destruct Hcred as [Hu Hp].
      destruct (site_login site (username account) (password account))
        as [[]|e] eqn:El; cbn; repeat split; try lia; try assumption;
        try discriminate.
      * intros _. exists site. split; [reflexivity|]. right; right. exact El.
      * intros [site' [Hs [H|[H|H]]]]; try contradiction.
        injection Hs as <-. congruence.
    + specialize (Hlog eq_refl). cbn. repeat split; try lia;
        try congruence; try (intros H; now contradiction H).
      intros _. exists site. split; [reflexivity|].
      destruct Hlog as [H|H]; auto.
  - cbn. repeat split; try lia; try discriminate; try congruence;
      try (intros H; now contradiction H).
    intros [site [Hs _]]. discriminate.
Qed.

(** The three ways [run] ends, with the events that matter in each. *)
Lemma run_cases (mwclient : Mwclient) (account : Account)
    (self : RedCategoryRemover) :
  (fst (fst (connect mwclient account)) = false
   /\ fst (run mwclient account self) = ConnectFailed
   /\ filter past_connection (snd (run mwclient account self)) = []
   /\ page_events (snd (run mwclient account self)) = []
   /\ filter is_category_error (snd (run mwclient account self)) = [])
  \/ (fst (fst (connect mwclient account)) = true
      /\ fst (run mwclient account self) = NothingWanted
      /\ filter on_members (snd (run mwclient account self)) = []
      /\ page_events (snd (run mwclient account self)) = []
      /\ filter is_category_error (snd (run mwclient account self)) = [])
  \/ (exists site wanted total_edits skipped_categories events,
        fst (connect mwclient account) = (true, Some site)
        /\ fst (get_wanted_categories site) = wanted
        /\ wanted <> []
        /\ run_loop site self 1 (Z.of_nat (List.length wanted)) wanted 0 0
           = (total_edits, skipped_categories, events)
        /\ fst (run mwclient account self)
           = Summary (Z.of_nat (List.length wanted)) skipped_categories
               total_edits
        /\ page_events (snd (run mwclient account self)) = page_events events
        /\ filter is_category_error (snd (run mwclient account self))
           = filter is_category_error events
        /\ filter is_announcement (snd (run mwclient account self))
           = filter is_announcement events).
Proof.
  unfold run.
  set (opening := [RunLog INFO MsgBanner; RunLog INFO MsgStarted;
                   RunLog INFO MsgBanner]
                  ++ (if dry_run self then [RunLog INFO MsgDryRunMode]
                      else [])).
  assert (Ho : page_events opening = []
               /\ filter past_connection opening = []
               /\ filter on_members opening = []
               /\ filter is_category_error opening = []
               /\ filter is_announcement opening = []).
  { unfold opening. now destruct (dry_run self). }
  destruct Ho as [Ho1 [Ho2 [Ho3 [Ho4 Ho5]]]].
  destruct (connect_page_events mwclient account) as [Hc1 [Hc2 [Hc3 Hc4]]].
  assert (Hc5 : filter is_announcement (snd (connect mwclient account)) = []).
  { unfold connect.
    destruct (mwclient (site_url account)) as [site|e]; [|now cbn].
    destruct (truthy (username account) && truthy (password account));
      [|now cbn].
    destruct (site_login site (username account) (password account));
      now cbn. }
  assert (Hsome : fst (fst (connect mwclient account)) = true ->
                  exists site, snd (fst (connect mwclient account)) = Some site).
  { unfold connect.
    destruct (mwclient (site_url account)) as [site|e]; [|discriminate].
    destruct (truthy (username account) && truthy (password account));
      [|now exists site].
    destruct (site_login site (username account) (password account));
      [now exists site | discriminate]. }
  destruct (connect mwclient account) as [[ok site] connecting].
  cbn [fst snd] in *.
  destruct ok.
  - destruct (Hsome eq_refl) as [site' ->].
    destruct (wanted_page_events site') as [Hw1 [Hw2 Hw3]].
    assert (Hw4 : filter is_announcement (snd (get_wanted_categories site'))
                  = []).
    { unfold get_wanted_categories.
      destruct (site_api_wanted site') as [[[items|]|]|e]; try now cbn.
      destruct (wanted_cats items); now cbn. }
    destruct (get_wanted_categories site') as [wanted fetching] eqn:Ew.
    cbn [fst snd] in *.
    destruct wanted as [|category_name more].
    + right; left. cbn [fst snd].
      rewrite !filter_app, !page_events_app, Ho1, Ho3, Ho4, Hc1, Hc2, Hc4,
        Hw1, Hw2, Hw3.
      now cbn.
    + right; right.
      set (wanted := category_name :: more) in *.
      destruct (run_loop site' self 1 (Z.of_nat (List.length wanted)) wanted
                  0 0) as [[total_edits skipped_categories] events] eqn:El.
      exists site', wanted, total_edits, skipped_categories, events.
      rewrite Ew. cbn [fst snd].
      split; [reflexivity|]. split; [reflexivity|]. split; [discriminate|].
      split; [exact El|]. split; [reflexivity|].
      rewrite !filter_app, !page_events_app, Ho1, Ho4, Ho5, Hc1, Hc4, Hc5,
        Hw1, Hw3, Hw4.
      cbn [page_events filter is_category_error is_announcement app].
      rewrite !app_nil_r. repeat split; reflexivity.
  - left. cbn [fst snd].
    rewrite !filter_app, !page_events_app, Ho1, Ho2, Ho4, Hc1, Hc3, Hc4.
    now cbn.
Qed.

End DriverProperties.

Section RunProperties.
Local Open Scope Z_scope.

Variable mwclient : Mwclient.
Variable account : Account.
Variable self : RedCategoryRemover.

(** Property X15 ([run], the summary): when [run] reaches its summary, the
    number of categories processed is the number of wanted categories the
    site returned, at least one, each announced once; the number of
    skipped categories lies between 0 and it; and the total of edits is
    the number of edits logged on the pages during the run. *)
Theorem run_summary_totals (processed skipped_categories total_edits : Z) :
  fst (run mwclient account self)
  = Summary processed skipped_categories total_edits ->
  (exists site,
     fst (connect mwclient account) = (true, Some site)
     /\ processed
        = Z.of_nat (List.length (fst (get_wanted_categories site))))
  /\ 1 <= processed
  /\ 0 <= skipped_categories <= processed
  /\ 0 <= total_edits
  /\ total_edits
     = edit_count (page_events (snd (run mwclient account self)))
  /\ Z.of_nat (List.length
       (filter is_announcement (snd (run mwclient account self))))
     = processed.
Proof.
  intros Hend.
  destruct (run_cases mwclient account self)
    as [[_ [H _]]|[[_ [H _]]
       |[site [wanted [t [s [events
          [Hc [Hw [Hne [Hl [Hr [Hp [_ Ha]]]]]]]]]]]]]];
    try (rewrite H in Hend; discriminate).
  rewrite Hr in Hend. injection Hend as <- <- <-.
  destruct (run_loop_account _ _ _ _ _ _ _ Hl)
    as [Ht [Hs [_ [Hn [_ _]]]]].
  rewrite Hp, Ha, Hn.
  split; [exists site; split; [exact Hc | now rewrite Hw]|].
  assert (1 <= Z.of_nat (List.length wanted)).
  { destruct wanted; [contradiction|]. cbn [List.length]. lia. }
  unfold edit_count in *. repeat split; lia.
Qed.

(** Property X16 ([run], its [except] branch): no run logs an error for a
    category: [process_category] lets no exception out, so the branch is
    never taken. *)
Theorem run_never_reports_category_error :
  filter is_category_error (snd (run mwclient account self)) = [].
Proof.
  destruct (run_cases mwclient account self)
    as [[_ [_ [_ [_ H]]]]|[[_ [_ [_ [_ H]]]]
       |[site [wanted [t [s [events
          [Hc [Hw [Hne [Hl [Hr [Hp [He Ha]]]]]]]]]]]]]];
    try exact H.
  rewrite He.
  now destruct (run_loop_account _ _ _ _ _ _ _ Hl) as [_ [_ [H _]]].
Qed.

(** Property X17 ([run], dry run): a run of a remover in dry-run mode calls
    [page.save] on no page of any category. *)
Theorem dry_run_never_saves :
  dry_run self = true ->
  save_count (page_events (snd (run mwclient account self))) = 0.
Proof.
  intros Hdry.
  destruct (run_cases mwclient account self)
    as [[_ [_ [_ [H _]]]]|[[_ [_ [_ [H _]]]]
       |[site [wanted [t [s [events
          [Hc [Hw [Hne [Hl [Hr [Hp [He Ha]]]]]]]]]]]]]];
    try (rewrite H; reflexivity).
  rewrite Hp.
  destruct (run_loop_account _ _ _ _ _ _ _ Hl) as [_ [_ [_ [_ [_ [H _]]]]]].
  exact (H Hdry).
Qed.

(** Property X18 ([run], no connection): when [connect] returns [False] the
    run ends at once: the API is not queried, no category is listed and
    no page is touched. *)
Theorem failed_connection_ends_the_run :
  fst (fst (connect mwclient account)) = false ->
  fst (run mwclient account self) = ConnectFailed
  /\ filter past_connection (snd (run mwclient account self)) = [].
Proof.
  intros Hfail.
  destruct (run_cases mwclient account self)
    as [[_ [He [Hp _]]]|[[Hc _]
       |[site [wanted [t [s [events [Hc _]]]]]]]].
  - now split.
  - congruence.
  - rewrite Hc in Hfail. discriminate.
Qed.

(** Property X19 ([run], nothing wanted): when the list of wanted categories
    comes back empty, also after a failed query, the run ends with no
    category listed and no page touched. *)
Theorem nothing_wanted_no_listing :
  fst (run mwclient account self) = NothingWanted ->
  fst (fst (connect mwclient account)) = true
  /\ filter on_members (snd (run mwclient account self)) = [].
Proof.
  intros Hend.
  destruct (run_cases mwclient account self)
    as [[_ [He _]]|[[Hc [_ [Hm _]]]
       |[site [wanted [t [s [events [_ [_ [_ [_ [Hr _]]]]]]]]]]]].
  - rewrite He in Hend. discriminate.
  - now split.
  - rewrite Hr in Hend. discriminate.
Qed.

(** Property X20 ([run], the order of the calls): in a whole run a page is
    saved only right after its own text was fetched, and at most once per
    fetch. *)
Theorem run_saves_follow_fetches :
  exists last,
    io_run None (page_events (snd (run mwclient account self))) = Some last.
Proof.
  destruct (run_cases mwclient account self)
    as [[_ [_ [_ [H _]]]]|[[_ [_ [_ [H _]]]]
       |[site [wanted [t [s [events
          [Hc [Hw [Hne [Hl [Hr [Hp [He Ha]]]]]]]]]]]]]];
    try (rewrite H; now eexists).
  rewrite Hp.
  destruct (run_loop_account _ _ _ _ _ _ _ Hl) as [_ [_ [_ [_ [_ [_ H]]]]]].
  exact (H None).
Qed.

End RunProperties.

(** * The further properties on sample pages and sites *)

Section MoreSamples.
Local Open Scope Z_scope.

Ltac spelled := repeat constructor; discriminate.

(** Upper-case keyword, lower-case name, a space and a sort key. *)
Lemma check_category_in_text_tolerant_witness :
  keyword_spelling (py "CATEGORY")
  /\ same_text (UC := ascii_case) (py "Test Category") (py "test category")
  /\ check_category_in_text (UC := ascii_case)
       (py "Text [[CATEGORY:test category |Key]] more") (py "Test Category")
     = Ok true.
Proof.
  assert (Hk : keyword_spelling (py "CATEGORY")) by (left; reflexivity).
  assert (Hn : same_text (UC := ascii_case) (py "Test Category")
                 (py "test category")) by (repeat constructor).
  split; [exact Hk|]. split; [exact Hn|].
  refine (@check_category_in_text_tolerant ascii_case (py "CATEGORY")
            (py "Test Category") (py "test category") (py " ") (py "|Key")
            (py "Text ") (py " more") Hk Hn _ _).
  - repeat constructor.
  - right. exists (py "Key"). split; [reflexivity | spelled].
Defined.

(** A link on a line of its own goes with its newline. *)
Lemma remove_category_from_text_exact_witness :
  bracket_free (py "Text" ++ [10%N])
  /\ bracket_free ([10%N] ++ py "more")
  /\ remove_category_from_text (UC := ascii_case)
       ((py "Text" ++ [10%N]) ++ py "[[" ++ py "category" ++ py ":"
          ++ py "TEST CATEGORY" ++ [] ++ [] ++ py "]]" ++ [10%N] ++ py "more")
       (py "Test Category")
     = Ok ((py "Text" ++ [10%N]) ++ py "more").
Proof.
  assert (Hb : bracket_free (py "Text" ++ [10%N])) by spelled.
  assert (Ha : bracket_free ([10%N] ++ py "more")) by spelled.
  split; [exact Hb|]. split; [exact Ha|].
  refine (@remove_category_from_text_exact ascii_case (py "category")
            (py "Test Category") (py "TEST CATEGORY") [] []
            (py "Text" ++ [10%N]) ([10%N] ++ py "more")
            eq_refl _ _ _ Hb Ha).
  - repeat constructor.
  - constructor.
  - now left.
Defined.

(** The same under the Arabic keyword, with a sort key. *)
Lemma remove_category_from_text_exact_arabic_witness :
  fixes_beyond_ascii (UC := ascii_case)
  /\ remove_category_from_text (UC := ascii_case)
       (py "Text " ++ py "[[" ++ tasnif ++ py ":" ++ py "Test Category"
          ++ py " " ++ py "|Key" ++ py "]]" ++ py " more")
       (py "Test Category")
     = Ok (py "Text " ++ py " more").
Proof.
  assert (Hf : fixes_beyond_ascii (UC := ascii_case)).
  { intros lo c _ Hin. contradiction Hin. }
  split; [exact Hf|].
  refine (@remove_category_from_text_exact_arabic ascii_case
            (py "Test Category") (py "Test Category") (py " ") (py "|Key")
            (py "Text ") (py " more") Hf _ _ _ _ _ _ _).
  - repeat constructor.
  - repeat constructor.
  - right. exists (py "Key"). split; [reflexivity | spelled].
  - spelled.
  - spelled.
  - spelled.
  - spelled.
Defined.


(** Twelve articles without the category, threshold 10. *)
Lemma skipped_needs_misses_witness :
  fst (process_category test_remover (py "Test Category") (mock_pages 12))
  = Ok (0, true)
  /\ max_check test_remover
     <= Z.of_nat (List.length
          (filter (is_missb test_remover (py "Test Category"))
             (mock_pages 12))).
Proof.
  assert (H : fst (process_category test_remover (py "Test Category")
                     (mock_pages 12)) = Ok (0, true))
    by (vm_compute; reflexivity).
  split; [exact H|].
  exact (proj1 (@skipped_needs_misses test_remover (py "Test Category")
                  (mock_pages 12) 0 H)).
Defined.

(** Threshold 1: one hit, then the first miss ends the loop. *)
Lemma low_threshold_skips_at_first_miss_witness :
  max_check hasty_remover <= 1
  /\ exists edits,
       fst (process_category hasty_remover (py "Test Category")
              (page_with_cat :: mock_pages 2))
       = Ok (edits,
             existsb (is_missb hasty_remover (py "Test Category"))
               (page_with_cat :: mock_pages 2)).
Proof.
  assert (H : max_check hasty_remover <= 1) by (vm_compute; discriminate).
  split; [exact H|].
  exact (@low_threshold_skips_at_first_miss hasty_remover
           (py "Test Category") (page_with_cat :: mock_pages 2) H).
Defined.

(** A name with a colon of its own behind the prefix, and a bare name. *)
Lemma wanted_names_follow_first_colon_witness :
  get_wanted_categories broken_site
  = (map snd [(Some (py "Category"), py "Foo:Bar"); (None, py "Baz")],
     [RunLog INFO MsgFetchingWanted; CallApi;
      RunLog INFO (MsgFoundWanted 2)]).
Proof.
  refine (@wanted_names_follow_first_colon broken_site
            [(Some (py "Category"), py "Foo:Bar"); (None, py "Baz")]
            _ eq_refl).
  repeat constructor; spelled.
Defined.

Lemma item_without_title_loses_all_witness :
  fst (get_wanted_categories untitled_site) = [].
Proof.
  refine (f_equal fst
            (@item_without_title_loses_all untitled_site
               [Some (py "Category:A"); None] eq_refl _)).
  right. now left.
Defined.

Lemma listing_error_is_an_empty_category_witness :
  fst (process_category_on broken_site live_remover (py "Baz"))
  = Ok (0, false).
Proof.
  exact (proj1 (proj2
           (@listing_error_is_an_empty_category broken_site live_remover
              (py "Baz") (Exception "APIError") eq_refl))).
Defined.

(** One wanted category, one edit counted in a dry run. *)
Lemma run_summary_totals_witness :
  fst (run mock_mwclient anonymous test_remover) = Summary 1 0 1
  /\ 1 = edit_count
           (page_events (snd (run mock_mwclient anonymous test_remover))).
Proof.
  assert (H : fst (run mock_mwclient anonymous test_remover) = Summary 1 0 1)
    by (vm_compute; reflexivity).
  split; [exact H|].
  exact (proj1 (proj2 (proj2 (proj2 (proj2
           (@run_summary_totals mock_mwclient anonymous test_remover 1 0 1
              H)))))).
Defined.

Lemma dry_run_never_saves_witness :
  dry_run test_remover = true
  /\ save_count (page_events (snd (run mock_mwclient anonymous test_remover)))
     = 0.
Proof.
  split; [reflexivity|].
  exact (@dry_run_never_saves mock_mwclient anonymous test_remover eq_refl).
Defined.

Lemma failed_connection_ends_the_run_witness :
  fst (fst (connect unreachable anonymous)) = false
  /\ fst (run unreachable anonymous live_remover) = ConnectFailed
  /\ filter past_connection (snd (run unreachable anonymous live_remover))
     = [].
Proof.
  split; [reflexivity|].
  exact (@failed_connection_ends_the_run unreachable anonymous live_remover
           eq_refl).
Defined.

Lemma nothing_wanted_no_listing_witness :
  fst (run tidy_mwclient anonymous live_remover) = NothingWanted
  /\ filter on_members (snd (run tidy_mwclient anonymous live_remover)) = [].
Proof.
  assert (H : fst (run tidy_mwclient anonymous live_remover) = NothingWanted)
    by (vm_compute; reflexivity).
  split; [exact H|].
  exact (proj2 (@nothing_wanted_no_listing tidy_mwclient anonymous
                  live_remover H)).
Defined.

(** A failing fetch and a failing save, each in the middle of the loop
    with the counters at 2 and 3, and each between two hits of a category
    of three members. *)
Lemma page_error_is_contained_witness :
  (raises live_remover (py "Test Category") 4 6 unreadable_page
     (Exception "connection lost") (checking 4 6 unreadable_page)
   /\ loop_body live_remover (py "Test Category") 4 6 unreadable_page
        {| edits_made := 2; not_found_count := 3; trace := [] |}
      = (Continue,
         {| edits_made := 2; not_found_count := 3;
            trace := checking 4 6 unreadable_page
                     ++ [Log ERROR (MsgError (page_name unreadable_page)
                                      (Exception "connection lost"))] |})
   /\ fst (process_category live_remover (py "Test Category")
             ([page_with_cat] ++ unreadable_page :: [page_with_cat]))
      = Ok (2, false))
  /\ (raises live_remover (py "Test Category") 4 6 protected_page
        (Exception "protected page")
        (checking 4 6 protected_page
         ++ [Log INFO MsgFoundInText;
             CallSave (page_name protected_page) (py "Text  more")
               (edit_summary (py "Test Category")) true])
      /\ loop_body live_remover (py "Test Category") 4 6 protected_page
           {| edits_made := 2; not_found_count := 3; trace := [] |}
         = (Continue,
            {| edits_made := 2; not_found_count := 3;
               trace := (checking 4 6 protected_page
                         ++ [Log INFO MsgFoundInText;
                             CallSave (page_name protected_page)
                               (py "Text  more")
                               (edit_summary (py "Test Category")) true])
                        ++ [Log ERROR (MsgError (page_name protected_page)
                                         (Exception "protected page"))] |})
      /\ fst (process_category live_remover (py "Test Category")
                ([page_with_cat] ++ protected_page :: [page_with_cat]))
         = Ok (2, false)).
Proof.
  assert (Hfetch : raises live_remover (py "Test Category") 4 6
                     unreadable_page (Exception "connection lost")
                     (checking 4 6 unreadable_page))
    by (apply raises_text; reflexivity).
  assert (Hsave : raises live_remover (py "Test Category") 4 6 protected_page
                    (Exception "protected page")
                    (checking 4 6 protected_page
                     ++ [Log INFO MsgFoundInText;
                         CallSave (page_name protected_page) (py "Text  more")
                           (edit_summary (py "Test Category")) true])).
  { apply raises_save with (text := py "Text [[Category:Test Category]] more");
      [|reflexivity|reflexivity].
    exact (@page_with_cat_is_hit live_remover protected_page
             eq_refl eq_refl eq_refl eq_refl). }
  split.
  - split; [exact Hfetch|].
    destruct (@page_error_is_contained live_remover (py "Test Category") 4 6
                unreadable_page [page_with_cat] [page_with_cat]
                {| edits_made := 2; not_found_count := 3; trace := [] |}
                _ _ Hfetch) as [_ [Hb [_ [_ [_ [_ [Hp _]]]]]]].
    split; [exact Hb|]. rewrite Hp. vm_compute. reflexivity.
  - split; [exact Hsave|].
    destruct (@page_error_is_contained live_remover (py "Test Category") 4 6
                protected_page [page_with_cat] [page_with_cat]
                {| edits_made := 2; not_found_count := 3; trace := [] |}
                _ _ Hsave) as [_ [Hb [_ [_ [_ [_ [Hp _]]]]]]].
    split; [exact Hb|]. rewrite Hp. vm_compute. reflexivity.
Defined.

End MoreSamples.
